(** * groundcontrol: the PostGIS layer browser (ui/apps/postgis/js/postgis.js)

    A shallow embedding of the multi-layer browser: the layer catalog, the
    registry state kept in the closure of [window.GCPostgisApp] ([layers],
    [active], [visible], [loaded], [order], [sridCache]), the query builders,
    the asynchronous loaders and the event handlers bound by
    [renderLayerList] and [bindUI].

    Asynchronous functions are programs of a small resumption monad: the code
    between two [await]s runs atomically on the registry state, and an
    [await] of a remote call suspends the program until a reply is delivered.
    The remote services, the JavaScript built-ins that convert between
    numbers and strings, and Leaflet are the host environment; they appear
    as an interface ([Host]) or as replies fed to a suspended program. *)

From Stdlib Require Import ZArith QArith String Ascii List Bool Lia Permutation DecimalString.
From stdpp Require Import base gmap sets list strings.
Import ListNotations.

Local Open Scope string_scope.
Local Open Scope list_scope.

(** ** JavaScript numbers and the values found in a JSON reply *)

Module Js.

(** An IEEE double is NaN, an infinity or a finite rational.  The code only
    compares numbers with constants and tests finiteness, never computes
    with them, so a finite double is carried as the rational it denotes and
    compared with [Qle_bool] / [Qeq_bool]. *)
Inductive num : Type :=
| NaN
| Inf (negative : bool)
| Fin (q : Q).

Definition of_Z (z : Z) : num := Fin (inject_Z z).
Definition of_nat (n : nat) : num := of_Z (Z.of_nat n).

(** [Number.isFinite(x)] *)
Definition isFinite (x : num) : bool :=
  match x with Fin _ => true | _ => false end.

(** [x <= y] on numbers: false as soon as one side is NaN. *)
Definition le (x y : num) : bool :=
  match x, y with
  | NaN, _ | _, NaN => false
  | Inf true, _ => true
  | _, Inf false => true
  | Inf false, _ => false
  | _, Inf true => false
  | Fin p, Fin q => Qle_bool p q
  end.

(** [x > y] *)
Definition gt (x y : num) : bool :=
  match x, y with
  | NaN, _ | _, NaN => false
  | Inf true, _ => false
  | _, Inf false => false
  | Inf false, _ => true
  | _, Inf true => true
  | Fin p, Fin q => negb (Qle_bool p q)
  end.

(** [x === y] on numbers. *)
Definition eqb (x y : num) : bool :=
  match x, y with
  | Fin p, Fin q => Qeq_bool p q
  | Inf a, Inf b => Bool.eqb a b
  | _, _ => false
  end.

(** A value read from a parsed JSON body, or [undefined] for a property that
    is not there.  Objects and arrays are kept as their JSON text. *)
Inductive val : Type :=
| Undefined
| Null
| Boolean (b : bool)
| Number (n : num)
| Str (s : string)
| Object (json : string).

(** [v == null] *)
Definition nullish (v : val) : bool :=
  match v with Undefined | Null => true | _ => false end.

(** Truthiness, as tested by [!v], [v || w] and [v && w]. *)
Definition truthy (v : val) : bool :=
  match v with
  | Undefined | Null => false
  | Boolean b => b
  | Number NaN => false
  | Number (Inf _) => true
  | Number (Fin q) => negb (Qeq_bool q 0)
  | Str s => negb (String.eqb s "")
  | Object _ => true
  end.

End Js.

(** A row of a query reply: a JSON object used as a map from column name to
    value.  A missing column reads as [undefined]. *)
Abbreviation Row := (gmap string Js.val).

Definition prop (r : Row) (k : string) : Js.val :=
  match r !! k with Some v => v | None => Js.Undefined end.

(** The viewport of the map, in degrees. *)
Record BBox : Type := mkBBox {
  west : Js.num; south : Js.num; east : Js.num; north : Js.num
}.

(** ** The host environment

    Built-ins of the JavaScript engine and of Leaflet that the code calls
    and whose definition is not part of the repository. *)
Class Host : Type := {
  (** [Number(s)] for a string [s] *)
  StringToNumber : string -> Js.num;
  (** [Number(o)] for an object or array given by its JSON text *)
  ObjectToNumber : string -> Js.num;
  (** [String(x)] for a number, as spliced into a template literal *)
  NumberToString : Js.num -> string;
  (** [s.toLowerCase()] *)
  toLowerCase : string -> string;
  (** [JSON.parse(s)]; [None] when it throws *)
  JSON_parse : string -> option Js.val;
  (** the viewport Leaflet settles on for [map.fitBounds(bounds)] *)
  leaflet_fitBounds : BBox -> BBox -> BBox
}.

(** ** Catalog, replies and requests *)

(** A catalog layer, as built by [loadLayerCatalog].  [geomCount] is [null]
    ([None]) until hydration fills it. *)
Record Layer : Type := mkLayer {
  schema : string;
  name : string;
  full : string;
  geomCol : string;
  geomCount : option Js.num
}.

(** An entry of [tables_by_schema] in the catalog reply. *)
Record Table : Type := mkTable {
  t_schema : option string;
  t_name : string;
  t_has_geom : bool;
  t_geom_cols : option (list string);
  t_geom_col : option string
}.

(** The JSON body of a reply.  The catalog service fills [schemas] and
    [tables_by_schema], the query service fills [rows]; any of them may be
    missing.  An element of [rows] may be [null] ([None]). *)
Record Body : Type := mkBody {
  schemas : option (list string);
  tables_by_schema : option (list (string * list Table));
  rows : option (list (option Row))
}.

(** What [getJson] / [postJson] end with: the parsed body, or an [Error]
    thrown with the given message (transport failure, a status that is not
    ok, or [ok: false] in the body). *)
Inductive Reply : Type :=
| Resolved (b : Body)
| Rejected (message : string).

(** The purpose of a query.  It is a label of the model only: the wire
    carries the url and the SQL text. *)
Inductive QueryKind : Type :=
| QCounts | QSrid | QExtent | QViewport | QAdHoc.

Inductive Request : Type :=
| GetCatalog
| PostQuery (kind : QueryKind) (sql : string).

(** A feature of a feature collection. *)
Record Feature : Type := mkFeature {
  geometry : Js.val;
  properties : Row
}.

(** Calls into the rendering surface ([window.GCMap]), [alert]s and remote
    requests, in the order they are made. *)
Inductive Effect : Type :=
| MapInit
| MapSetFeatures (layerId : string) (features : list Feature)
| MapSetLayerVisible (layerId : string) (on : bool)
| MapApplyOrder (ids : list string)
| MapFitBounds (ext : Row)
| MapClear
| Alert (message : string)
| Fetch (q : Request).

(** ** The page *)

(** A row of the layer list, with what the closures created by
    [renderLayerList] captured for it and the state of its checkbox.
    [el] identifies the DOM element: a handler that is still running when the
    list is rendered again holds a checkbox that is no longer in the page. *)
Record RowEl : Type := mkRowEl {
  el : nat;
  r_layer : Layer;
  r_isActive : bool;
  r_emptyGeom : bool;
  cb_checked : bool;
  cb_disabled : bool
}.

(** The registry (the variables closed over by [GCPostgisApp]) together with
    the parts of the page and of the rendering surface the code reads or
    writes.  [featureCount] is the text of [#featureCount]: the code writes
    [String(n)] for an array length [n] or the literal 0 and reads it back
    with [Number], so the model keeps the number.  The timing label
    [#loadMs] and the inspector panel are display sinks and are left out. *)
Record State : Type := mkState {
  layers : list Layer;
  active : option Layer;
  visible : gset string;
  loaded : gset string;
  order : list string;
  sridCache : gmap string Js.num;
  (* page *)
  rowEls : list RowEl;
  nextEl : nat;
  bound : bool;
  layerSearch : string;
  sqlEditor : string;
  activeLayerLabel : string;
  featureCount : nat;
  srcBadge : string;
  (* rendering surface and log *)
  viewport : BBox;
  trace : list Effect
}.

Definition set_layers (v : list Layer) (s : State) : State :=
  mkState v (active s) (visible s) (loaded s) (order s) (sridCache s)
    (rowEls s) (nextEl s) (bound s) (layerSearch s) (sqlEditor s)
    (activeLayerLabel s) (featureCount s) (srcBadge s) (viewport s) (trace s).
Definition set_active (v : option Layer) (s : State) : State :=
  mkState (layers s) v (visible s) (loaded s) (order s) (sridCache s)
    (rowEls s) (nextEl s) (bound s) (layerSearch s) (sqlEditor s)
    (activeLayerLabel s) (featureCount s) (srcBadge s) (viewport s) (trace s).
Definition set_visible (v : gset string) (s : State) : State :=
  mkState (layers s) (active s) v (loaded s) (order s) (sridCache s)
    (rowEls s) (nextEl s) (bound s) (layerSearch s) (sqlEditor s)
    (activeLayerLabel s) (featureCount s) (srcBadge s) (viewport s) (trace s).
Definition set_loaded (v : gset string) (s : State) : State :=
  mkState (layers s) (active s) (visible s) v (order s) (sridCache s)
    (rowEls s) (nextEl s) (bound s) (layerSearch s) (sqlEditor s)
    (activeLayerLabel s) (featureCount s) (srcBadge s) (viewport s) (trace s).
Definition set_order (v : list string) (s : State) : State :=
  mkState (layers s) (active s) (visible s) (loaded s) v (sridCache s)
    (rowEls s) (nextEl s) (bound s) (layerSearch s) (sqlEditor s)
    (activeLayerLabel s) (featureCount s) (srcBadge s) (viewport s) (trace s).
Definition set_sridCache (v : gmap string Js.num) (s : State) : State :=
  mkState (layers s) (active s) (visible s) (loaded s) (order s) v
    (rowEls s) (nextEl s) (bound s) (layerSearch s) (sqlEditor s)
    (activeLayerLabel s) (featureCount s) (srcBadge s) (viewport s) (trace s).
Definition set_rowEls (v : list RowEl) (n : nat) (s : State) : State :=
  mkState (layers s) (active s) (visible s) (loaded s) (order s) (sridCache s)
    v n (bound s) (layerSearch s) (sqlEditor s)
    (activeLayerLabel s) (featureCount s) (srcBadge s) (viewport s) (trace s).
Definition set_bound (v : bool) (s : State) : State :=
  mkState (layers s) (active s) (visible s) (loaded s) (order s) (sridCache s)
    (rowEls s) (nextEl s) v (layerSearch s) (sqlEditor s)
    (activeLayerLabel s) (featureCount s) (srcBadge s) (viewport s) (trace s).
Definition set_layerSearch (v : string) (s : State) : State :=
  mkState (layers s) (active s) (visible s) (loaded s) (order s) (sridCache s)
    (rowEls s) (nextEl s) (bound s) v (sqlEditor s)
    (activeLayerLabel s) (featureCount s) (srcBadge s) (viewport s) (trace s).
Definition set_sqlEditor (v : string) (s : State) : State :=
  mkState (layers s) (active s) (visible s) (loaded s) (order s) (sridCache s)
    (rowEls s) (nextEl s) (bound s) (layerSearch s) v
    (activeLayerLabel s) (featureCount s) (srcBadge s) (viewport s) (trace s).
(** the three counters written together: label, feature count, source badge *)
Definition set_counters (label : string) (n : nat) (badge : string) (s : State) : State :=
  mkState (layers s) (active s) (visible s) (loaded s) (order s) (sridCache s)
    (rowEls s) (nextEl s) (bound s) (layerSearch s) (sqlEditor s)
    label n badge (viewport s) (trace s).
Definition set_viewport (v : BBox) (s : State) : State :=
  mkState (layers s) (active s) (visible s) (loaded s) (order s) (sridCache s)
    (rowEls s) (nextEl s) (bound s) (layerSearch s) (sqlEditor s)
    (activeLayerLabel s) (featureCount s) (srcBadge s) v (trace s).
(** the log grows at its head: the latest effect first *)
Definition emit (e : Effect) (s : State) : State :=
  mkState (layers s) (active s) (visible s) (loaded s) (order s) (sridCache s)
    (rowEls s) (nextEl s) (bound s) (layerSearch s) (sqlEditor s)
    (activeLayerLabel s) (featureCount s) (srcBadge s) (viewport s) (e :: trace s).

(** ** Asynchronous programs

    [Get]/[Put] read and write the state; [Await q k] suspends on the remote
    request [q] and resumes with [k] on its reply; [Throw] is a thrown
    [Error] with its message. *)
Inductive Prog (A : Type) : Type :=
| Ret (a : A)
| Throw (message : string)
| Get (k : State -> Prog A)
| Put (s : State) (k : Prog A)
| Await (q : Request) (k : Reply -> Prog A).

Arguments Ret {A} a.
Arguments Throw {A} message.
Arguments Get {A} k.
Arguments Put {A} s k.
Arguments Await {A} q k.

Fixpoint bind {A B : Type} (p : Prog A) (f : A -> Prog B) : Prog B :=
  match p with
  | Ret a => f a
  | Throw m => Throw m
  | Get k => Get (fun s => bind (k s) f)
  | Put s k => Put s (bind k f)
  | Await q k => Await q (fun r => bind (k r) f)
  end.

(** [try { p } catch (e) { h e.message }] *)
Fixpoint try_catch {A : Type} (p : Prog A) (h : string -> Prog A) : Prog A :=
  match p with
  | Ret a => Ret a
  | Throw m => h m
  | Get k => Get (fun s => try_catch (k s) h)
  | Put s k => Put s (try_catch k h)
  | Await q k => Await q (fun r => try_catch (k r) h)
  end.

Declare Scope prog_scope.
Delimit Scope prog_scope with prog.
Notation "x <- p ;; q" := (bind p (fun x => q))
  (at level 100, p at next level, right associativity) : prog_scope.
Notation "p ;; q" := (bind p (fun _ => q))
  (at level 100, right associativity) : prog_scope.
Local Open Scope prog_scope.

Definition get : Prog State := Get Ret.
Definition modify (f : State -> State) : Prog unit := Get (fun s => Put (f s) (Ret tt)).
Definition await (q : Request) : Prog Reply :=
  modify (emit (Fetch q)) ;; Await q Ret.

(** Where a program stands after running up to its next suspension. *)
Inductive Outcome (A : Type) : Type :=
| Done (a : A)
| Threw (message : string)
| Waiting (q : Request) (k : Reply -> Prog A).

Arguments Done {A} a.
Arguments Threw {A} message.
Arguments Waiting {A} q k.

(** Run the synchronous part of a program. *)
Fixpoint exec {A : Type} (p : Prog A) (s : State) : State * Outcome A :=
  match p with
  | Ret a => (s, Done a)
  | Throw m => (s, Threw m)
  | Get k => exec (k s) s
  | Put s' k => exec k s'
  | Await q k => (s, Waiting q k)
  end.

(** Run a program to its end with nothing else interleaved, answering its
    requests from [replies] in order.  It stops at a suspension when the
    replies run out; the replies it did not use are returned. *)
Fixpoint run {A : Type} (replies : list Reply) (p : Prog A) (s : State)
  : State * Outcome A * list Reply :=
  match exec p s with
  | (s', Waiting q k) =>
      match replies with
      | r :: rest => run rest (k r) s'
      | [] => (s', Waiting q k, [])
      end
  | (s', o) => (s', o, replies)
  end.

Definition finalState {A : Type} (res : State * Outcome A * list Reply) : State :=
  res.1.1.
Definition outcome {A : Type} (res : State * Outcome A * list Reply) : Outcome A :=
  res.1.2.

(** ** Strings *)

Definition nl : string := String "010"%char "".
Definition dquote : string := String "034"%char "".

Fixpoint trimStart (s : string) : string :=
  match s with
  | String a s' => if Ascii.is_space a then trimStart s' else s
  | EmptyString => EmptyString
  end.

Fixpoint trimEnd (s : string) : string :=
  match s with
  | String a s' =>
      match trimEnd s' with
      | EmptyString => if Ascii.is_space a then EmptyString else String a EmptyString
      | t => String a t
      end
  | EmptyString => EmptyString
  end.

(** [s.trim()], on the white space of ASCII. *)
Definition trim (s : string) : string := trimEnd (trimStart s).

(** [s.includes(t)] *)
Fixpoint includes (s t : string) : bool :=
  String.prefix t s ||
  match s with
  | String _ s' => includes s' t
  | EmptyString => false
  end.

(** [s.replaceAll] of the double quote by two of them. *)
Fixpoint doubleQuotes (s : string) : string :=
  match s with
  | String a s' =>
      if Ascii.eqb a "034"%char
      then String a (String a (doubleQuotes s'))
      else String a (doubleQuotes s')
  | EmptyString => EmptyString
  end.

(** [parts.join(sep)] *)
Fixpoint join (sep : string) (parts : list string) : string :=
  match parts with
  | [] => ""
  | [p] => p
  | p :: rest => p +:+ sep +:+ join sep rest
  end.

(** [String(n)] for a natural number below 2^53: its decimal digits. *)
Definition decimal (n : nat) : string :=
  NilEmpty.string_of_uint (Nat.to_uint n).

(** [e.message || String(e)] on an [Error] with the given message. *)
Definition messageOf (m : string) : string :=
  if String.eqb m "" then "Error" else m.

(** [order.indexOf(x)]: the first position of [x], or -1. *)
Fixpoint indexOf (l : list string) (x : string) : Z :=
  match l with
  | [] => (-1)%Z
  | y :: l' =>
      if String.eqb y x then 0%Z
      else let i := indexOf l' x in if (i <? 0)%Z then (-1)%Z else (i + 1)%Z
  end.

Section App.
Context {host : Host}.

(** [Number(v)] *)
Definition ToNumber (v : Js.val) : Js.num :=
  match v with
  | Js.Undefined => Js.NaN
  | Js.Null => Js.of_Z 0
  | Js.Boolean b => Js.of_Z (if b then 1 else 0)
  | Js.Number n => n
  | Js.Str s => StringToNumber s
  | Js.Object j => ObjectToNumber j
  end.

(** ** Transport *)

Definition getJson (q : Request) : Prog Body :=
  r <- await q ;;
  match r with
  | Resolved data => Ret data
  | Rejected m => Throw m
  end.

Definition postJson (kind : QueryKind) (sql : string) : Prog Body :=
  r <- await (PostQuery kind sql) ;;
  match r with
  | Resolved data => Ret data
  | Rejected m => Throw m
  end.

(** [data?.rows?.[0]], with [undefined] and [null] both read as [None]. *)
Definition firstRow (data : Body) : option Row :=
  match rows data with
  | Some (Some r :: _) => Some r
  | _ => None
  end.

(** [data.rows || []] *)
Definition rowsOf (data : Body) : list (option Row) :=
  match rows data with Some l => l | None => [] end.

Definition rowsToFeatureCollection (rs : list (option Row)) : list Feature :=
  flat_map (fun r =>
    match r with
    | None => []
    | Some r =>
        let gj := prop r "geojson" in
        if negb (Js.truthy gj) then []
        else
          match (match gj with Js.Str s => JSON_parse s | v => Some v end) with
          | Some geom => [mkFeature geom (delete "geojson" r)]
          | None => []
          end
    end) rs.

(** ** Catalog loader *)

Definition nonEmptyStr (o : option string) : option string :=
  match o with
  | Some s => if String.eqb s "" then None else Some s
  | None => None
  end.

(** [(t.geom_cols && t.geom_cols[0]) || t.geom_col || "geom"] *)
Definition geomColOf (t : Table) : string :=
  match nonEmptyStr (match t_geom_cols t with Some (c :: _) => Some c | _ => None end) with
  | Some c => c
  | None =>
      match nonEmptyStr (t_geom_col t) with
      | Some c => c
      | None => "geom"
      end
  end.

Definition layerOf (schema0 : string) (t : Table) : Layer :=
  let sch := match nonEmptyStr (t_schema t) with Some s => s | None => schema0 end in
  mkLayer sch (t_name t) (sch +:+ "." +:+ t_name t) (geomColOf t) None.

(** [c.tables_by_schema?.[schema] || []] *)
Definition tablesOf (c : Body) (schema0 : string) : list Table :=
  match tables_by_schema c with
  | Some tbs =>
      match List.find (fun kv => String.eqb (fst kv) schema0) tbs with
      | Some kv => snd kv
      | None => []
      end
  | None => []
  end.

(** [c.schemas || Object.keys(c.tables_by_schema || {})] *)
Definition schemasOf (c : Body) : list string :=
  match schemas c with
  | Some l => l
  | None =>
      match tables_by_schema c with
      | Some tbs => List.map fst tbs
      | None => []
      end
  end.

Definition catalogLayers (c : Body) : list Layer :=
  flat_map (fun schema0 =>
    List.map (layerOf schema0) (List.filter t_has_geom (tablesOf c schema0)))
    (schemasOf c).

Definition loadLayerCatalog : Prog (list Layer) :=
  c <- getJson GetCatalog ;;
  Ret (catalogLayers c).

(** The statements [l.geomCount = (v == null) ? 0 : Number(v);
    if (!Number.isFinite(l.geomCount)) l.geomCount = 0;] *)
Definition hydratedCount (v : Js.val) : Js.num :=
  let c := if Js.nullish v then Js.of_Z 0 else ToNumber v in
  if Js.isFinite c then c else Js.of_Z 0.

Definition setGeomCount (c : Js.num) (l : Layer) : Layer :=
  mkLayer (schema l) (name l) (full l) (geomCol l) (Some c).

Definition countPart (l : Layer) : string :=
  "(SELECT COUNT(" +:+ geomCol l +:+ ") FROM " +:+ full l +:+ " WHERE "
    +:+ geomCol l +:+ " IS NOT NULL) AS " +:+ dquote
    +:+ doubleQuotes (full l) +:+ dquote.

(** [hydrateGeomCounts] writes the counts into the layer objects of the
    array it is given; the model returns the array after the writes. *)
Definition hydrateGeomCounts (ls : list Layer) : Prog (list Layer) :=
  match ls with
  | [] => Ret ls
  | _ =>
      let sql := "SELECT " +:+ join ", " (List.map countPart ls) +:+ ";" in
      data <- postJson QCounts sql ;;
      let row := match firstRow data with Some r => r | None => ∅ end in
      Ret (List.map (fun l => setGeomCount (hydratedCount (prop row (full l))) l) ls)
  end.

(** ** Layer registry *)

Definition applyOrderToMap : Prog unit :=
  modify (fun s => emit (MapApplyOrder (order s)) s).

Definition ensureOrderInitialized : Prog unit :=
  s <- get ;;
  match order s with
  | _ :: _ => Ret tt
  | [] =>
      modify (fun s => set_order (List.map full (layers s)) s) ;;
      applyOrderToMap
  end.

(** [l.geomCount != null && l.geomCount <= 0] *)
Definition emptyGeom (l : Layer) : bool :=
  match geomCount l with
  | Some c => Js.le c (Js.of_Z 0)
  | None => false
  end.

(** [l.geomCount == null ? true : l.geomCount > 0], which is also
    [l.geomCount == null || l.geomCount > 0] *)
Definition hasData (l : Layer) : bool :=
  match geomCount l with
  | Some c => Js.gt c (Js.of_Z 0)
  | None => true
  end.

(** [renderLayerList]: the rows of [#layersHost] are rebuilt from the
    registry; every row gets fresh elements and fresh closures. *)
Definition renderLayerList (filterText : string) : Prog unit :=
  modify (fun s =>
    let ft := trim (toLowerCase filterText) in
    let shown :=
      List.filter (fun l => String.eqb ft "" || includes (toLowerCase (full l)) ft)
        (layers s) in
    let mkRow (i : nat) (layer : Layer) :=
      let layerId := full layer in
      let isActive :=
        match active s with
        | Some a => String.eqb (full a) layerId
        | None => false
        end in
      let empty := emptyGeom layer in
      mkRowEl (nextEl s + i) layer isActive empty
        (if empty then false else bool_decide (layerId ∈ visible s))
        empty in
    set_rowEls (imap mkRow shown) (nextEl s + length shown) s).

(** The new order after [moveLayer(layerId, dir)], or [None] where the
    function returns without touching it. *)
Definition movedOrder (o : list string) (layerId : string) (dir : Z) : option (list string) :=
  let idx := indexOf o layerId in
  if (idx <? 0)%Z then None
  else
    let j := (idx + dir)%Z in
    if ((j <? 0) || (Z.of_nat (length o) <=? j))%Z then None
    else
      let tmp := o !!! Z.to_nat idx in
      Some (<[Z.to_nat j := tmp]> (<[Z.to_nat idx := o !!! Z.to_nat j]> o)).

Definition moveLayer (layerId : string) (dir : Z) : Prog unit :=
  s <- get ;;
  match movedOrder (order s) layerId dir with
  | None => Ret tt
  | Some o' =>
      modify (set_order o') ;;
      applyOrderToMap ;;
      s <- get ;;
      renderLayerList (layerSearch s)
  end.

(** ** Coordinate reference and extent *)

Definition sridSQL (layer : Layer) : string :=
  let g := geomCol layer in
  trim (nl +:+ "        SELECT ST_SRID(" +:+ g +:+ ") AS srid" +:+ nl
    +:+ "        FROM " +:+ full layer +:+ nl
    +:+ "        WHERE " +:+ g +:+ " IS NOT NULL" +:+ nl
    +:+ "        LIMIT 1;" +:+ nl +:+ "      ").

Definition srid4326 : Js.num := Js.of_Z 4326.

(** [Number.isFinite(srid) && srid > 0 ? srid : 4326] *)
Definition safeSrid (srid : Js.num) : Js.num :=
  if Js.isFinite srid && Js.gt srid (Js.of_Z 0) then srid else srid4326.

Definition getLayerSrid (layer : Layer) : Prog Js.num :=
  let layerId := full layer in
  s <- get ;;
  match sridCache s !! layerId with
  | Some v => Ret v
  | None =>
      data <- postJson QSrid (sridSQL layer) ;;
      let srid :=
        ToNumber (match firstRow data with
                  | Some r => prop r "srid"
                  | None => Js.Undefined
                  end) in
      let safe := safeSrid srid in
      modify (fun s => set_sridCache (<[layerId := safe]> (sridCache s)) s) ;;
      Ret safe
  end.

(** [srid === 4326 ? g : `ST_Transform(${g}, 4326)`] *)
Definition geomExpr (g : string) (srid : Js.num) : string :=
  if Js.eqb srid srid4326 then g else "ST_Transform(" +:+ g +:+ ", 4326)".

Definition extentSQL (layer : Layer) (srid : Js.num) : string :=
  let g := geomCol layer in
  trim (nl +:+ "        SELECT" +:+ nl
    +:+ "          ST_XMin(e) AS west," +:+ nl
    +:+ "          ST_YMin(e) AS south," +:+ nl
    +:+ "          ST_XMax(e) AS east," +:+ nl
    +:+ "          ST_YMax(e) AS north" +:+ nl
    +:+ "        FROM (" +:+ nl
    +:+ "          SELECT ST_Extent(" +:+ geomExpr g srid +:+ ")::box2d AS e" +:+ nl
    +:+ "          FROM " +:+ full layer +:+ nl
    +:+ "          WHERE " +:+ g +:+ " IS NOT NULL" +:+ nl
    +:+ "        ) q;" +:+ nl +:+ "      ").

(** Returns [data?.rows?.[0] || null]. *)
Definition getLayerExtent4326 (layer : Layer) : Prog (option Row) :=
  srid <- getLayerSrid layer ;;
  data <- postJson QExtent (extentSQL layer srid) ;;
  Ret (firstRow data).

(** The test [ext && ext.west != null] made by the callers. *)
Definition extentKnown (ext : option Row) : bool :=
  match ext with
  | Some r => negb (Js.nullish (prop r "west"))
  | None => false
  end.

(** ** Viewport query engine *)

Definition buildViewportSQL (layer : Layer) (bbox : BBox) (srid : Js.num) (limit : nat) : string :=
  let g := geomCol layer in
  let ge := geomExpr g srid in
  trim (nl +:+ "        SELECT" +:+ nl
    +:+ "          *," +:+ nl
    +:+ "          ST_AsGeoJSON(" +:+ ge +:+ ") AS geojson" +:+ nl
    +:+ "        FROM " +:+ full layer +:+ nl
    +:+ "        WHERE " +:+ g +:+ " IS NOT NULL" +:+ nl
    +:+ "          AND ST_Intersects(" +:+ nl
    +:+ "            " +:+ ge +:+ "," +:+ nl
    +:+ "            ST_MakeEnvelope(" +:+ NumberToString (west bbox) +:+ ", "
    +:+ NumberToString (south bbox) +:+ ", " +:+ NumberToString (east bbox) +:+ ", "
    +:+ NumberToString (north bbox) +:+ ", 4326)" +:+ nl
    +:+ "          )" +:+ nl
    +:+ "        LIMIT " +:+ decimal limit +:+ ";" +:+ nl +:+ "      ").

Definition loadLayerInViewport (layer : Layer) (updateCounters : bool) : Prog (list Feature) :=
  s <- get ;;
  let bbox := viewport s in
  srid <- getLayerSrid layer ;;
  let sql := buildViewportSQL layer bbox srid 600 in
  modify (set_sqlEditor sql) ;;
  data <- postJson QViewport sql ;;
  let fc := rowsToFeatureCollection (rowsOf data) in
  modify (emit (MapSetFeatures (full layer) fc)) ;;
  modify (fun s => set_loaded ({[full layer]} ∪ loaded s) s) ;;
  modify (fun s =>
    emit (MapSetLayerVisible (full layer) (bool_decide (full layer ∈ visible s))) s) ;;
  applyOrderToMap ;;
  (if updateCounters
   then modify (set_counters (full layer) (length fc) "viewport")
   else Ret tt) ;;
  Ret fc.

(** Returns [null] ([None]) when there is no active layer or it is hidden. *)
Definition runActiveViewportLoad : Prog (option (list Feature)) :=
  s <- get ;;
  match active s with
  | None => Ret None
  | Some a =>
      if bool_decide (full a ∈ visible s)
      then fc <- loadLayerInViewport a true ;; Ret (Some fc)
      else Ret None
  end.

(** [window.GCMap.fitBounds4326(bbox)] of map.js: nothing moves when a
    bound does not convert to a number. *)
Definition fitBounds4326 (ext : Row) : Prog unit :=
  modify (emit (MapFitBounds ext)) ;;
  let w := ToNumber (prop ext "west") in
  let so := ToNumber (prop ext "south") in
  let e := ToNumber (prop ext "east") in
  let n := ToNumber (prop ext "north") in
  let isNaN x := match x with Js.NaN => true | _ => false end in
  if isNaN w || isNaN so || isNaN e || isNaN n then Ret tt
  else modify (fun s => set_viewport (leaflet_fitBounds (viewport s) (mkBBox w so e n)) s).

Definition alert (m : string) : Prog unit := modify (emit (Alert m)).

(** ** Handlers of a row of the layer list *)

(** [cb.checked] of the checkbox [e]; an element that left the page reads
    as unchecked. *)
Definition cbChecked (e : nat) (s : State) : bool :=
  match List.find (fun r => Nat.eqb (el r) e) (rowEls s) with
  | Some r => cb_checked r
  | None => false
  end.

(** [cb.checked = b]; writing to an element that left the page shows nowhere. *)
Definition setChecked (e : nat) (b : bool) (s : State) : State :=
  set_rowEls
    (List.map (fun r =>
       if Nat.eqb (el r) e
       then mkRowEl (el r) (r_layer r) (r_isActive r) (r_emptyGeom r) b (cb_disabled r)
       else r) (rowEls s))
    (nextEl s) s.

(** The [change] listener of the checkbox of row [r]. *)
Definition cbChange (r : RowEl) : Prog unit :=
  let layer := r_layer r in
  let layerId := full layer in
  s <- get ;;
  if cbChecked (el r) s then
    modify (fun s => set_visible ({[layerId]} ∪ visible s) s) ;;
    s <- get ;;
    if negb (bool_decide (layerId ∈ loaded s)) then
      try_catch
        (loadLayerInViewport layer (r_isActive r) ;; Ret tt)
        (fun m =>
           modify (fun s => set_visible (visible s ∖ {[layerId]}) s) ;;
           modify (setChecked (el r) false) ;;
           alert (messageOf m))
    else
      modify (emit (MapSetLayerVisible layerId true)) ;;
      applyOrderToMap
  else
    modify (fun s => set_visible (visible s ∖ {[layerId]}) s) ;;
    modify (emit (MapSetLayerVisible layerId false)).

(** The extent fallback that follows an empty viewport load: fetch the
    extent, fit it, load once more with [reload]. *)
Definition fitAndRetry {A : Type} (layer : Layer) (reload : Prog A) : Prog unit :=
  ext <- getLayerExtent4326 layer ;;
  match ext with
  | Some r =>
      if extentKnown ext then fitBounds4326 r ;; reload ;; Ret tt else Ret tt
  | None => Ret tt
  end.

(** The [click] listener of row [r]. *)
Definition rowClick (r : RowEl) : Prog unit :=
  let layer := r_layer r in
  let layerId := full layer in
  modify (set_active (Some layer)) ;;
  s <- get ;;
  renderLayerList (layerSearch s) ;;
  if r_emptyGeom r then
    modify (set_counters layerId 0 "viewport")
  else
    modify (fun s => set_visible ({[layerId]} ∪ visible s) s) ;;
    try_catch
      (s <- get ;;
       if negb (bool_decide (layerId ∈ loaded s)) then
         loadLayerInViewport layer true ;;
         s <- get ;;
         if Nat.eqb (featureCount s) 0
         then fitAndRetry layer (loadLayerInViewport layer true)
         else Ret tt
       else
         modify (emit (MapSetLayerVisible layerId true)) ;;
         fc <- runActiveViewportLoad ;;
         match fc with
         | Some (_ :: _) => Ret tt
         | _ => fitAndRetry layer runActiveViewportLoad
         end)
      (fun m => alert (messageOf m)).

(** ** Handlers bound by [bindUI] *)

Definition btnReload : Prog unit :=
  try_catch (runActiveViewportLoad ;; Ret tt) (fun m => alert (messageOf m)).

Definition btnClear : Prog unit :=
  modify (emit MapClear) ;;
  modify (set_loaded ∅) ;;
  modify (set_visible ∅) ;;
  modify (set_sridCache ∅) ;;
  modify (set_counters "—" 0 "viewport") ;;
  s <- get ;;
  renderLayerList (layerSearch s).

Definition advId : string := "advanced-sql".

Definition btnRunSql : Prog unit :=
  s <- get ;;
  let sql := trim (sqlEditor s) in
  if String.eqb sql "" then Ret tt
  else
    try_catch
      (data <- postJson QAdHoc sql ;;
       let fc := rowsToFeatureCollection (rowsOf data) in
       match fc with
       | [] =>
           alert "SQL ran, but no geojson column was returned. This mode expects geojson to draw."
       | _ :: _ =>
           modify (fun s => set_visible ({[advId]} ∪ visible s) s) ;;
           modify (fun s => set_loaded ({[advId]} ∪ loaded s) s) ;;
           modify (fun s =>
             if bool_decide (advId ∈ order s) then s
             else set_order (order s ++ [advId]) s) ;;
           modify (emit (MapSetFeatures advId fc)) ;;
           modify (emit (MapSetLayerVisible advId true)) ;;
           applyOrderToMap ;;
           modify (set_counters advId (length fc) "advanced")
       end)
      (fun m => alert (messageOf m)).

(** The listener given to [GCMap.onMoveEnd], when the debounce lets it run. *)
Definition onMoveEnd : Prog unit :=
  try_catch (runActiveViewportLoad ;; Ret tt) (fun _ => Ret tt).

(** ** Start-up *)

(** [layers.find(hasData) || layers[0]] *)
Definition pickActive (ls : list Layer) : option Layer :=
  match List.find hasData ls with
  | Some l => Some l
  | None => List.head ls
  end.

(** The part of [init] that follows hydration, from
    [ensureOrderInitialized()] on; [ls] is the catalog as hydration left it
    (the counts are written into the objects of [layers] itself). *)
Definition initHydrated (ls : list Layer) : Prog unit :=
  modify (set_layers ls) ;;
  ensureOrderInitialized ;;
  modify (set_active (pickActive ls)) ;;
  match pickActive ls with
  | None => renderLayerList "" ;; modify (set_bound true)
  | Some a =>
      (if hasData a
       then modify (fun s => set_visible ({[full a]} ∪ visible s) s)
       else Ret tt) ;;
      renderLayerList "" ;;
      modify (set_bound true) ;;
      if hasData a then
        fc <- loadLayerInViewport a true ;;
        match fc with
        | _ :: _ => Ret tt
        | [] =>
            try_catch
              (fitAndRetry a (loadLayerInViewport a true))
              (fun _ => Ret tt)
        end
      else
        modify (set_counters (full a) 0 "viewport")
  end.

Definition init : Prog unit :=
  modify (emit MapInit) ;;
  ls <- loadLayerCatalog ;;
  modify (set_layers ls) ;;
  match ls with
  | [] => Ret tt
  | _ :: _ =>
      ls' <- try_catch (hydrateGeomCounts ls) (fun _ => Ret ls) ;;
      initHydrated ls'
  end.

(** ** The page as a transition system

    A suspended handler waits for the reply to its request; the user and the
    remote services decide what happens next. *)
Record Task : Type := mkTask {
  request : Request;
  resume : Reply -> Prog unit
}.

Record World : Type := mkWorld {
  state : State;
  pending : list Task
}.

(** Start a handler: it runs to its first suspension; a rejection nobody
    handles ends it. *)
Definition launch (p : Prog unit) (w : World) : World :=
  match exec p (state w) with
  | (s', Waiting q k) => mkWorld s' (pending w ++ [mkTask q k])
  | (s', _) => mkWorld s' (pending w)
  end.

Inductive Event : Type :=
| Answer (i : nat) (r : Reply)
| ClickCheckbox (i : nat)
| ClickRow (i : nat)
| ClickUp (i : nat)
| ClickDown (i : nat)
| InputSearch (text : string)
| InputSql (text : string)
| ClickReload
| ClickClear
| ClickRunSql
| ClickFillViewportSql
| MapMoved (v : BBox).

Definition with_state (f : State -> State) (w : World) : World :=
  mkWorld (f (state w)) (pending w).

Definition step (w : World) (ev : Event) : World :=
  let s := state w in
  match ev with
  | Answer i r =>
      match pending w !! i with
      | Some t => launch (resume t r) (mkWorld s (delete i (pending w)))
      | None => w
      end
  | ClickCheckbox i =>
      match rowEls s !! i with
      | Some r =>
          if cb_disabled r then w
          else launch (cbChange r)
                 (with_state (setChecked (el r) (negb (cb_checked r))) w)
      | None => w
      end
  | ClickRow i =>
      match rowEls s !! i with
      | Some r => launch (rowClick r) w
      | None => w
      end
  | ClickUp i =>
      match rowEls s !! i with
      | Some r => launch (moveLayer (full (r_layer r)) (-1)) w
      | None => w
      end
  | ClickDown i =>
      match rowEls s !! i with
      | Some r => launch (moveLayer (full (r_layer r)) 1) w
      | None => w
      end
  | InputSearch text =>
      let w' := with_state (set_layerSearch text) w in
      if bound s then launch (renderLayerList text) w' else w'
  | InputSql text => with_state (set_sqlEditor text) w
  | ClickReload => if bound s then launch btnReload w else w
  | ClickClear => if bound s then launch btnClear w else w
  | ClickRunSql => if bound s then launch btnRunSql w else w
  | ClickFillViewportSql => if bound s then launch btnReload w else w
  | MapMoved v =>
      let w' := with_state (set_viewport v) w in
      if bound s then launch onMoveEnd w' else w'
  end.

Definition initialState (v : BBox) : State :=
  mkState [] None ∅ ∅ [] ∅ [] 0 false "" "" "" 0 "" v [].

(** The page once [GCPostgisApp.init()] has been called. *)
Definition boot (v : BBox) : World := launch init (mkWorld (initialState v) []).

Definition steps (w : World) (evs : list Event) : World := fold_left step evs w.

End App.

(** * Specification *)

(** ** Invariants at suspension points

    [wp I p s Q E]: running [p] from [s], the invariant [I] holds whenever
    [p] suspends, provided it holds again when [p] is resumed, and [p] ends
    in a state satisfying [Q] (normal return) or [E] (exception).  Other
    handlers may run while [p] is suspended; all that is known of them is
    that they keep [I]. *)
Fixpoint wp {A : Type} (I : State -> Prop) (p : Prog A) (s : State)
    (Q : A -> State -> Prop) (E : string -> State -> Prop) : Prop :=
  match p with
  | Ret a => Q a s
  | Throw m => E m s
  | Get k => wp I (k s) s Q E
  | Put s' k => wp I k s' Q E
  | Await q k => I s /\ forall r s', I s' -> wp I (k r) s' Q E
  end.

Definition keeps {A : Type} (I : State -> Prop) (p : Prog A) (s : State) : Prop :=
  wp I p s (fun _ s' => I s') (fun _ s' => I s').

Definition task_keeps (I : State -> Prop) (t : Task) : Prop :=
  forall r s, I s -> keeps I (resume t r) s.

Definition world_ok (I : State -> Prop) (w : World) : Prop :=
  I (state w) /\ Forall (task_keeps I) (pending w).

(** ** The visible set and the counts *)

(** The visible set holds no layer known to be empty: every cataloged layer
    in it has a count that is null or greater than zero. *)
Definition visibleHasData (s : State) : Prop :=
  forall l, l ∈ layers s -> full l ∈ visible s -> hasData l = true.

(** Every visible identifier is the name of a cataloged layer. *)
Definition visibleCataloged (s : State) : Prop :=
  forall id, id ∈ visible s -> exists l, l ∈ layers s /\ full l = id.

(** What the closures of a rendered row captured agrees with the catalog. *)
Definition rowsFaithful (L : list Layer) (s : State) : Prop :=
  forall r, r ∈ rowEls s ->
    r_layer r ∈ L /\ r_emptyGeom r = emptyGeom (r_layer r) /\
    cb_disabled r = r_emptyGeom r.

(** The invariant of the page once the catalog [L] is hydrated.  With
    [strict] it also keeps synthetic identifiers out of the visible set,
    which holds as long as no ad-hoc query is run. *)
Definition Inv (strict : bool) (L : list Layer) (s : State) : Prop :=
  layers s = L /\ visibleHasData s /\ rowsFaithful L s /\
  (strict = true -> visibleCataloged s).

(** What hydration guarantees of a catalog: layers of one name have one
    count, a count is null or finite, and no layer is named like the
    synthetic layer. *)
Record GoodCat (L : list Layer) : Prop := {
  gc_same : forall l1 l2, l1 ∈ L -> l2 ∈ L -> full l1 = full l2 -> geomCount l1 = geomCount l2;
  gc_finite : forall l, l ∈ L -> hasData l = negb (emptyGeom l);
  gc_adv : forall l, l ∈ L -> full l <> advId
}.

(** The identifiers that may enter the visible set. *)
Definition addableTo (strict : bool) (L : list Layer) (id : string) : Prop :=
  (forall l, l ∈ L -> full l = id -> hasData l = true) /\
  (strict = true -> exists l, l ∈ L /\ full l = id).

(** Before [init] has rendered the list: no row, nothing bound, nothing visible. *)
Definition Pre (s : State) : Prop :=
  rowEls s = [] /\ bound s = false /\ visible s = ∅.

Fixpoint hasChar (c : ascii) (s : string) : bool :=
  match s with
  | String a s' => Ascii.eqb a c || hasChar c s'
  | EmptyString => false
  end.

(** ** The extent fallback in the log *)

Inductive CycleEvent : Type := CViewport | CExtent | CFit.

Definition cycleEvent (e : Effect) : option CycleEvent :=
  match e with
  | Fetch (PostQuery QViewport _) => Some CViewport
  | Fetch (PostQuery QExtent _) => Some CExtent
  | MapFitBounds _ => Some CFit
  | _ => None
  end.

(** The viewport queries, extent queries and fits of a log, latest first. *)
Fixpoint cycleLog (t : list Effect) : list CycleEvent :=
  match t with
  | [] => []
  | e :: t' =>
      match cycleEvent e with
      | Some c => c :: cycleLog t'
      | None => cycleLog t'
      end
  end.

(** [c] is what the run from [s] to [s'] added to the log, latest first. *)
Definition added (s s' : State) (c : list CycleEvent) : Prop :=
  cycleLog (trace s') = c ++ cycleLog (trace s).


(** The registry parts a load never writes. *)
Definition sameRegistry (s s' : State) : Prop :=
  layers s' = layers s /\ active s' = active s /\ visible s' = visible s /\
  order s' = order s /\ rowEls s' = rowEls s.

(** A finished run used at most [n] of the replies it was given; a run that
    is still suspended used them all, and they were fewer than [n]. *)
Definition consumed {A : Type} (n : nat) (replies : list Reply)
    (res : State * Outcome A * list Reply) : Prop :=
  match outcome res with
  | Waiting _ _ => res.2 = [] /\ length replies < n
  | _ => length res.2 <= length replies <= length res.2 + n
  end.


(** ** Smaller notions *)


(** The requests a log holds, latest first. *)
Fixpoint requestsOf (t : list Effect) : list Request :=
  match t with
  | [] => []
  | Fetch q :: t' => q :: requestsOf t'
  | _ :: t' => requestsOf t'
  end.

(** The requests made on behalf of a layer load. *)
Definition isLoadRequest (q : Request) : bool :=
  match q with
  | PostQuery QSrid _ | PostQuery QViewport _ | PostQuery QExtent _ => true
  | _ => false
  end.




(** A string that [trimEnd] does not erase. *)
Definition solid (t : string) : Prop := trimEnd t <> "".

(** An operation on the stacking order: a click on Up or Down, or an ad-hoc
    query run to its end with the given reply. *)
Inductive OrderOp : Type :=
| OpMove (layerId : string) (dir : Z)
| OpRunSql (r : Reply).

Section Spec.
Context {host : Host}.

(** The state [renderLayerList] leaves. *)
Definition rendered (filterText : string) (s : State) : State :=
  (exec (renderLayerList filterText) s).1.

(** The catalog after a counts reply whose first row is [row]. *)
Definition hydrated (row : Row) (ls : list Layer) : list Layer :=
  List.map (fun l => setGeomCount (hydratedCount (prop row (full l))) l) ls.

(** The value the counts reply holds for a layer: the column named after the
    layer in the first row, [undefined] when the row or the column is missing. *)
Definition countCell (b : Body) (l : Layer) : Js.val :=
  prop (match firstRow b with Some r => r | None => ∅ end) (full l).

Definition countsSQL (ls : list Layer) : string :=
  "SELECT " +:+ join ", " (List.map countPart ls) +:+ ";".

(** The text of the viewport query, [ge] being the geometry expression. *)
Definition viewportText (layer : Layer) (bbox : BBox) (ge : string) : string :=
  "SELECT" +:+ nl
  +:+ "          *," +:+ nl
  +:+ "          ST_AsGeoJSON(" +:+ ge +:+ ") AS geojson" +:+ nl
  +:+ "        FROM " +:+ full layer +:+ nl
  +:+ "        WHERE " +:+ geomCol layer +:+ " IS NOT NULL" +:+ nl
  +:+ "          AND ST_Intersects(" +:+ nl
  +:+ "            " +:+ ge +:+ "," +:+ nl
  +:+ "            ST_MakeEnvelope(" +:+ NumberToString (west bbox) +:+ ", "
  +:+ NumberToString (south bbox) +:+ ", " +:+ NumberToString (east bbox) +:+ ", "
  +:+ NumberToString (north bbox) +:+ ", 4326)" +:+ nl
  +:+ "          )" +:+ nl
  +:+ "        LIMIT 600;".

Definition applyOp (s : State) (op : OrderOp) : State :=
  match op with
  | OpMove layerId dir => finalState (run [] (moveLayer layerId dir) s)
  | OpRunSql r => finalState (run [r] btnRunSql s)
  end.

(** *** The phases of start-up

    Until the counts are in, the page is in a [Pre] state and at most the
    task of [init] is suspended.  Afterwards there is a catalog [L] whose
    invariant every state and every suspended task keeps. *)
Definition Good (strict : bool) (w : World) : Prop :=
  exists L, GoodCat L /\ world_ok (Inv strict L) w.

Definition Idle (w : World) : Prop := Pre (state w) /\ pending w = [].

Definition Stage (next : World -> Prop) (w : World) : Prop :=
  Pre (state w) /\
  exists t, pending w = [t] /\
    forall r s, Pre s -> next (launch (resume t r) (mkWorld s [])).

Definition Stage2 (strict : bool) (w : World) : Prop :=
  Stage (fun w' => Idle w' \/ Good strict w') w.

Definition Stage1 (strict : bool) (w : World) : Prop :=
  Stage (fun w' => Idle w' \/ Stage2 strict w' \/ Good strict w') w.

Definition Sound (strict : bool) (w : World) : Prop :=
  Idle w \/ Stage1 strict w \/ Stage2 strict w \/ Good strict w.

End Spec.

(** * Further code of postgis.js and the rendering surface of map.js *)

(** ** [escapeHtml] *)

(** [s.replaceAll(c, rep)] for a pattern of one character [c] and a
    replacement text without [$]. *)
Fixpoint replaceAll (c : ascii) (rep : string) (s : string) : string :=
  match s with
  | String a s' =>
      if Ascii.eqb a c then rep +:+ replaceAll c rep s'
      else String a (replaceAll c rep s')
  | EmptyString => EmptyString
  end.

(** [escapeHtml(s)] on a string [s], for which [String(s)] is [s]. *)
Definition escapeHtml (s : string) : string :=
  replaceAll "'" "&#039;"
    (replaceAll "034" "&quot;"
       (replaceAll ">" "&gt;"
          (replaceAll "<" "&lt;"
             (replaceAll "&" "&amp;" s)))).

(** The entity that stands for a character in escaped text. *)
Definition entity (a : ascii) : string :=
  if Ascii.eqb a "&" then "&amp;"
  else if Ascii.eqb a "<" then "&lt;"
  else if Ascii.eqb a ">" then "&gt;"
  else if Ascii.eqb a "034" then "&quot;"
  else if Ascii.eqb a "'" then "&#039;"
  else String a "".

Fixpoint escaped (s : string) : string :=
  match s with
  | String a s' => entity a +:+ escaped s'
  | EmptyString => EmptyString
  end.

(** The characters that open or close a tag or an attribute value. *)
Definition markup (c : ascii) : bool :=
  Ascii.eqb c "<" || Ascii.eqb c ">" || Ascii.eqb c "034" || Ascii.eqb c "'".

(** ** The rendering surface: [GCMapCore] and [window.GCMap] of map.js *)

(** [/[^a-zA-Z0-9_-]/] does not match the character. *)
Definition paneChar (a : ascii) : bool :=
  let n := nat_of_ascii a in
  (Nat.leb 97 n && Nat.leb n 122) || (Nat.leb 65 n && Nat.leb n 90)
  || (Nat.leb 48 n && Nat.leb n 57) || Ascii.eqb a "_" || Ascii.eqb a "-".

Fixpoint dashed (s : string) : string :=
  match s with
  | String a s' => String (if paneChar a then a else "-"%char) (dashed s')
  | EmptyString => EmptyString
  end.

(** [safePaneId(layerId)] on a string. *)
Definition safePaneId (layerId : string) : string := "gc-" +:+ dashed layerId.

(** An entry of [this._layers].  [features] is what the GeoJSON layer of the
    entry holds. *)
Record Entry : Type := mkEntry {
  e_paneId : string;
  e_features : list Feature;
  e_visible : bool;
  e_layerName : string
}.

(** The layers of a [GCMapCore]: the registry [_layers], the entries whose
    GeoJSON layer is on the Leaflet map, the panes created on it and the
    z-index written on panes.  Calls into Leaflet are taken to succeed (most
    are wrapped in [try] blocks with empty handlers).  The base map and the
    order in which Leaflet draws the layers of one pane ([bringToFront]) are
    not part of the model. *)
Record Surface : Type := mkSurface {
  m_layers : gmap string Entry;
  m_shown : gset string;
  m_panes : gset string;
  m_zIndex : gmap string nat
}.

Definition emptySurface : Surface := mkSurface ∅ ∅ ∅ ∅.

(** [String(layerId || "default")]; a missing identifier is the empty string. *)
Definition layerKey (layerId : string) : string :=
  if String.eqb layerId "" then "default" else layerId.

(** [_ensureLayer(layerId, layerName)]: the entry and the surface holding it. *)
Definition ensureLayer (layerId layerName : string) (m : Surface) : Entry * Surface :=
  let id := layerKey layerId in
  match m_layers m !! id with
  | Some e => (e, m)
  | None =>
      let p := safePaneId id in
      let e := mkEntry p [] true (if String.eqb layerName "" then id else layerName) in
      (e, mkSurface (<[id := e]> (m_layers m)) ({[id]} ∪ m_shown m)
            ({[p]} ∪ m_panes m) (m_zIndex m))
  end.

(** [String(opts.layerId || opts.layerName || "default")]; a missing option
    is the empty string. *)
Definition featuresKey (layerId layerName : string) : string :=
  if negb (String.eqb layerId "") then layerId
  else if negb (String.eqb layerName "") then layerName
  else "default".

(** [setFeatures(featureCollection, {layerId, layerName})]; a missing
    collection is [None]. *)
Definition setFeatures (fc : option (list Feature)) (layerId layerName : string)
    (m : Surface) : Surface :=
  let id := featuresKey layerId layerName in
  let nm := if String.eqb layerName "" then id else layerName in
  let (e, m1) := ensureLayer id nm m in
  let k := layerKey id in
  let e' := mkEntry (e_paneId e) (match fc with Some fs => fs | None => [] end)
              (e_visible e) (e_layerName e) in
  mkSurface (<[k := e']> (m_layers m1))
    (if e_visible e then {[k]} ∪ m_shown m1 else m_shown m1 ∖ {[k]})
    (m_panes m1) (m_zIndex m1).

(** [setLayerVisible(layerId, visible)] *)
Definition setLayerVisible (layerId : string) (on : bool) (m : Surface) : Surface :=
  let id := layerKey layerId in
  match m_layers m !! id with
  | None => m
  | Some e =>
      mkSurface (<[id := mkEntry (e_paneId e) (e_features e) on (e_layerName e)]> (m_layers m))
        (if on then {[id]} ∪ m_shown m else m_shown m ∖ {[id]})
        (m_panes m) (m_zIndex m)
  end.

(** The body of the [forEach] of [applyOrder] for the identifier at index [i]. *)
Definition orderOne (i : nat) (id : string) (m : Surface) : Surface :=
  match m_layers m !! id with
  | None => m
  | Some e =>
      if bool_decide (e_paneId e ∈ m_panes m)
      then mkSurface (m_layers m) (m_shown m) (m_panes m)
             (<[e_paneId e := 400 + i]> (m_zIndex m))
      else m
  end.

Fixpoint orderFrom (i : nat) (ids : list string) (m : Surface) : Surface :=
  match ids with
  | [] => m
  | id :: rest => orderFrom (S i) rest (orderOne i id m)
  end.

(** [applyOrder(orderIds)] on an array of strings, bottom to top. *)
Definition applyOrder (orderIds : list string) (m : Surface) : Surface :=
  orderFrom 0 orderIds m.

(** [clear(layerId)]; no argument is the empty string. *)
Definition clear (layerId : string) (m : Surface) : Surface :=
  if String.eqb layerId "" then
    mkSurface ∅ (m_shown m ∖ dom (m_layers m)) (m_panes m) (m_zIndex m)
  else
    match m_layers m !! layerId with
    | None => m
    | Some _ =>
        mkSurface (delete layerId (m_layers m)) (m_shown m ∖ {[layerId]})
          (m_panes m) (m_zIndex m)
    end.

(** [window.GCMap]: the functions that draw create the map when there is
    none ([window.gcMap] is [None]); the others do nothing then.  The page
    is taken to hold the map container, without which [init] throws. *)
Definition gcInit (g : option Surface) : option Surface :=
  match g with Some m => Some m | None => Some emptySurface end.

Definition gcCall (lazy : bool) (f : Surface -> Surface) (g : option Surface)
    : option Surface :=
  match g with
  | Some m => Some (f m)
  | None => if lazy then Some (f emptySurface) else None
  end.

(** What a call recorded in the log does to the surface. *)
Definition perform (e : Effect) (g : option Surface) : option Surface :=
  match e with
  | MapInit => gcInit g
  | MapSetFeatures id fc => gcCall true (setFeatures (Some fc) id id) g
  | MapSetLayerVisible id on => gcCall false (setLayerVisible id on) g
  | MapApplyOrder ids => gcCall false (applyOrder ids) g
  | MapFitBounds _ => gcInit g
  | MapClear => gcCall false (clear "") g
  | Alert _ | Fetch _ => g
  end.

(** The surface after the calls of a log (latest first). *)
Definition surfaceOf (t : list Effect) : option Surface := fold_right perform None t.

(** The identifiers the surface holds a layer for. *)
Definition surfaceKeys (t : list Effect) : gset string :=
  match surfaceOf t with Some m => dom (m_layers m) | None => ∅ end.

(** Every registered layer has its pane, is on the map exactly when its
    entry says visible, and nothing else is on the map. *)
Definition surfaceOk (m : Surface) : Prop :=
  (forall id e, m_layers m !! id = Some e -> e_paneId e ∈ m_panes m) /\
  (forall id, id ∈ m_shown m <->
     exists e, m_layers m !! id = Some e /\ e_visible e = true).

(** A call of the interface of [GCMapCore]. *)
Inductive Call : Type :=
| CSetFeatures (fc : option (list Feature)) (layerId layerName : string)
| CSetLayerVisible (layerId : string) (on : bool)
| CApplyOrder (ids : list string)
| CClear (layerId : string).

Definition call (m : Surface) (c : Call) : Surface :=
  match c with
  | CSetFeatures fc id nm => setFeatures fc id nm m
  | CSetLayerVisible id on => setLayerVisible id on m
  | CApplyOrder ids => applyOrder ids m
  | CClear id => clear id m
  end.

Section Surface.
Context {host : Host}.


End Surface.

(** ** Notions used to state further properties *)

(** The alerts of a log, latest first. *)
Fixpoint alertsOf (t : list Effect) : list string :=
  match t with
  | [] => []
  | Alert m :: t' => m :: alertsOf t'
  | _ :: t' => alertsOf t'
  end.

(** A reference that [getLayerSrid] may return: finite and positive. *)
Definition usableSrid (v : Js.num) : Prop :=
  Js.isFinite v = true /\ Js.gt v (Js.of_Z 0) = true.

(** The registry is the same in both states. *)
Definition untouched (s s' : State) : Prop :=
  layers s' = layers s /\ active s' = active s /\ visible s' = visible s /\
  loaded s' = loaded s /\ order s' = order s /\ sridCache s' = sridCache s.

(** The counters of the page are the same in both states. *)
Definition sameCounters (s s' : State) : Prop :=
  featureCount s' = featureCount s /\ activeLayerLabel s' = activeLayerLabel s /\
  srcBadge s' = srcBadge s.

(** A page whose start-up ended without layers: nothing is rendered, no
    handler is bound, no task is waiting, and the registry is empty. *)
Definition Inert (t : list Effect) (w : World) : Prop :=
  pending w = [] /\ bound (state w) = false /\ rowEls (state w) = [] /\
  layers (state w) = [] /\ active (state w) = None /\ visible (state w) = ∅ /\
  loaded (state w) = ∅ /\ order (state w) = [] /\ sridCache (state w) = ∅ /\
  trace (state w) = t.

(** A property of the loaded set, the cache and the log, as a property of
    the state. *)
Definition tracked (P : gset string -> gmap string Js.num -> list Effect -> Prop)
    (s : State) : Prop :=
  P (loaded s) (sridCache s) (trace s).

(** The layers of the surface are the loaded layers, under their keys. *)
Definition keysAreLoaded (l : gset string) (c : gmap string Js.num) (t : list Effect)
    : Prop :=
  forall k, k ∈ surfaceKeys t <-> exists id, id ∈ l /\ layerKey id = k.

(** Every cached reference is finite and positive. *)
Definition cacheUsable (l : gset string) (c : gmap string Js.num) (t : list Effect)
    : Prop :=
  forall k v, c !! k = Some v -> usableSrid v.

(** ** The registry of a page that is set up *)

(** The stacking order lists the catalog, and after it the synthetic layer
    once an ad-hoc query has drawn. *)
Definition ordersCatalog (L : list Layer) (o : list string) : Prop :=
  o ≡ₚ List.map full L \/ o ≡ₚ List.map full L ++ [advId].

(** The registry once the handlers are bound, for the catalog [L] as
    hydration left it. *)
Definition Settled (L : list Layer) (s : State) : Prop :=
  layers s = L /\ bound s = true /\ ordersCatalog L (order s) /\
  (forall id, id ∈ visible s -> id ∈ order s) /\
  (forall id, id ∈ loaded s -> id ∈ order s) /\
  (exists a, active s = Some a /\ a ∈ L) /\
  (forall r, r ∈ rowEls s -> r_layer r ∈ L).

(** What the catalog service guarantees of the names by construction
    (schema, dot, name): none is empty, none is that of the synthetic layer. *)
Definition Named (L : list Layer) : Prop :=
  forall l, l ∈ L -> full l <> "" /\ full l <> advId.

(** The registry before [init] reaches [ensureOrderInitialized]. *)
Definition Fresh (s : State) : Prop :=
  rowEls s = [] /\ bound s = false /\ visible s = ∅ /\ loaded s = ∅ /\
  order s = [] /\ active s = None.

Section Phases.
Context {host : Host}.

(** The phases of the page: [init] waits for the catalog, then for the
    counts; start-up may end there (no layer), and otherwise the page is set
    up with the catalog [L], which every state and every suspended task
    keeps from then on. *)
Definition Ready (w : World) : Prop :=
  exists L, L <> [] /\ Named L /\ world_ok (Settled L) w.

Definition Quiet (w : World) : Prop := Fresh (state w) /\ pending w = [].

Definition Starting (next : World -> Prop) (w : World) : Prop :=
  Fresh (state w) /\
  exists t, pending w = [t] /\
    forall r s, Fresh s -> next (launch (resume t r) (mkWorld s [])).

Definition Counting (w : World) : Prop :=
  Starting (fun w' => Quiet w' \/ Ready w') w.

Definition Cataloging (w : World) : Prop :=
  Starting (fun w' => Quiet w' \/ Counting w' \/ Ready w') w.

Definition Phase (w : World) : Prop :=
  Quiet w \/ Cataloging w \/ Counting w \/ Ready w.

End Phases.

(** ** [debounce] *)

(** A timer set with [setTimeout]: its handle, the time it is due and the
    arguments its callback passes on. *)
Record Timer (A : Type) : Type := mkTimer {
  tm_handle : nat;
  tm_due : nat;
  tm_args : A
}.
Arguments mkTimer {A} _ _ _.
Arguments tm_handle {A} _.
Arguments tm_due {A} _.
Arguments tm_args {A} _.

(** The function that [debounce(fn, ms)] returns, in the page that runs it:
    the variable [t] of its closure, the timers that are set, the next handle
    that [setTimeout] gives out (a handle is not used twice), the clock, and
    the arguments [fn] was called with so far, latest first. *)
Record Debounced (A : Type) : Type := mkDebounced {
  d_t : option nat;
  d_timers : list (Timer A);
  d_next : nat;
  d_now : nat;
  d_ran : list A
}.
Arguments mkDebounced {A} _ _ _ _ _.
Arguments d_t {A} _.
Arguments d_timers {A} _.
Arguments d_next {A} _.
Arguments d_now {A} _.
Arguments d_ran {A} _.

(** [clearTimeout(t)]: nothing happens for [null] or for a handle that is
    not set. *)
Definition clearTimeout {A : Type} (h : option nat) (ts : list (Timer A)) : list (Timer A) :=
  match h with
  | Some h => List.filter (fun x => negb (Nat.eqb (tm_handle x) h)) ts
  | None => ts
  end.

(** A call of the returned function:
    [clearTimeout(t); t = setTimeout(() => fn(...args), ms)]. *)
Definition debounced {A : Type} (ms : nat) (a : A) (d : Debounced A) : Debounced A :=
  mkDebounced (Some (d_next d))
    (clearTimeout (d_t d) (d_timers d) ++ [mkTimer (d_next d) (d_now d + ms) a])
    (S (d_next d)) (d_now d) (d_ran d).

(** A turn of the event loop: the callbacks of the timers that are due run,
    oldest first, and each calls [fn] with its arguments. *)
Definition runTimers {A : Type} (d : Debounced A) : Debounced A :=
  let isDue (x : Timer A) := Nat.leb (tm_due x) (d_now d) in
  mkDebounced (d_t d) (List.filter (fun x => negb (isDue x)) (d_timers d))
    (d_next d) (d_now d)
    (rev (List.map tm_args (List.filter isDue (d_timers d))) ++ d_ran d).

(** What happens to the page: the debounced function is called, time
    passes, the event loop takes a turn.  A timer that is due runs at a later
    turn, not by itself. *)
Inductive Tick (A : Type) : Type :=
| Called (a : A)
| Elapsed (dt : nat)
| Turn.
Arguments Called {A} _.
Arguments Elapsed {A} _.
Arguments Turn {A}.

Definition tick {A : Type} (ms : nat) (d : Debounced A) (e : Tick A) : Debounced A :=
  match e with
  | Called a => debounced ms a d
  | Elapsed dt => mkDebounced (d_t d) (d_timers d) (d_next d) (d_now d + dt) (d_ran d)
  | Turn => runTimers d
  end.

(** The closure as [debounce] returns it: [t] is [null], no timer is set. *)
Definition fresh_debounce {A : Type} : Debounced A := mkDebounced None [] 1 0 [].

(** A call that has waited [waited] runs [fn] in what follows: the event
    loop takes a turn when [ms] have passed, before the function is called
    again. *)
Fixpoint fires {A : Type} (ms waited : nat) (evs : list (Tick A)) : bool :=
  match evs with
  | Elapsed dt :: rest => fires ms (waited + dt) rest
  | Turn :: rest => Nat.leb ms waited || fires ms waited rest
  | Called _ :: _ => false
  | [] => false
  end.

(** The arguments of the calls that run [fn], in the order of the calls. *)
Fixpoint survivors {A : Type} (ms : nat) (evs : list (Tick A)) : list A :=
  match evs with
  | Called a :: rest =>
      if fires ms 0 rest then a :: survivors ms rest else survivors ms rest
  | _ :: rest => survivors ms rest
  | [] => []
  end.

(** The calls of a list of events. *)
Fixpoint calledWith {A : Type} (evs : list (Tick A)) : list A :=
  match evs with
  | Called a :: rest => a :: calledWith rest
  | _ :: rest => calledWith rest
  | [] => []
  end.

(** At most one timer is set, the one [t] holds, and it was set no more
    than [ms] ahead. *)
Definition oneTimer {A : Type} (ms : nat) (d : Debounced A) : Prop :=
  d_timers d = [] \/
  exists x, d_timers d = [x] /\ d_t d = Some (tm_handle x) /\ tm_due x <= d_now d + ms.

(** What [fn] is called with in the events that follow a state. *)
Definition comes {A : Type} (ms : nat) (d : Debounced A) (evs : list (Tick A)) : list A :=
  match d_timers d with
  | x :: _ =>
      (if fires ms (d_now d + ms - tm_due x) evs then [tm_args x] else [])
        ++ survivors ms evs
  | [] => survivors ms evs
  end.

(** A burst: each call is followed by the time in its pair, with a turn of
    the event loop after it. *)
Definition burst {A : Type} (calls : list (A * nat)) : list (Tick A) :=
  flat_map (fun p => [Called p.1; Elapsed p.2; Turn]) calls.

(** ** Quoted aliases *)

(** Every double quote of the text has a double quote as its neighbour: the
    quotes come in pairs. *)
Fixpoint quotesPaired (s : string) : bool :=
  match s with
  | EmptyString => true
  | String a r =>
      if Ascii.eqb a "034"%char then
        match r with
        | String b r' => Ascii.eqb b "034"%char && quotesPaired r'
        | EmptyString => false
        end
      else quotesPaired r
  end.

(** ** Sample data *)

Module Example.

Fixpoint digitsValue (acc : nat) (s : string) : option nat :=
  match s with
  | EmptyString => Some acc
  | String a s' =>
      match Ascii.is_nat a with
      | Some d => digitsValue (10 * acc + d) s'
      | None => None
      end
  end.

Definition lowerAscii (a : ascii) : ascii :=
  let n := nat_of_ascii a in
  if (Nat.leb 65 n && Nat.leb n 90)%bool then ascii_of_nat (n + 32) else a.

Fixpoint lowerString (s : string) : string :=
  match s with
  | EmptyString => EmptyString
  | String a s' => String (lowerAscii a) (lowerString s')
  end.

(** A host for the examples: it converts decimal integers, lowers ASCII
    letters, keeps JSON text unparsed and fits the map exactly. *)
Definition host : Host := {|
  StringToNumber s :=
    match s with
    | EmptyString => Js.of_Z 0
    | _ => match digitsValue 0 s with Some n => Js.of_nat n | None => Js.NaN end
    end;
  ObjectToNumber _ := Js.NaN;
  NumberToString x :=
    match x with
    | Js.Fin q => (if (Qnum q <? 0)%Z then "-" else "") +:+ decimal (Z.abs_nat (Qnum q))
    | Js.NaN => "NaN"
    | Js.Inf b => if b then "-Infinity" else "Infinity"
    end;
  toLowerCase := lowerString;
  JSON_parse s := Some (Js.Object s);
  leaflet_fitBounds _ b := b
|}.

Definition v0 : BBox := mkBBox (Js.of_Z (-86)) (Js.of_Z 32) (Js.of_Z (-85)) (Js.of_Z 33).

Definition fields : Table := mkTable None "fields" true (Some ["boundary"]) None.
Definition roads : Table := mkTable None "roads" true None (Some "geom").

Definition catalog : Body :=
  mkBody (Some ["public"]) (Some [("public", [fields; roads])]) None.

Definition countsRow (a b : Z) : Row :=
  <["public.fields" := Js.Number (Js.of_Z a)]>
    (<["public.roads" := Js.Number (Js.of_Z b)]> ∅).

Definition counts (a b : Z) : Body := mkBody None None (Some [Some (countsRow a b)]).

Definition sridRow : Body :=
  mkBody None None (Some [Some (<["srid" := Js.Number (Js.of_Z 4326)]> ∅)]).

Definition oneFeature : Body :=
  mkBody None None
    (Some [Some (<["geojson" := Js.Str "{}"]> (<["id" := Js.Number (Js.of_Z 1)]> ∅))]).

Definition fieldsLayer (n : option Js.num) : Layer :=
  mkLayer "public" "fields" "public.fields" "boundary" n.
Definition roadsLayer (n : option Js.num) : Layer :=
  mkLayer "public" "roads" "public.roads" "geom" n.

(** The page after start-up with both layers populated and the first one
    loaded. *)
Definition started : World :=
  @steps host (@boot host v0)
    [Answer 0 (Resolved catalog); Answer 0 (Resolved (counts 5 3));
     Answer 0 (Resolved sridRow); Answer 0 (Resolved oneFeature)].

(** The user then selects the second layer, and its load fails. *)
Definition selectedFailed : World :=
  @steps host started [ClickRow 1; Answer 0 (Rejected "boom")].

(** A state in which the reference of the first layer is cached. *)
Definition cachedState : State :=
  set_sridCache (<["public.fields" := srid4326]> ∅) (initialState v0).

Definition sridRow3857 : Body :=
  mkBody None None (Some [Some (<["srid" := Js.Number (Js.of_Z 3857)]> ∅)]).


(** The row of the second layer as start-up rendered it. *)
Definition roadsRow : RowEl :=
  mkRowEl 1 (roadsLayer (Some (Js.of_Z 3))) false false false false.

(** The state in which the change listener of that row runs once the user
    has ticked its checkbox. *)
Definition ticked : State := setChecked 1 true (state started).

(** The row of a layer that hydration found empty. *)
Definition emptyRow : RowEl :=
  mkRowEl 0 (fieldsLayer (Some (Js.of_Z 0))) false true false true.

(** A surface holding the two layers. *)
Definition twoLayers : Surface :=
  setFeatures (Some []) "public.roads" "public.roads"
    (setFeatures (Some []) "public.fields" "public.fields" emptySurface).

(** The events that lead to [started]. *)
Definition startedEvents : list Event :=
  [Answer 0 (Resolved catalog); Answer 0 (Resolved (counts 5 3));
   Answer 0 (Resolved sridRow); Answer 0 (Resolved oneFeature)].

End Example.

(** * Proofs *)

(** ** The monad *)

Lemma exec_bind {A B} (p : Prog A) (f : A -> Prog B) s :
  exec (bind p f) s =
  match exec p s with
  | (s', Done a) => exec (f a) s'
  | (s', Threw m) => (s', Threw m)
  | (s', Waiting q k) => (s', Waiting q (fun r => bind (k r) f))
  end.
Proof. revert s. induction p; intros; cbn; auto. Qed.

Lemma exec_try_catch {A} (p : Prog A) (h : string -> Prog A) s :
  exec (try_catch p h) s =
  match exec p s with
  | (s', Done a) => (s', Done a)
  | (s', Threw m) => exec (h m) s'
  | (s', Waiting q k) => (s', Waiting q (fun r => try_catch (k r) h))
  end.
Proof. revert s. induction p; intros; cbn; auto. Qed.

Lemma run_eq {A} replies (p : Prog A) s :
  run replies p s =
  match exec p s with
  | (s', Waiting q k) =>
      match replies with
      | r :: rest => run rest (k r) s'
      | [] => (s', Waiting q k, [])
      end
  | (s', o) => (s', o, replies)
  end.
Proof. destruct replies; reflexivity. Qed.

Lemma run_bind {A B} replies (p : Prog A) (f : A -> Prog B) s :
  run replies (bind p f) s =
  match run replies p s with
  | (s', Done a, rest) => run rest (f a) s'
  | (s', Threw m, rest) => (s', Threw m, rest)
  | (s', Waiting q k, rest) => (s', Waiting q (fun r => bind (k r) f), rest)
  end.
Proof.
  revert p s. induction replies as [|r rest IH]; intros p s.
  - rewrite (run_eq [] (bind p f)), (run_eq [] p), exec_bind.
    destruct (exec p s) as [s' [a|m|q k]]; auto.
  - rewrite (run_eq (r :: rest) (bind p f)), (run_eq (r :: rest) p), exec_bind.
    destruct (exec p s) as [s' [a|m|q k]]; auto.
Qed.

Lemma run_try_catch {A} replies (p : Prog A) (h : string -> Prog A) s :
  run replies (try_catch p h) s =
  match run replies p s with
  | (s', Done a, rest) => (s', Done a, rest)
  | (s', Threw m, rest) => run rest (h m) s'
  | (s', Waiting q k, rest) => (s', Waiting q (fun r => try_catch (k r) h), rest)
  end.
Proof.
  revert p s. induction replies as [|r rest IH]; intros p s.
  - rewrite (run_eq [] (try_catch p h)), (run_eq [] p), exec_try_catch.
    destruct (exec p s) as [s' [a|m|q k]]; auto.
  - rewrite (run_eq (r :: rest) (try_catch p h)), (run_eq (r :: rest) p), exec_try_catch.
    destruct (exec p s) as [s' [a|m|q k]]; auto.
Qed.

Lemma run_Ret {A} replies (a : A) s : run replies (Ret a) s = (s, Done a, replies).
Proof. destruct replies; reflexivity. Qed.

Lemma run_Throw {A} replies m s : run replies (@Throw A m) s = (s, Threw m, replies).
Proof. destruct replies; reflexivity. Qed.

Lemma run_Get {A} replies (k : State -> Prog A) s :
  run replies (Get k) s = run replies (k s) s.
Proof. destruct replies; reflexivity. Qed.

Lemma run_Put {A} replies s' (k : Prog A) s : run replies (Put s' k) s = run replies k s'.
Proof. destruct replies; reflexivity. Qed.

Lemma run_Await_cons {A} r rest q (k : Reply -> Prog A) s :
  run (r :: rest) (Await q k) s = run rest (k r) s.
Proof. reflexivity. Qed.

Lemma run_Await_nil {A} q (k : Reply -> Prog A) s :
  run [] (Await q k) s = (s, Waiting q k, []).
Proof. reflexivity. Qed.

Lemma run_modify replies f s : run replies (modify f) s = (f s, Done tt, replies).
Proof. destruct replies; reflexivity. Qed.

Section Wp.
Context (I : State -> Prop).

Lemma wp_mono {A} (p : Prog A) s (Q Q' : A -> State -> Prop) (E E' : string -> State -> Prop) :
  (forall a s', Q a s' -> Q' a s') -> (forall m s', E m s' -> E' m s') ->
  wp I p s Q E -> wp I p s Q' E'.
Proof.
  intros HQ HE. revert s. induction p as [a|m|k IH|s0 k IH|q k IH]; intros s; cbn; eauto.
  intros [Hs Hk]. split; [assumption|]. eauto.
Qed.

Lemma wp_bind {A B} (p : Prog A) (f : A -> Prog B) s Q E :
  wp I p s (fun a s' => wp I (f a) s' Q E) E -> wp I (bind p f) s Q E.
Proof.
  revert s. induction p as [a|m|k IH|s0 k IH|q k IH]; intros s; cbn; eauto.
  intros [Hs Hk]. split; [assumption|]. eauto.
Qed.

Lemma wp_try_catch {A} (p : Prog A) (h : string -> Prog A) s Q E :
  wp I p s Q (fun m s' => wp I (h m) s' Q E) -> wp I (try_catch p h) s Q E.
Proof.
  revert s. induction p as [a|m|k IH|s0 k IH|q k IH]; intros s; cbn; eauto.
  intros [Hs Hk]. split; [assumption|]. eauto.
Qed.

Lemma wp_exec {A} (p : Prog A) s Q E :
  wp I p s Q E ->
  match exec p s with
  | (s', Done a) => Q a s'
  | (s', Threw m) => E m s'
  | (s', Waiting q k) => I s' /\ forall r s'', I s'' -> wp I (k r) s'' Q E
  end.
Proof.
  revert s. induction p as [a|m|k IH|s0 k IH|q k IH]; intros s; cbn; auto.
  - apply IH.
  - apply IH.
Qed.

Lemma keeps_bind {A B} (p : Prog A) (f : A -> Prog B) s Q E :
  keeps I p s ->
  (forall a s', I s' -> wp I (f a) s' Q E) ->
  (forall m s', I s' -> E m s') ->
  wp I (bind p f) s Q E.
Proof.
  intros Hp Hf HE. apply wp_bind. revert Hp. apply wp_mono; auto.
Qed.

Lemma keeps_try_catch {A} (p : Prog A) (h : string -> Prog A) s Q E :
  keeps I p s ->
  (forall a s', I s' -> Q a s') ->
  (forall m s', I s' -> wp I (h m) s' Q E) ->
  wp I (try_catch p h) s Q E.
Proof.
  intros Hp HQ Hh. apply wp_try_catch. revert Hp. apply wp_mono; auto.
Qed.

Lemma launch_ok p w :
  world_ok I w -> keeps I p (state w) -> world_ok I (launch p w).
Proof.
  intros [Hs Hp] Hk. apply wp_exec in Hk. unfold launch.
  destruct (exec p (state w)) as [s' [a|m|q k]]; split; cbn; auto.
  - tauto.
  - apply Forall_app. split; [assumption|]. constructor; [|constructor].
    intros r s'' Hs''. apply Hk. assumption.
Qed.

End Wp.

(** ** Tactics for symbolic runs *)

Ltac wp_cbn :=
  cbn -[getLayerSrid getLayerExtent4326 loadLayerInViewport runActiveViewportLoad
        fitBounds4326 fitAndRetry renderLayerList moveLayer ensureOrderInitialized].

Ltac prog_cbn_in H :=
  cbn [bind try_catch get modify await postJson getJson alert applyOrderToMap
       renderLayerList] in H.

Tactic Notation "state_cbn" :=
  cbn [layers active visible loaded order sridCache rowEls nextEl bound layerSearch
       sqlEditor activeLayerLabel featureCount srcBadge viewport trace
       set_layers set_active set_visible set_loaded set_order set_sridCache set_rowEls
       set_bound set_layerSearch set_sqlEditor set_counters set_viewport emit
       cycleLog cycleEvent app fst snd finalState outcome length].
Tactic Notation "state_cbn" "in" hyp(H) :=
  cbn [layers active visible loaded order sridCache rowEls nextEl bound layerSearch
       sqlEditor activeLayerLabel featureCount srcBadge viewport trace
       set_layers set_active set_visible set_loaded set_order set_sridCache set_rowEls
       set_bound set_layerSearch set_sqlEditor set_counters set_viewport emit
       cycleLog cycleEvent app fst snd finalState outcome length] in H.

(** One step of a run kept in the equation [H : res = run replies p s]. *)
Ltac run1 H :=
  prog_cbn_in H;
  lazymatch type of H with
  | _ = run _ (Get _) _ => rewrite run_Get in H
  | _ = run _ (Put _ _) _ => rewrite run_Put in H
  | _ = run _ (Ret _) _ => rewrite run_Ret in H
  | _ = run _ (Throw _) _ => rewrite run_Throw in H
  | _ = run (_ :: _) (Await _ _) _ => rewrite run_Await_cons in H
  | _ = run [] (Await _ _) _ => rewrite run_Await_nil in H
  | _ = run _ (modify _) _ => rewrite run_modify in H
  | _ = run _ (alert _) _ => unfold alert in H
  | _ = run _ applyOrderToMap _ => unfold applyOrderToMap in H
  end.
Ltac run_in H := repeat (run1 H).

Ltac start_run res H :=
  lazymatch goal with
  | |- let _ := ?r in _ => intros res; assert (H : res = r) by reflexivity; clearbody res
  end.

(** Bring in what is known about the run of a callee. *)
Ltac sub_run lem H s1 o1 rest1 :=
  pose proof lem as H; cbn zeta in H;
  lazymatch type of H with
  | context [run ?rs ?p ?s] => destruct (run rs p s) as [[s1 o1] rest1]
  end;
  unfold consumed, finalState, outcome in H; state_cbn in H.

Ltac finish H :=
  try (injection H as ? ? ?); subst; unfold consumed, finalState, outcome, added in *;
  state_cbn;
  repeat match goal with Hc : _ = [] /\ _ |- _ => destruct Hc; subst end.

Ltac used :=
  first [ reflexivity | lia | cbn in *; lia
        | split; [reflexivity|cbn in *; lia] ].

(** ** Handlers keep an invariant that their writes respect *)

Section Keeps.
Context {host : Host} (I : State -> Prop).

(** What the invariant must be stable under; [addable] tells which
    identifiers may be made visible. *)
Context (addable : string -> Prop).
Hypothesis I_emit : forall e s, I s -> I (emit e s).
Hypothesis I_loaded : forall v s, I s -> I (set_loaded v s).
Hypothesis I_order : forall v s, I s -> I (set_order v s).
Hypothesis I_active : forall v s, I s -> I (set_active v s).
Hypothesis I_layerSearch : forall v s, I s -> I (set_layerSearch v s).
Hypothesis I_sqlEditor : forall v s, I s -> I (set_sqlEditor v s).
Hypothesis I_counters : forall a b c s, I s -> I (set_counters a b c s).
Hypothesis I_viewport : forall v s, I s -> I (set_viewport v s).
Hypothesis I_checked : forall e b s, I s -> I (setChecked e b s).
Hypothesis I_rendered : forall ft s, I s -> I (rendered ft s).
Hypothesis I_hide : forall id s, I s -> I (set_visible (visible s ∖ {[id]}) s).
Hypothesis I_show : forall id s, addable id -> I s -> I (set_visible ({[id]} ∪ visible s) s).
Hypothesis I_srid : forall s k, I s -> sridCache s !! k = None ->
  forall s' x, I s' -> I (set_sridCache (<[k := x]> (sridCache s')) s').
Hypothesis addable_row : forall s r, I s -> r ∈ rowEls s ->
  r_emptyGeom r = false \/ cb_disabled r = false -> addable (full (r_layer r)).

Lemma getLayerSrid_keeps layer s : I s -> keeps I (getLayerSrid layer) s.
Proof.
  intros Hs. unfold keeps, getLayerSrid. cbn.
  destruct (sridCache s !! full layer) eqn:Hc; cbn; auto.
  split; [auto|]. intros [b|m] s' Hs'; cbn; eauto.
Qed.

Lemma getLayerExtent4326_keeps layer s : I s -> keeps I (getLayerExtent4326 layer) s.
Proof.
  intros Hs. unfold getLayerExtent4326.
  eapply keeps_bind; [apply getLayerSrid_keeps; assumption| |auto].
  intros srid s' Hs'. cbn. split; [auto|]. intros [b|m] s'' Hs''; cbn; auto.
Qed.

Lemma loadLayerInViewport_keeps layer b s : I s -> keeps I (loadLayerInViewport layer b) s.
Proof.
  intros Hs. unfold keeps, loadLayerInViewport. wp_cbn.
  eapply keeps_bind; [apply getLayerSrid_keeps; assumption| |auto].
  intros srid s' Hs'. cbn. split; [auto|]. intros [d|m] s'' Hs''; cbn; auto.
  destruct b; cbn; auto 10.
Qed.

Lemma runActiveViewportLoad_keeps s : I s -> keeps I runActiveViewportLoad s.
Proof.
  intros Hs. unfold keeps, runActiveViewportLoad. wp_cbn.
  destruct (active s) as [a|]; wp_cbn; auto.
  destruct (bool_decide _); wp_cbn; auto.
  eapply keeps_bind; [apply loadLayerInViewport_keeps; assumption|cbn; auto|auto].
Qed.

Lemma fitBounds4326_keeps ext s : I s -> keeps I (fitBounds4326 ext) s.
Proof.
  intros Hs. unfold keeps, fitBounds4326. cbn.
  destruct (_ || _); cbn; auto.
Qed.

Lemma fitAndRetry_keeps {A} layer (reload : Prog A) s :
  (forall s', I s' -> keeps I reload s') -> I s -> keeps I (fitAndRetry layer reload) s.
Proof.
  intros Hr Hs. unfold keeps, fitAndRetry.
  eapply keeps_bind; [apply getLayerExtent4326_keeps; assumption| |auto].
  intros [r|] s' Hs'; wp_cbn; auto.
  destruct (negb _); wp_cbn; auto.
  eapply keeps_bind; [apply fitBounds4326_keeps; assumption| |auto].
  intros _ s'' Hs''. eapply keeps_bind; [apply Hr; assumption|cbn; auto|auto].
Qed.

Lemma renderLayerList_keeps ft s : I s -> keeps I (renderLayerList ft) s.
Proof. intros Hs. apply (I_rendered ft s Hs). Qed.

Lemma moveLayer_keeps id dir s : I s -> keeps I (moveLayer id dir) s.
Proof.
  intros Hs. unfold keeps, moveLayer. wp_cbn.
  destruct (movedOrder _ _ _); wp_cbn; auto.
  apply renderLayerList_keeps. auto.
Qed.

Lemma btnReload_keeps s : I s -> keeps I btnReload s.
Proof.
  intros Hs. unfold btnReload.
  eapply keeps_try_catch; [|auto|cbn; auto].
  eapply keeps_bind; [apply runActiveViewportLoad_keeps; assumption|cbn; auto|auto].
Qed.

Lemma onMoveEnd_keeps s : I s -> keeps I onMoveEnd s.
Proof.
  intros Hs. unfold onMoveEnd.
  eapply keeps_try_catch; [|auto|cbn; auto].
  eapply keeps_bind; [apply runActiveViewportLoad_keeps; assumption|cbn; auto|auto].
Qed.

Lemma btnRunSql_keeps s : addable advId -> I s -> keeps I btnRunSql s.
Proof.
  intros Hadv Hs. unfold keeps, btnRunSql. cbn.
  destruct (String.eqb _ _); cbn; auto.
  split; [auto|]. intros [d|m] s' Hs'; cbn; auto.
  destruct (rowsToFeatureCollection _); cbn; auto.
  apply I_counters, I_emit, I_emit, I_emit.
  destruct (bool_decide _); auto.
Qed.

Lemma cbChange_keeps r s :
  addable (full (r_layer r)) -> I s -> keeps I (cbChange r) s.
Proof.
  intros Ha Hs. unfold keeps, cbChange. wp_cbn.
  destruct (cbChecked _ _); wp_cbn; auto.
  destruct (negb _); wp_cbn; auto.
  eapply keeps_try_catch; [|auto|cbn; auto].
  eapply keeps_bind; [apply loadLayerInViewport_keeps; auto|cbn; auto|auto].
Qed.

Lemma rowClick_keeps r s :
  (r_emptyGeom r = false -> addable (full (r_layer r))) -> I s -> keeps I (rowClick r) s.
Proof.
  intros Ha Hs. unfold keeps, rowClick. wp_cbn.
  eapply keeps_bind; [apply renderLayerList_keeps; auto| |auto].
  intros _ s1 Hs1. destruct (r_emptyGeom r); wp_cbn; auto.
  eapply keeps_try_catch; [|auto|cbn; auto].
  unfold keeps. wp_cbn. destruct (negb _); wp_cbn.
  - eapply keeps_bind; [apply loadLayerInViewport_keeps; auto| |auto].
    intros _ s2 Hs2. wp_cbn. destruct (Nat.eqb _ _); wp_cbn; auto.
    apply fitAndRetry_keeps; auto. intros. apply loadLayerInViewport_keeps; auto.
  - eapply keeps_bind; [apply runActiveViewportLoad_keeps; auto| |auto].
    intros [[|? ?]|] s2 Hs2; wp_cbn; auto;
      apply fitAndRetry_keeps; auto; intros; apply runActiveViewportLoad_keeps; auto.
Qed.

(** Every event keeps the invariant, provided Clear and Run SQL do where
    they occur. *)
Lemma step_ok w ev :
  (ev = ClickClear -> forall s, I s -> keeps I btnClear s) ->
  (ev = ClickRunSql -> addable advId) ->
  world_ok I w -> world_ok I (step w ev).
Proof.
  intros Hclear Hsql Hw. pose proof Hw as [Hs Hp].
  destruct ev as [i r|i|i|i|i|text|text| | | | |v]; cbn -[launch].
  - destruct (pending w !! i) as [t|] eqn:Ht; [|assumption].
    apply launch_ok.
    + split; [assumption|]. cbn. apply (Forall_delete _ _ _ Hp).
    + cbn. rewrite Forall_lookup in Hp. apply (Hp _ _ Ht); assumption.
  - destruct (rowEls (state w) !! i) as [r|] eqn:Hr; [|assumption].
    destruct (cb_disabled r) eqn:Hd; [assumption|].
    apply launch_ok.
    + split; cbn; auto.
    + cbn. apply cbChange_keeps; auto.
      eapply addable_row; eauto. eapply list_elem_of_lookup_2; eauto.
  - destruct (rowEls (state w) !! i) as [r|] eqn:Hr; [|assumption].
    apply launch_ok; [assumption|]. apply rowClick_keeps; auto.
    intros He. eapply addable_row; eauto. eapply list_elem_of_lookup_2; eauto.
  - destruct (rowEls (state w) !! i) as [r|] eqn:Hr; [|assumption].
    apply launch_ok; [assumption|]. apply moveLayer_keeps; auto.
  - destruct (rowEls (state w) !! i) as [r|] eqn:Hr; [|assumption].
    apply launch_ok; [assumption|]. apply moveLayer_keeps; auto.
  - destruct (bound (state w)).
    + apply launch_ok; [split; cbn; auto|]. apply renderLayerList_keeps. cbn. auto.
    + split; cbn; auto.
  - split; cbn; auto.
  - destruct (bound (state w)); [|assumption].
    apply launch_ok; [assumption|]. apply btnReload_keeps; auto.
  - destruct (bound (state w)); [|assumption].
    apply launch_ok; [assumption|]. apply Hclear; auto.
  - destruct (bound (state w)); [|assumption].
    apply launch_ok; [assumption|]. apply btnRunSql_keeps; auto.
  - destruct (bound (state w)); [|assumption].
    apply launch_ok; [assumption|]. apply btnReload_keeps; auto.
  - destruct (bound (state w)).
    + apply launch_ok; [split; cbn; auto|]. apply onMoveEnd_keeps. cbn. auto.
    + split; cbn; auto.
Qed.

End Keeps.

(** ** The invariant of the hydrated page *)

Section InvFacts.
Context {host : Host} (strict : bool) (L : list Layer) (HL : GoodCat L).

Lemma Inv_frame s s' :
  layers s' = layers s -> visible s' = visible s -> rowEls s' = rowEls s ->
  Inv strict L s -> Inv strict L s'.
Proof.
  unfold Inv, visibleHasData, visibleCataloged, rowsFaithful. intros -> -> ->. auto.
Qed.

Lemma Inv_checked e b s : Inv strict L s -> Inv strict L (setChecked e b s).
Proof.
  intros (Hl & Hv & Hr & Hc). split; [exact Hl|]. split; [exact Hv|]. split; [|exact Hc].
  intros r. unfold setChecked. cbn. rewrite list_elem_of_fmap.
  intros (r0 & -> & Hr0). destruct (Hr _ Hr0) as (? & ? & ?).
  destruct (Nat.eqb _ _); cbn; auto.
Qed.

Lemma Inv_rendered ft s : Inv strict L s -> Inv strict L (rendered ft s).
Proof.
  intros (Hl & Hv & Hr & Hc). split; [exact Hl|]. split; [exact Hv|]. split; [|exact Hc].
  intros r. unfold rendered. cbn. rewrite elem_of_lookup_imap.
  intros (i & l & -> & Hi). cbn. apply list_elem_of_lookup_2 in Hi.
  apply list_elem_of_In, filter_In in Hi. destruct Hi as [Hi _].
  split; [|split; reflexivity]. rewrite <- Hl. apply list_elem_of_In. exact Hi.
Qed.

Lemma Inv_hide id s : Inv strict L s -> Inv strict L (set_visible (visible s ∖ {[id]}) s).
Proof.
  intros (Hl & Hv & Hr & Hc). split; [exact Hl|]. split; [|split; [exact Hr|]].
  - intros l Hin. cbn. intros Hvis. apply Hv; [exact Hin|].
    apply elem_of_difference in Hvis. tauto.
  - intros Hs x. cbn. intros Hx. apply (Hc Hs). apply elem_of_difference in Hx. tauto.
Qed.

Lemma Inv_show id s :
  addableTo strict L id -> Inv strict L s ->
  Inv strict L (set_visible ({[id]} ∪ visible s) s).
Proof.
  intros [Ha Hcat] (Hl & Hv & Hr & Hc). split; [exact Hl|]. split; [|split; [exact Hr|]].
  - intros l Hin. cbn in *. intros Hvis. apply elem_of_union in Hvis as [Hvis|Hvis].
    + apply elem_of_singleton in Hvis. apply Ha; congruence.
    + apply Hv; assumption.
  - intros Hs x. cbn. intros Hx. apply elem_of_union in Hx as [Hx|Hx].
    + apply elem_of_singleton in Hx. subst x. rewrite Hl. exact (Hcat Hs).
    + apply (Hc Hs), Hx.
Qed.

Lemma Inv_cleared s :
  Inv strict L s -> Inv strict L (set_sridCache ∅ (set_visible ∅ (set_loaded ∅ s))).
Proof.
  intros (Hl & Hv & Hr & Hc). split; [exact Hl|]. split; [|split; [exact Hr|]].
  - intros l Hin. cbn. intros Hx. apply elem_of_empty in Hx. contradiction.
  - intros _ x. cbn. intros Hx. apply elem_of_empty in Hx. contradiction.
Qed.

Lemma addableTo_row s r :
  Inv strict L s -> r ∈ rowEls s ->
  r_emptyGeom r = false \/ cb_disabled r = false -> addableTo strict L (full (r_layer r)).
Proof.
  intros (Hl & Hv & Hr & _) Hin Hne.
  destruct (Hr _ Hin) as (HrL & He & Hd). split; [|eauto].
  intros l Hl' Hfull.
  assert (Hempty : emptyGeom (r_layer r) = false) by (destruct Hne; congruence).
  pose proof (gc_finite L HL _ HrL) as Hf. rewrite Hempty in Hf. cbn in Hf.
  pose proof (gc_same L HL _ _ Hl' HrL Hfull) as Hc.
  unfold hasData in *. rewrite Hc. exact Hf.
Qed.

Lemma addableTo_adv : strict = false -> addableTo strict L advId.
Proof.
  intros ->. split; [|discriminate].
  intros l Hin Hf. exfalso. exact (gc_adv L HL _ Hin Hf).
Qed.

Lemma Inv_load layer b s : Inv strict L s -> keeps (Inv strict L) (loadLayerInViewport layer b) s.
Proof.
  apply (loadLayerInViewport_keeps (Inv strict L)).
  all: intros; eapply Inv_frame; [| | |eassumption]; reflexivity.
Qed.

Lemma Inv_fitAndRetry layer b s :
  Inv strict L s ->
  keeps (Inv strict L) (fitAndRetry layer (loadLayerInViewport layer b)) s.
Proof.
  apply (fitAndRetry_keeps (Inv strict L)).
  all: try (intros; eapply Inv_frame; [| | |eassumption]; reflexivity).
  intros. apply Inv_load. assumption.
Qed.

Lemma Inv_render ft s : Inv strict L s -> keeps (Inv strict L) (renderLayerList ft) s.
Proof. apply Inv_rendered. Qed.

Lemma keeps_modify {A} (I : State -> Prop) f (k : unit -> Prog A) s :
  keeps I (k tt) (f s) -> keeps I (bind (modify f) k) s.
Proof. exact id. Qed.

Lemma keeps_get {A} (I : State -> Prop) (k : State -> Prog A) s :
  keeps I (k s) s -> keeps I (bind get k) s.
Proof. exact id. Qed.

Lemma btnClear_keeps s : Inv strict L s -> keeps (Inv strict L) btnClear s.
Proof.
  intros Hs. unfold btnClear.
  do 5 (apply keeps_modify; cbv beta). apply keeps_get.
  apply Inv_render.
  eapply Inv_frame; [| | |apply (Inv_cleared s Hs)]; reflexivity.
Qed.

Lemma Inv_step w ev :
  (strict = true -> ev <> ClickRunSql) ->
  world_ok (Inv strict L) w -> world_ok (Inv strict L) (step w ev).
Proof.
  intros Hev. apply (step_ok (Inv strict L) (addableTo strict L)).
  all: try (intros; eapply Inv_frame; [| | |eassumption]; reflexivity).
  - apply Inv_checked.
  - apply Inv_rendered.
  - apply Inv_hide.
  - apply Inv_show.
  - apply addableTo_row.
  - intros _. apply btnClear_keeps.
  - intros ->. apply addableTo_adv. destruct strict; [|reflexivity].
    exfalso. apply Hev; reflexivity.
Qed.

Lemma Inv_start s : Pre s -> Inv strict L (set_layers L s).
Proof.
  intros (Hr & _ & Hv). split; [reflexivity|]. split; [|split].
  - intros l _. cbn. rewrite Hv. intros Hx. apply elem_of_empty in Hx. contradiction.
  - intros r. cbn. rewrite Hr. intros H. inversion H.
  - intros _ x. cbn. rewrite Hv. intros Hx. apply elem_of_empty in Hx. contradiction.
Qed.

Lemma ensureOrderInitialized_keeps s :
  Inv strict L s -> keeps (Inv strict L) ensureOrderInitialized s.
Proof.
  intros Hs. unfold keeps, ensureOrderInitialized. cbn.
  destruct (order s); cbn; [|assumption].
  eapply Inv_frame; [| | |exact Hs]; reflexivity.
Qed.

Lemma pickActive_in ls a : pickActive ls = Some a -> a ∈ ls.
Proof.
  unfold pickActive. destruct (List.find hasData ls) eqn:E.
  - intros [= <-]. apply find_some in E as [E _]. apply list_elem_of_In, E.
  - destruct ls; cbn; intros [= <-]. left.
Qed.

Lemma initHydrated_keeps s : Pre s -> keeps (Inv strict L) (initHydrated L) s.
Proof.
  intros Hpre. pose proof (Inv_start s Hpre) as H0.
  unfold keeps, initHydrated. wp_cbn.
  eapply keeps_bind; [apply ensureOrderInitialized_keeps, H0| |auto].
  intros _ s2 Hs2. wp_cbn.
  assert (Hact : forall a, Inv strict L (set_active a s2))
    by (intros; eapply Inv_frame; [| | |exact Hs2]; reflexivity).
  destruct (pickActive L) as [a|] eqn:Ha; wp_cbn.
  - apply pickActive_in in Ha. destruct (hasData a) eqn:Hd; wp_cbn.
    + eapply keeps_bind; [apply Inv_render| |auto].
      { apply (Inv_show (full a) (set_active (Some a) s2)); [|apply Hact].
        split; [|eauto]. intros l Hl Hf. unfold hasData in *.
        rewrite (gc_same L HL l a Hl Ha Hf). exact Hd. }
      intros _ s3 Hs3. wp_cbn.
      eapply keeps_bind; [apply Inv_load| |auto].
      { eapply Inv_frame; [| | |exact Hs3]; reflexivity. }
      intros [|? ?] s4 Hs4; wp_cbn; auto.
      eapply keeps_try_catch; [apply Inv_fitAndRetry; auto|auto|cbn; auto].
    + eapply keeps_bind; [apply Inv_render, Hact| |auto].
      intros _ s3 Hs3. cbn. eapply Inv_frame; [| | |exact Hs3]; reflexivity.
  - eapply keeps_bind; [apply Inv_render, Hact| |auto].
    intros _ s3 Hs3. cbn. eapply Inv_frame; [| | |exact Hs3]; reflexivity.
Qed.

End InvFacts.

(** ** Start-up establishes the invariant *)

Section Boot.
Context {host : Host}.

Lemma hasChar_app c a b : hasChar c (a +:+ b) = hasChar c a || hasChar c b.
Proof.
  induction a as [|x a IH]; [reflexivity|].
  change (String x a +:+ b) with (String x (a +:+ b)). cbn.
  rewrite IH. apply orb_assoc.
Qed.

Lemma catalog_full_dot c l : l ∈ catalogLayers c -> hasChar "." (full l) = true.
Proof.
  unfold catalogLayers. rewrite list_elem_of_In, in_flat_map.
  intros (sch & _ & Hin). apply in_map_iff in Hin as (t & <- & _).
  cbn. rewrite !hasChar_app. cbn. apply orb_true_r.
Qed.

Lemma catalog_count c l : l ∈ catalogLayers c -> geomCount l = None.
Proof.
  unfold catalogLayers. rewrite list_elem_of_In, in_flat_map.
  intros (sch & _ & Hin). apply in_map_iff in Hin as (t & <- & _). reflexivity.
Qed.

Lemma GoodCat_catalog c : GoodCat (catalogLayers c).
Proof.
  split.
  - intros l1 l2 H1 H2 _. rewrite (catalog_count _ _ H1), (catalog_count _ _ H2). reflexivity.
  - intros l Hl. unfold hasData, emptyGeom. rewrite (catalog_count _ _ Hl). reflexivity.
  - intros l Hl Hf. apply catalog_full_dot in Hl. rewrite Hf in Hl. discriminate.
Qed.

Lemma hydratedCount_finite v : exists q, hydratedCount v = Js.Fin q.
Proof.
  unfold hydratedCount.
  destruct (if Js.nullish v then Js.of_Z 0 else ToNumber v) eqn:E; cbn; eauto.
Qed.

Lemma GoodCat_hydrated row c : GoodCat (hydrated row (catalogLayers c)).
Proof.
  unfold hydrated. split.
  - intros l1 l2. rewrite !list_elem_of_In, !in_map_iff.
    intros (a & <- & _) (b & <- & _). cbn. intros ->. reflexivity.
  - intros l. rewrite list_elem_of_In, in_map_iff. intros (a & <- & _).
    unfold hasData, emptyGeom. cbn.
    destruct (hydratedCount_finite (prop row (full a))) as [q ->]. reflexivity.
  - intros l. rewrite list_elem_of_In, in_map_iff. intros (a & <- & Ha) Hf.
    apply list_elem_of_In, catalog_full_dot in Ha. cbn in Hf. rewrite Hf in Ha. discriminate.
Qed.

Lemma Pre_frame s s' :
  rowEls s' = rowEls s -> bound s' = bound s -> visible s' = visible s -> Pre s -> Pre s'.
Proof. unfold Pre. intros -> -> ->. auto. Qed.

Lemma Good_launch_initHydrated strict L s :
  GoodCat L -> Pre s -> Good strict (launch (initHydrated L) (mkWorld s [])).
Proof.
  intros HL Hpre. exists L. split; [exact HL|].
  pose proof (initHydrated_keeps strict L HL s Hpre) as Hk.
  apply wp_exec in Hk. unfold launch. cbn [state pending].
  destruct (exec (initHydrated L) s) as [s' [a|m|q k]]; split; cbn; auto.
  - tauto.
  - constructor; [|constructor]. intros r s'' Hs''. apply Hk. exact Hs''.
Qed.

Lemma boot_stage1 strict v : Stage1 strict (boot v).
Proof.
  split; [repeat split|].
  eexists. split; [reflexivity|].
  intros [c|m] s Hpre; cbn -[initHydrated catalogLayers].
  2: { left. split; [|reflexivity]. exact Hpre. }
  destruct (catalogLayers c) as [|l0 ls] eqn:Hc; cbn -[initHydrated catalogLayers].
  { left. split; [|reflexivity]. eapply Pre_frame; [| | |exact Hpre]; reflexivity. }
  right. left. split.
  { eapply Pre_frame; [| | |exact Hpre]; reflexivity. }
  eexists. split; [reflexivity|].
  intros [d|m] s' Hpre'; cbn -[initHydrated launch]; right.
  - set (row := match firstRow d with Some r => r | None => ∅ end).
    change (Good strict (launch (initHydrated (hydrated row (l0 :: ls))) (mkWorld s' []))).
    rewrite <- Hc. apply Good_launch_initHydrated; [|exact Hpre'].
    apply (GoodCat_hydrated _ c).
  - rewrite <- Hc. apply Good_launch_initHydrated; [|exact Hpre'].
    apply GoodCat_catalog.
Qed.

Lemma Pre_step w ev :
  Pre (state w) ->
  (exists i r t, ev = Answer i r /\ pending w !! i = Some t) \/
  (Pre (state (step w ev)) /\ pending (step w ev) = pending w).
Proof.
  intros Hpre. pose proof Hpre as (Hr & Hb & Hv).
  destruct ev as [i r|i|i|i|i|text|text| | | | |v]; cbn -[launch].
  - destruct (pending w !! i) as [t|] eqn:Ht; [left; eauto|right; auto].
  - rewrite Hr. right; auto.
  - rewrite Hr. right; auto.
  - rewrite Hr. right; auto.
  - rewrite Hr. right; auto.
  - rewrite Hb. right. split; [|reflexivity]. eapply Pre_frame; [| | |exact Hpre]; reflexivity.
  - right. split; [|reflexivity]. eapply Pre_frame; [| | |exact Hpre]; reflexivity.
  - rewrite Hb. right; auto.
  - rewrite Hb. right; auto.
  - rewrite Hb. right; auto.
  - rewrite Hb. right; auto.
  - rewrite Hb. right. split; [|reflexivity]. eapply Pre_frame; [| | |exact Hpre]; reflexivity.
Qed.

Lemma Stage_step next w ev :
  Stage next w -> Stage next (step w ev) \/ next (step w ev).
Proof.
  intros (Hpre & t & Hp & Hnext).
  destruct (Pre_step w ev Hpre) as [(i & r & t' & -> & Hi)|[Hpre' Hp']].
  - right. cbn -[launch]. rewrite Hi. rewrite Hp in Hi |- *.
    destruct i as [|i]; [|discriminate]. injection Hi as <-.
    apply Hnext, Hpre.
  - left. split; [exact Hpre'|]. exists t. rewrite Hp'. auto.
Qed.

Lemma Idle_step w ev : Idle w -> Idle (step w ev).
Proof.
  intros [Hpre Hp].
  destruct (Pre_step w ev Hpre) as [(i & r & t' & -> & Hi)|[Hpre' Hp']].
  - rewrite Hp in Hi. discriminate.
  - split; [exact Hpre'|]. rewrite Hp'. exact Hp.
Qed.

Lemma Good_step strict w ev :
  (strict = true -> ev <> ClickRunSql) -> Good strict w -> Good strict (step w ev).
Proof.
  intros Hev (L & HL & Hw). exists L. split; [exact HL|]. apply Inv_step; assumption.
Qed.

Lemma Sound_step strict w ev :
  (strict = true -> ev <> ClickRunSql) -> Sound strict w -> Sound strict (step w ev).
Proof.
  intros Hev [H|[H|[H|H]]].
  - left. apply Idle_step, H.
  - destruct (Stage_step _ w ev H) as [H'|[H'|[H'|H']]]; unfold Sound; auto.
  - destruct (Stage_step _ w ev H) as [H'|[H'|H']]; unfold Sound; auto.
  - right. right. right. apply Good_step; assumption.
Qed.

Lemma Sound_steps strict w evs :
  (strict = true -> ClickRunSql ∉ evs) -> Sound strict w -> Sound strict (steps w evs).
Proof.
  revert w. induction evs as [|ev evs IH]; intros w Hev Hw; cbn; [assumption|].
  apply IH.
  - intros Hs Hin. apply (Hev Hs). right. exact Hin.
  - apply Sound_step; [|exact Hw]. intros Hs ->. apply (Hev Hs). left.
Qed.

Lemma Sound_visible strict w : Sound strict w -> visibleHasData (state w).
Proof.
  assert (Hpre : forall s, Pre s -> visibleHasData s).
  { intros s (_ & _ & Hv) l _. rewrite Hv. intros Hx. apply elem_of_empty in Hx. contradiction. }
  intros [[H _]|[[H _]|[[H _]|(L & _ & (_ & H & _) & _)]]]; auto.
Qed.

Lemma Sound_cataloged w : Sound true w -> visibleCataloged (state w).
Proof.
  assert (Hpre : forall s, Pre s -> visibleCataloged s).
  { intros s (_ & _ & Hv) x. rewrite Hv. intros Hx. apply elem_of_empty in Hx. contradiction. }
  intros [[H _]|[[H _]|[[H _]|(L & _ & (_ & _ & _ & H) & _)]]]; auto.
Qed.

(** C2.  Whatever the user and the remote services do after start-up
    (answers to pending requests, checkbox toggles, row clicks, reordering,
    search, reload, clear, ad-hoc queries, map moves), no cataloged layer
    with a known count of zero or less is in the visible set: every cataloged
    layer whose name is visible has a count that is null or greater than
    zero.  As long as no ad-hoc query is run, the visible set holds nothing
    but names of such layers. *)
Theorem C2_visible_never_known_empty (v : BBox) (evs : list Event) :
  visibleHasData (state (steps (boot v) evs)) /\
  (ClickRunSql ∉ evs ->
   forall id, id ∈ visible (state (steps (boot v) evs)) ->
     exists l, l ∈ layers (state (steps (boot v) evs)) /\ full l = id /\
       match geomCount l with
       | None => True
       | Some c => Js.gt c (Js.of_Z 0) = true
       end).
Proof.
  split.
  - apply (Sound_visible false), Sound_steps; [discriminate|].
    right. left. apply boot_stage1.
  - intros Hno id Hid.
    assert (Hs : Sound true (steps (boot v) evs)).
    { apply Sound_steps; [auto|]. right. left. apply boot_stage1. }
    destruct (Sound_cataloged _ Hs id Hid) as (l & Hl & Hf).
    exists l. split; [exact Hl|]. split; [exact Hf|].
    pose proof (Sound_visible true _ Hs l Hl) as Hd. rewrite Hf in Hd.
    specialize (Hd Hid). unfold hasData in Hd. destruct (geomCount l); [exact Hd|exact I].
Qed.

End Boot.

(** ** Runs of the loaders and of the extent fallback *)

#[local] Opaque buildViewportSQL sridSQL extentSQL rowsToFeatureCollection.

Section Runs.
Context {host : Host}.

Lemma added_refl s : added s s [].
Proof. reflexivity. Qed.


Lemma sameRegistry_refl s : sameRegistry s s.
Proof. repeat split. Qed.


Lemma getLayerSrid_run replies layer s :
  let res := run replies (getLayerSrid layer) s in
  added s (finalState res) [] /\ sameRegistry s (finalState res) /\
  consumed 1 replies res.
Proof.
  start_run res Hres. unfold getLayerSrid in Hres. run_in Hres.
  destruct (sridCache s !! full layer) eqn:Hc; run_in Hres.
  { finish Hres. repeat split; lia. }
  destruct replies as [|[b|m] rest]; run_in Hres; finish Hres; repeat split; cbn; lia.
Qed.


Lemma loadLayerInViewport_run replies layer b s :
  let res := run replies (loadLayerInViewport layer b) s in
  sameRegistry s (finalState res) /\ consumed 2 replies res /\
  match outcome res with
  | Done fc =>
      added s (finalState res) [CViewport] /\
      (b = true -> featureCount (finalState res) = length fc) /\
      length res.2 < length replies
  | _ => added s (finalState res) [] \/ added s (finalState res) [CViewport]
  end.
Proof.
  start_run res Hres. unfold loadLayerInViewport in Hres. run_in Hres.
  rewrite run_bind in Hres.
  sub_run (getLayerSrid_run replies layer s) H s1 o1 rest1.
  destruct H as (Ha & Hr & Hc).
  destruct o1 as [srid|m|q k]; run_in Hres.
  2,3: finish Hres; split; [exact Hr|]; split; [used|left; exact Ha].
  destruct rest1 as [|[d|m] rest2]; run_in Hres.
  - finish Hres. split; [exact Hr|]. split; [used|]. right. rewrite Ha. reflexivity.
  - destruct b; run_in Hres; finish Hres.
    all: split; [exact Hr|]; split; [used|]; split; [rewrite Ha; reflexivity|].
    all: split; [|cbn in *; lia].
    + reflexivity.
    + discriminate.
  - finish Hres. split; [exact Hr|]. split; [used|]. right. rewrite Ha. reflexivity.
Qed.















End Runs.

(** ** A failed toggle *)

Section Toggle.
Context {host : Host}.

Lemma cbChecked_setChecked_false e s : cbChecked e (setChecked e false s) = false.
Proof.
  unfold cbChecked, setChecked. cbn. induction (rowEls s) as [|x l IH]; cbn; [reflexivity|].
  destruct (Nat.eqb (el x) e) eqn:E; cbn; rewrite E; [reflexivity|exact IH].
Qed.

Lemma difference_union_singleton (x : string) (X : gset string) :
  ({[x]} ∪ X) ∖ {[x]} = X ∖ {[x]}.
Proof.
  apply set_eq. intros y. rewrite !elem_of_difference, elem_of_union. tauto.
Qed.

Lemma difference_absent (x : string) (X : gset string) : x ∉ X -> X ∖ {[x]} = X.
Proof.
  intros Hx. apply set_eq. intros y. rewrite elem_of_difference, elem_of_singleton.
  split; [tauto|]. intros Hy. split; [exact Hy|]. intros ->. contradiction.
Qed.

(** C8.  A change event on the checkbox of row [r], now checked, of a layer
    that is not loaded, whose viewport load fails with message [m]: the
    handler ends normally, the message is shown by an alert, the checkbox is
    unchecked again, and the visible set is the one before the toggle with
    the layer removed.  It is the visible set before the toggle exactly when
    the layer was not in it. *)
Theorem C8_toggle_failure_rolls_back (r : RowEl) (s : State) (replies : list Reply)
    (s1 : State) (m : string) (rest : list Reply) :
  cbChecked (el r) s = true ->
  full (r_layer r) ∉ loaded s ->
  run replies (loadLayerInViewport (r_layer r) (r_isActive r))
    (set_visible ({[full (r_layer r)]} ∪ visible s) s) = (s1, Threw m, rest) ->
  let res := run replies (cbChange r) s in
  outcome res = Done tt /\
  trace (finalState res) = Alert (messageOf m) :: trace s1 /\
  visible (finalState res) = visible s ∖ {[full (r_layer r)]} /\
  cbChecked (el r) (finalState res) = false /\
  (full (r_layer r) ∉ visible s <-> visible (finalState res) = visible s).
Proof.
  intros Hchk Hnl Hload. start_run res Hres. unfold cbChange in Hres. run_in Hres.
  rewrite Hchk in Hres. run_in Hres.
  rewrite bool_decide_eq_false_2 in Hres by exact Hnl. cbn [negb] in Hres.
  rewrite run_try_catch, run_bind, Hload in Hres. run_in Hres.
  pose proof (loadLayerInViewport_run replies (r_layer r) (r_isActive r)
                (set_visible ({[full (r_layer r)]} ∪ visible s) s)) as H.
  cbn zeta in H. rewrite Hload in H. destruct H as ((_ & _ & Hv & _ & Hrows) & _).
  unfold finalState in Hv, Hrows. state_cbn in Hv. state_cbn in Hrows.
  subst res. unfold finalState, outcome. state_cbn.
  assert (Hvis : visible s1 ∖ {[full (r_layer r)]} = visible s ∖ {[full (r_layer r)]})
    by (rewrite Hv; apply difference_union_singleton).
  repeat split.
  - unfold setChecked. state_cbn. exact Hvis.
  - apply cbChecked_setChecked_false.
  - intros Hnv. unfold setChecked. state_cbn. rewrite Hvis. apply difference_absent, Hnv.
  - unfold setChecked. state_cbn. rewrite Hvis. intros Heq Hin.
    rewrite <- Heq in Hin. apply elem_of_difference in Hin as [_ Hin].
    apply Hin, elem_of_singleton. reflexivity.
Qed.

End Toggle.

(** ** The reference cache *)

Section Memo.
Context {host : Host}.





End Memo.

(** ** Start-up: hydration and the choice of the active layer *)

Section Startup.
Context {host : Host}.

Lemma find_first {A} (f : A -> bool) pre a post :
  Forall (fun x => f x = false) pre -> f a = true ->
  List.find f (pre ++ a :: post) = Some a.
Proof.
  induction 1 as [|x pre Hx _ IH]; intros Ha; cbn.
  - rewrite Ha. reflexivity.
  - rewrite Hx. apply IH, Ha.
Qed.

Lemma find_none_all {A} (f : A -> bool) l :
  Forall (fun x => f x = false) l -> List.find f l = None.
Proof. induction 1 as [|x l Hx _ IH]; cbn; [reflexivity|]. rewrite Hx. exact IH. Qed.

Lemma find_split {A} (f : A -> bool) l :
  match List.find f l with
  | Some a => exists pre post,
      l = pre ++ a :: post /\ Forall (fun x => f x = false) pre /\ f a = true
  | None => Forall (fun x => f x = false) l
  end.
Proof.
  induction l as [|x l IH]; cbn; [constructor|].
  destruct (f x) eqn:Hx.
  - exists [], l. repeat split; [constructor|exact Hx].
  - destruct (List.find f l) as [a|].
    + destruct IH as (pre & post & -> & Hpre & Ha).
      exists (x :: pre), post. repeat split; [constructor; assumption|exact Ha].
    + constructor; assumption.
Qed.

Lemma initHydrated_first ls pre a post s :
  ls = pre ++ a :: post ->
  Forall (fun l => hasData l = false) pre -> hasData a = true ->
  visible s = ∅ ->
  let res := run [] (initHydrated ls) s in
  layers (finalState res) = ls /\ active (finalState res) = Some a /\
  visible (finalState res) = {[full a]}.
Proof.
  intros Hls Hpre Ha Hv. start_run res Hres. unfold initHydrated in Hres. run_in Hres.
  unfold ensureOrderInitialized in Hres. run_in Hres.
  assert (Hp : pickActive ls = Some a).
  { unfold pickActive. rewrite Hls, (find_first _ _ _ _ Hpre Ha). reflexivity. }
  rewrite Hp in Hres.
  destruct (order (set_layers ls s)); run_in Hres; rewrite Ha in Hres; run_in Hres.
  all: rewrite run_bind in Hres.
  all: match type of Hres with
       | context [run [] (loadLayerInViewport ?a0 true) ?s0] =>
           sub_run (loadLayerInViewport_run [] a0 true s0) H s1 o1 rest1
       end.
  all: destruct H as ((Hl & Hact & Hvis & _) & Hc & Hc').
  all: destruct o1 as [fc|m|q k]; [cbn in Hc'; lia| |]; run_in Hres; finish Hres.
  all: state_cbn in Hl; state_cbn in Hact; state_cbn in Hvis.
  all: rewrite Hl, Hact, Hvis, Hv; repeat split; apply (right_id_L ∅ (∪)).
Qed.

Lemma initHydrated_none ls s :
  Forall (fun l => hasData l = false) ls ->
  visible s = ∅ ->
  let res := run [] (initHydrated ls) s in
  outcome res = Done tt /\
  layers (finalState res) = ls /\
  active (finalState res) = List.head ls /\ visible (finalState res) = ∅ /\
  loaded (finalState res) = loaded s /\
  requestsOf (trace (finalState res)) = requestsOf (trace s).
Proof.
  intros Hall Hv. start_run res Hres. unfold initHydrated in Hres. run_in Hres.
  unfold ensureOrderInitialized in Hres. run_in Hres.
  assert (Hp : pickActive ls = List.head ls).
  { unfold pickActive. rewrite (find_none_all _ _ Hall). reflexivity. }
  rewrite Hp in Hres.
  destruct (order (set_layers ls s)); run_in Hres.
  all: destruct ls as [|a ls']; cbn [List.head] in Hres; run_in Hres.
  all: try (pose proof (Forall_inv Hall) as Ha; cbn beta in Ha; rewrite Ha in Hres; run_in Hres).
  all: finish Hres; repeat split; first [assumption|reflexivity].
Qed.

Lemma hydrateGeomCounts_resolved ls b s :
  ls <> [] ->
  run [Resolved b] (hydrateGeomCounts ls) s =
  (emit (Fetch (PostQuery QCounts (countsSQL ls))) s,
   Done (List.map (fun l => setGeomCount (hydratedCount (countCell b l)) l) ls), []).
Proof. destruct ls; [contradiction|]. intros _. reflexivity. Qed.

Lemma hydrateGeomCounts_rejected ls m s :
  ls <> [] ->
  run [Rejected m] (try_catch (hydrateGeomCounts ls) (fun _ => Ret ls)) s =
  (emit (Fetch (PostQuery QCounts (countsSQL ls))) s, Done ls, []).
Proof. destruct ls; [contradiction|]. intros _. reflexivity. Qed.

(** C10.  When the counts query is answered, hydrateGeomCounts returns the
    layers in the same order with the same names and geometry columns, and
    every one of them has a count that is a finite number, none is left
    null: a cell of the first row that is null or missing, or whose
    conversion to a number is not finite, gives the count 0, which marks the
    layer as having no geometry; any other cell gives its conversion to a
    number. *)
Theorem C10_hydration_leaves_no_null (ls : list Layer) (b : Body) (s : State) :
  exists s' ls' rest,
    run [Resolved b] (hydrateGeomCounts ls) s = (s', Done ls', rest) /\
    Forall2 (fun l l' =>
      full l' = full l /\ geomCol l' = geomCol l /\
      (exists q, geomCount l' = Some (Js.Fin q)) /\
      let v := countCell b l in
      if Js.nullish v || negb (Js.isFinite (ToNumber v))
      then geomCount l' = Some (Js.of_Z 0) /\ emptyGeom l' = true
      else geomCount l' = Some (ToNumber v)) ls ls'.
Proof.
  destruct ls as [|l0 ls0].
  { exists s, [], [Resolved b]. split; [reflexivity|constructor]. }
  eexists _, _, _. split; [apply hydrateGeomCounts_resolved; discriminate|].
  apply Forall2_fmap_r, Forall_Forall2_diag, Forall_forall. intros l _.
  split; [reflexivity|]. split; [reflexivity|]. split.
  { cbn. destruct (hydratedCount_finite (countCell b l)) as [q ->]. eauto. }
  cbn zeta. unfold emptyGeom, hydratedCount. cbn.
  destruct (Js.nullish (countCell b l)); cbn; [split; reflexivity|].
  destruct (Js.isFinite (ToNumber (countCell b l))); cbn; [reflexivity|split; reflexivity].
Qed.

(** C5.  After init has received the catalog and the answer to the counts
    query: if some layer has a count that is null or greater than zero, the
    first such layer in catalog order is active and it alone is visible; if
    the catalog is not empty and no layer qualifies, the first layer is
    active, nothing is visible, nothing is loaded, init has returned, and the
    log holds no reference, viewport or extent query. *)
Theorem C5_startup_active (v : BBox) (c : Body) (rc : Reply) :
  let res := run [Resolved c; rc] init (initialState v) in
  let s := finalState res in
  (forall pre a post,
     layers s = pre ++ a :: post ->
     Forall (fun l => hasData l = false) pre -> hasData a = true ->
     active s = Some a /\ visible s = {[full a]}) /\
  (layers s <> [] -> Forall (fun l => hasData l = false) (layers s) ->
     active s = List.head (layers s) /\ visible s = ∅ /\ loaded s = ∅ /\
     outcome res = Done tt /\
     List.filter isLoadRequest (requestsOf (trace s)) = []).
Proof.
  cbn zeta.
  assert (Hinit : exists ls s1,
            run [Resolved c; rc] init (initialState v) = run [] (initHydrated ls) s1 /\
            visible s1 = ∅ /\ loaded s1 = ∅ /\
            List.filter isLoadRequest (requestsOf (trace s1)) = [] \/
            run [Resolved c; rc] init (initialState v) =
              (set_layers [] (emit (Fetch GetCatalog) (emit MapInit (initialState v))),
               Done tt, [rc])).
  { unfold init, loadLayerCatalog. cbn -[initHydrated hydrateGeomCounts run].
    rewrite run_Get, run_Put. cbn -[initHydrated hydrateGeomCounts run].
    rewrite run_Get, run_Put, run_Await_cons. cbn -[initHydrated hydrateGeomCounts run].
    rewrite run_Get, run_Put.
    destruct (catalogLayers c) as [|l0 ls0] eqn:Hc.
    { rewrite run_Ret. exists [], (initialState v). right. reflexivity. }
    rewrite run_bind. destruct rc as [b|m].
    - rewrite run_try_catch, hydrateGeomCounts_resolved by discriminate.
      eexists _, _. left. split; [reflexivity|]. repeat split.
    - rewrite hydrateGeomCounts_rejected by discriminate.
      eexists _, _. left. split; [reflexivity|]. repeat split. }
  destruct Hinit as (ls & s1 & [(Hrun & Hv & Hl & Hq)|Hrun]); rewrite Hrun.
  - assert (Hlayers : layers (finalState (run [] (initHydrated ls) s1)) = ls).
    { pose proof (find_split hasData ls) as Hf.
      destruct (List.find hasData ls) as [a|].
      - destruct Hf as (pre & post & Hls & Hpre & Ha).
        apply (initHydrated_first ls pre a post s1 Hls Hpre Ha Hv).
      - apply (initHydrated_none ls s1 Hf Hv). }
    rewrite Hlayers. split.
    + intros pre a post Hls Hpre Ha.
      destruct (initHydrated_first ls pre a post s1 Hls Hpre Ha Hv) as (_ & H1 & H2).
      auto.
    + intros _ Hall.
      destruct (initHydrated_none ls s1 Hall Hv) as (Ho & _ & Ha & Hvis & Hld & Hreq).
      rewrite Hreq, Hld. auto.
  - unfold finalState, outcome. cbn. split.
    + intros pre a post Hls. destruct pre; discriminate.
    + intros H. contradiction.
Qed.

End Startup.

(** ** The text of the queries *)

#[local] Transparent buildViewportSQL sridSQL extentSQL.

Section Sql.
Context {host : Host}.

Lemma app_cons a s t : String a s +:+ t = String a (s +:+ t).
Proof. reflexivity. Qed.

Lemma app_nil_l_str t : "" +:+ t = t.
Proof. reflexivity. Qed.

Lemma app_assoc_str a b c : (a +:+ b) +:+ c = a +:+ (b +:+ c).
Proof. induction a as [|x a IH]; [reflexivity|]. rewrite !app_cons, IH. reflexivity. Qed.

Lemma trimEnd_app a t :
  trimEnd t <> "" -> trimEnd (a +:+ t) = a +:+ trimEnd t.
Proof.
  intros Ht. induction a as [|x a IH]; [reflexivity|].
  rewrite !app_cons. cbn [trimEnd]. rewrite IH.
  destruct (a +:+ trimEnd t) eqn:E; [|reflexivity].
  destruct a; [|discriminate]. rewrite app_nil_l_str in E. contradiction.
Qed.

Lemma solid_app a t : solid t -> solid (a +:+ t).
Proof.
  unfold solid. intros Ht. rewrite (trimEnd_app _ _ Ht).
  destruct a; [exact Ht|discriminate].
Qed.

End Sql.

Ltac solve_solid :=
  first [ solve [unfold solid; vm_compute; discriminate] | apply solid_app; solve_solid ].

Section Queries.
Context {host : Host}.

Lemma trimStart_select t : trimStart (nl +:+ "        SELECT" +:+ t) = "SELECT" +:+ t.
Proof. reflexivity. Qed.

Lemma length_app_str a b : String.length (a +:+ b) = String.length a + String.length b.
Proof. induction a as [|x a IH]; [reflexivity|]. rewrite app_cons. cbn. rewrite IH. reflexivity. Qed.

Lemma geomExpr_wrapped g srid :
  geomExpr g srid = "ST_Transform(" +:+ g +:+ ", 4326)" <-> Js.eqb srid srid4326 = false.
Proof.
  unfold geomExpr. destruct (Js.eqb srid srid4326); split; try reflexivity; try discriminate.
  intros H. apply (f_equal String.length) in H. rewrite !length_app_str in H. cbn in H. lia.
Qed.

(** C7.  For every layer, bounding box and reference, buildViewportSQL with
    the limit 600 is the text: SELECT of all columns and of ST_AsGeoJSON of
    the geometry expression, FROM the layer, WHERE the geometry column IS NOT
    NULL AND ST_Intersects of the geometry expression with the envelope of
    the box in 4326, LIMIT 600.  The geometry expression is the column
    wrapped in ST_Transform to 4326 if and only if the reference is not
    4326, and the bare column otherwise. *)
Theorem C7_buildViewportSQL_text (layer : Layer) (bbox : BBox) (srid : Js.num) :
  let ge := geomExpr (geomCol layer) srid in
  buildViewportSQL layer bbox srid 600 = viewportText layer bbox ge /\
  (Js.eqb srid srid4326 = true -> ge = geomCol layer) /\
  (ge = "ST_Transform(" +:+ geomCol layer +:+ ", 4326)" <-> Js.eqb srid srid4326 = false).
Proof.
  cbn zeta. split; [|split].
  - unfold buildViewportSQL, viewportText, trim.
    set (ge := geomExpr (geomCol layer) srid).
    rewrite trimStart_select.
    rewrite !trimEnd_app by solve_solid.
    reflexivity.
  - unfold geomExpr. intros ->. reflexivity.
  - apply geomExpr_wrapped.
Qed.



(** C1.  The handler of the Clear button empties the visible set, the loaded
    set and the reference cache, and leaves the catalog, the stacking order
    and the active layer as they were. *)
Theorem C1_btnClear_resets (s : State) :
  let s' := (exec btnClear s).1 in
  (exec btnClear s).2 = Done tt /\
  visible s' = ∅ /\ loaded s' = ∅ /\ sridCache s' = ∅ /\
  layers s' = layers s /\ order s' = order s /\ active s' = active s.
Proof. cbn. repeat split. Qed.

End Queries.

(** ** The stacking order *)

Section Order.
Context {host : Host}.

Lemma indexOf_spec o x :
  match o !! Z.to_nat (indexOf o x) with
  | Some y => (0 <= indexOf o x)%Z -> y = x
  | None => (indexOf o x < 0)%Z
  end /\ (-1 <= indexOf o x < Z.of_nat (length o))%Z /\
  (x ∉ o -> indexOf o x = (-1)%Z).
Proof.
  induction o as [|y o IH]; cbn [indexOf].
  - cbn. repeat split; try lia.
  - destruct (String.eqb_spec y x) as [->|Hne].
    + cbn. repeat split; try lia. intros Hn. exfalso. apply Hn. left.
    + destruct IH as (IH1 & IH2 & IH3).
      destruct (Z.ltb_spec (indexOf o x) 0) as [Hlt|Hge].
      * cbn. split; [intros ?; lia|]. split; [cbn; lia|]. reflexivity.
      * replace (Z.to_nat (indexOf o x + 1)) with (S (Z.to_nat (indexOf o x))) by lia.
        cbn [lookup list_lookup]. split; [|split].
        -- destruct (o !! Z.to_nat (indexOf o x)); [|lia]. intros _. auto.
        -- cbn [length]. lia.
        -- intros Hn. rewrite IH3 in Hge; [lia|]. intros Hin. apply Hn. right. exact Hin.
Qed.

(** Exchanging two positions of a list keeps it duplicate-free. *)
Lemma swap_NoDup (o : list string) i j :
  i < length o -> j < length o -> NoDup o ->
  NoDup (<[j := o !!! i]> (<[i := o !!! j]> o)).
Proof.
  intros Hi Hj Hnd. apply NoDup_alt. intros a b x Ha Hb.
  pose proof (proj1 (NoDup_alt o) Hnd) as Huniq.
  assert (Hlook : forall k y,
            <[j := o !!! i]> (<[i := o !!! j]> o) !! k = Some y ->
            o !! (if decide (k = j) then i else if decide (k = i) then j else k) = Some y).
  { intros k y. rewrite list_lookup_insert, length_insert.
    destruct (decide (k = j)) as [->|Hkj].
    - rewrite decide_True by auto. intros [= <-]. apply list_lookup_lookup_total_lt, Hi.
    - rewrite decide_False by (intros [? _]; congruence).
      rewrite list_lookup_insert.
      destruct (decide (k = i)) as [->|Hki].
      + rewrite decide_True by auto. intros [= <-]. apply list_lookup_lookup_total_lt, Hj.
      + rewrite decide_False by (intros [? _]; congruence). auto. }
  pose proof (Huniq _ _ _ (Hlook _ _ Ha) (Hlook _ _ Hb)) as Heq.
  repeat destruct (decide _); congruence.
Qed.

Lemma movedOrder_NoDup o id dir o' :
  movedOrder o id dir = Some o' -> NoDup o -> NoDup o'.
Proof.
  unfold movedOrder.
  destruct (Z.ltb_spec (indexOf o id) 0) as [|Hge]; [discriminate|].
  destruct (Z.ltb_spec (indexOf o id + dir) 0) as [|Hj0]; [discriminate|].
  destruct (Z.leb_spec (Z.of_nat (length o)) (indexOf o id + dir)) as [|Hj1]; [discriminate|].
  cbn. intros [= <-]. apply swap_NoDup; [|lia].
  pose proof (indexOf_spec o id) as (_ & ? & _). lia.
Qed.

Lemma movedOrder_absent o id dir : id ∉ o -> movedOrder o id dir = None.
Proof.
  intros Hn. unfold movedOrder.
  pose proof (indexOf_spec o id) as (_ & _ & H). rewrite (H Hn). reflexivity.
Qed.

Lemma moveLayer_order id dir s :
  order (finalState (run [] (moveLayer id dir) s)) =
  (match movedOrder (order s) id dir with Some o' => o' | None => order s end).
Proof.
  unfold moveLayer. cbn -[movedOrder]. destruct (movedOrder (order s) id dir); reflexivity.
Qed.

Lemma btnRunSql_order r s :
  order (finalState (run [r] btnRunSql s)) = order s \/
  ((advId ∉ order s) /\ order (finalState (run [r] btnRunSql s)) = order s ++ [advId]).
Proof.
  unfold btnRunSql. cbn -[advId rowsToFeatureCollection trim].
  destruct (String.eqb _ _); cbn -[advId rowsToFeatureCollection trim]; [auto|].
  destruct r as [d|m]; cbn -[advId rowsToFeatureCollection trim]; [|auto].
  destruct (rowsToFeatureCollection (rowsOf d)); cbn -[advId rowsToFeatureCollection trim]; [auto|].
  destruct (bool_decide (advId ∈ order s)) eqn:Hd; cbn -[advId]; [auto|].
  right. split; [|reflexivity]. apply bool_decide_eq_false in Hd. exact Hd.
Qed.

Lemma indexOf_app pre id post :
  id ∉ pre -> indexOf (pre ++ id :: post) id = Z.of_nat (length pre).
Proof.
  induction pre as [|y pre IH]; intros Hn; cbn [app indexOf length].
  - rewrite String.eqb_refl. reflexivity.
  - destruct (String.eqb_spec y id) as [->|Hne].
    + exfalso. apply Hn. left.
    + rewrite IH by (intros Hin; apply Hn; right; exact Hin).
      destruct (Z.ltb_spec (Z.of_nat (length pre)) 0); lia.
Qed.

Lemma movedOrder_swap pre a b post id dir (i j : nat) :
  indexOf (pre ++ a :: b :: post) id = Z.of_nat i ->
  (Z.of_nat i + dir)%Z = Z.of_nat j ->
  (i = length pre /\ j = S (length pre)) \/ (j = length pre /\ i = S (length pre)) ->
  movedOrder (pre ++ a :: b :: post) id dir = Some (pre ++ b :: a :: post).
Proof.
  intros Hi Hj Hij. unfold movedOrder. rewrite Hi, Hj.
  assert (Hlen : length (pre ++ a :: b :: post) = S (S (length pre + length post)))
    by (rewrite length_app; cbn; lia).
  destruct (Z.ltb_spec (Z.of_nat i) 0); [lia|].
  destruct (Z.ltb_spec (Z.of_nat j) 0); [lia|].
  destruct (Z.leb_spec (Z.of_nat (length (pre ++ a :: b :: post))) (Z.of_nat j)); [lia|].
  cbn [orb]. rewrite !Nat2Z.id. f_equal.
  assert (Ha : (pre ++ a :: b :: post) !!! length pre = a)
    by (apply list_lookup_total_middle; reflexivity).
  assert (Hb : (pre ++ a :: b :: post) !!! S (length pre) = b).
  { replace (pre ++ a :: b :: post) with ((pre ++ [a]) ++ b :: post)
      by (rewrite <- app_assoc; reflexivity).
    apply list_lookup_total_middle. rewrite length_app. cbn. lia. }
  destruct Hij as [[-> ->]|[-> ->]]; rewrite Ha, Hb.
  - replace (length pre) with (length pre + 0) at 2 by lia.
    rewrite insert_app_r. cbn.
    replace (S (length pre)) with (length pre + 1) by lia.
    rewrite insert_app_r. reflexivity.
  - replace (S (length pre)) with (length pre + 1) by lia.
    rewrite insert_app_r. cbn.
    replace (length pre) with (length pre + 0) at 1 by lia.
    rewrite insert_app_r. reflexivity.
Qed.

Lemma applyOp_NoDup s op : NoDup (order s) -> NoDup (order (applyOp s op)).
Proof.
  intros Hnd. destruct op as [id dir|r]; cbn [applyOp].
  - rewrite moveLayer_order. destruct (movedOrder (order s) id dir) eqn:E; [|exact Hnd].
    eapply movedOrder_NoDup; eauto.
  - destruct (btnRunSql_order r s) as [->|[Hn ->]]; [exact Hnd|].
    apply NoDup_app. split; [exact Hnd|]. split; [|apply NoDup_singleton].
    intros x Hx Hin. apply list_elem_of_singleton in Hin. subst. contradiction.
Qed.

(** C9.  From a duplicate-free order, any sequence of moves and ad-hoc
    queries leaves the order duplicate-free.  A move of an identifier that is
    absent, a move up of the first entry and a move down of the last entry
    change nothing; a move up or down by one exchanges the entry with its
    neighbour; an ad-hoc query changes nothing when the synthetic identifier
    is already present. *)
Theorem C9_order_stays_duplicate_free (s : State) (ops : list OrderOp) :
  NoDup (order s) ->
  NoDup (order (fold_left applyOp ops s)) /\
  (forall id dir, id ∉ order s -> order (applyOp s (OpMove id dir)) = order s) /\
  (forall r, advId ∈ order s -> order (applyOp s (OpRunSql r)) = order s) /\
  (forall id rest dir, order s = id :: rest -> (dir < 0)%Z ->
     order (applyOp s (OpMove id dir)) = order s) /\
  (forall id pre dir, order s = pre ++ [id] -> (0 < dir)%Z ->
     order (applyOp s (OpMove id dir)) = order s) /\
  (forall pre x id post, order s = pre ++ x :: id :: post ->
     order (applyOp s (OpMove id (-1))) = pre ++ id :: x :: post) /\
  (forall pre x id post, order s = pre ++ id :: x :: post ->
     order (applyOp s (OpMove id 1)) = pre ++ x :: id :: post).
Proof.
  intros Hnd. split; [|split; [|split; [|split; [|split; [|split]]]]].
  - revert s Hnd. induction ops as [|op ops IH]; intros s Hnd; cbn; [exact Hnd|].
    apply IH, applyOp_NoDup, Hnd.
  - intros id dir Hn. cbn [applyOp]. rewrite moveLayer_order, movedOrder_absent; auto.
  - intros r Hin. cbn [applyOp]. destruct (btnRunSql_order r s) as [H|[Hn _]]; [exact H|].
    contradiction.
  - intros id rest dir Ho Hd. cbn [applyOp]. rewrite moveLayer_order, Ho.
    unfold movedOrder. cbn [indexOf]. rewrite String.eqb_refl. cbn [Z.ltb Z.compare].
    destruct (Z.ltb_spec (0 + dir) 0); [reflexivity|lia].
  - intros id pre dir Ho Hd. cbn [applyOp]. rewrite moveLayer_order, Ho.
    rewrite Ho in Hnd. apply NoDup_app in Hnd as (_ & Hdisj & _).
    unfold movedOrder. rewrite indexOf_app.
    2: { intros Hin. apply (Hdisj _ Hin). left. }
    rewrite length_app. cbn [length].
    destruct (Z.ltb_spec (Z.of_nat (length pre)) 0); [lia|].
    destruct (Z.ltb_spec (Z.of_nat (length pre) + dir) 0); [lia|].
    destruct (Z.leb_spec (Z.of_nat (length pre + 1)) (Z.of_nat (length pre) + dir)); [|lia].
    reflexivity.
  - intros pre x id post Ho. cbn [applyOp]. rewrite moveLayer_order, Ho.
    rewrite Ho in Hnd. apply NoDup_app in Hnd as (_ & Hdisj & Hnd2).
    apply NoDup_cons in Hnd2 as [Hx _].
    rewrite (movedOrder_swap pre x id post id (-1) (S (length pre)) (length pre));
      [reflexivity| |lia|auto].
    change (pre ++ x :: id :: post) with (pre ++ [x] ++ id :: post). rewrite app_assoc.
    rewrite indexOf_app; [rewrite length_app; cbn; lia|].
    intros Hin. apply elem_of_app in Hin as [Hin|Hin].
    + apply (Hdisj _ Hin). right. left.
    + apply list_elem_of_singleton in Hin. subst. apply Hx. left.
  - intros pre x id post Ho. cbn [applyOp]. rewrite moveLayer_order, Ho.
    rewrite Ho in Hnd. apply NoDup_app in Hnd as (_ & Hdisj & _).
    rewrite (movedOrder_swap pre id x post id 1 (length pre) (S (length pre)));
      [reflexivity| |lia|auto].
    apply indexOf_app. intros Hin. apply (Hdisj _ Hin). left.
Qed.

End Order.

(** ** The page on sample data *)

Ltac not_in_list :=
  rewrite ?not_elem_of_cons; repeat split; try discriminate; apply not_elem_of_nil.

Section Examples.
Import Example.
#[local] Existing Instance Example.host.

Lemma C1_clear_keeps_order_and_active :
  let s' := state (step started ClickClear) in
  order s' = ["public.fields"; "public.roads"] /\
  active s' = Some (fieldsLayer (Some (Js.of_Z 5))) /\
  visible s' = ∅.
Proof. vm_compute. repeat split. Qed.

Lemma C2_visible_witness :
  let s := state (steps (boot v0)
             [Answer 0 (Resolved catalog); Answer 0 (Resolved (counts 0 3));
              ClickCheckbox 0; ClickRow 1; Answer 0 (Rejected "boom"); ClickCheckbox 1]) in
  visibleHasData s /\
  forall id, id ∈ visible s ->
    exists l, l ∈ layers s /\ full l = id /\
      match geomCount l with
      | None => True
      | Some c => Js.gt c (Js.of_Z 0) = true
      end.
Proof.
  cbv zeta.
  pose proof (C2_visible_never_known_empty v0
    [Answer 0 (Resolved catalog); Answer 0 (Resolved (counts 0 3));
     ClickCheckbox 0; ClickRow 1; Answer 0 (Rejected "boom"); ClickCheckbox 1]) as [H1 H2].
  split; [exact H1|]. apply H2. not_in_list.
Defined.





Lemma C5_startup_witness :
  let s := finalState (run [Resolved catalog; Resolved (counts 0 5)] init
                         (initialState v0)) in
  layers s = [fieldsLayer (Some (Js.of_Z 0)); roadsLayer (Some (Js.of_Z 5))] /\
  active s = Some (roadsLayer (Some (Js.of_Z 5))) /\ visible s = {["public.roads"]}.
Proof.
  cbv zeta.
  assert (H : layers (finalState (run [Resolved catalog; Resolved (counts 0 5)] init
                         (initialState v0))) =
              [fieldsLayer (Some (Js.of_Z 0))] ++ roadsLayer (Some (Js.of_Z 5)) :: [])
    by (vm_compute; reflexivity).
  split; [exact H|].
  apply (proj1 (C5_startup_active v0 catalog (Resolved (counts 0 5))) _ _ _ H).
  - repeat constructor.
  - reflexivity.
Defined.

Lemma C8_failed_toggle_changes_visible :
  let before := state selectedFailed in
  let after := state (steps selectedFailed [ClickCheckbox 1; Answer 0 (Rejected "boom")]) in
  elements (visible before) = ["public.fields"; "public.roads"] /\
  elements (visible after) = ["public.fields"] /\
  map cb_checked (rowEls before) = [true; false] /\
  pending selectedFailed = [].
Proof. vm_compute. repeat split. Qed.

Lemma C8_toggle_witness :
  let shown := set_visible ({["public.roads"]} ∪ visible ticked) ticked in
  let load := run [Rejected "boom"] (loadLayerInViewport (roadsLayer (Some (Js.of_Z 3))) false) shown in
  let res := run [Rejected "boom"] (cbChange roadsRow) ticked in
  rowEls (state started) !! 1 = Some roadsRow /\
  cbChecked 1 ticked = true /\
  ("public.roads" ∉ loaded ticked) /\
  load = (finalState load, Threw "boom", []) /\
  outcome res = Done tt /\
  visible (finalState res) = visible ticked ∖ {["public.roads"]} /\
  cbChecked 1 (finalState res) = false /\
  visible (finalState res) = visible ticked.
Proof.
  cbv zeta.
  assert (H1 : cbChecked (el roadsRow) ticked = true) by (vm_compute; reflexivity).
  assert (H2 : full (r_layer roadsRow) ∉ loaded ticked)
    by (refine (proj1 (bool_decide_eq_false _) _); vm_compute; reflexivity).
  assert (H0 : full (r_layer roadsRow) ∉ visible ticked)
    by (refine (proj1 (bool_decide_eq_false _) _); vm_compute; reflexivity).
  assert (H3 : run [Rejected "boom"]
                 (loadLayerInViewport (r_layer roadsRow) (r_isActive roadsRow))
                 (set_visible ({[full (r_layer roadsRow)]} ∪ visible ticked) ticked) =
               (finalState (run [Rejected "boom"]
                  (loadLayerInViewport (roadsLayer (Some (Js.of_Z 3))) false)
                  (set_visible ({["public.roads"]} ∪ visible ticked) ticked)), Threw "boom", []))
    by (vm_compute; reflexivity).
  destruct (C8_toggle_failure_rolls_back roadsRow ticked [Rejected "boom"] _ "boom" [] H1 H2 H3)
    as (Ho & _ & Hv & Hc & Hiff).
  split; [vm_compute; reflexivity|].
  split; [exact H1|]. split; [exact H2|]. split; [exact H3|].
  split; [exact Ho|]. split; [exact Hv|]. split; [exact Hc|].
  apply Hiff, H0.
Defined.

Lemma C9_order_witness :
  let s := state started in
  let ops := [OpMove "public.roads" (-1)%Z; OpRunSql (Resolved oneFeature);
              OpMove "advanced-sql" (-1)%Z; OpRunSql (Resolved oneFeature)] in
  NoDup (order s) /\
  NoDup (order (fold_left applyOp ops s)) /\
  order (fold_left applyOp ops s) = ["public.roads"; "advanced-sql"; "public.fields"].
Proof.
  cbv zeta.
  assert (H : NoDup (order (state started))).
  { change (NoDup ["public.fields"; "public.roads"]).
    repeat constructor; not_in_list. }
  split; [exact H|]. split.
  - exact (proj1 (C9_order_stays_duplicate_free (state started) _ H)).
  - vm_compute. reflexivity.
Defined.

End Examples.

(** * Further properties *)

#[local] Transparent rowsToFeatureCollection.

(** ** [escapeHtml] *)

Lemma replaceAll_app c rep a b :
  replaceAll c rep (a +:+ b) = replaceAll c rep a +:+ replaceAll c rep b.
Proof.
  induction a as [|x a IH]; [reflexivity|].
  rewrite app_cons. cbn [replaceAll]. rewrite IH.
  destruct (Ascii.eqb x c); [rewrite app_assoc_str|]; reflexivity.
Qed.
Lemma escapeHtml_cons a s : escapeHtml (String a s) = entity a +:+ escapeHtml s.
Proof.
  unfold escapeHtml, entity.
  destruct (Ascii.eqb_spec a "&") as [->|H1].
  { cbn [replaceAll Ascii.eqb Bool.eqb andb]. rewrite ?replaceAll_app. reflexivity. }
  destruct (Ascii.eqb_spec a "<") as [->|H2].
  { cbn [replaceAll Ascii.eqb Bool.eqb andb]. rewrite ?replaceAll_app. reflexivity. }
  destruct (Ascii.eqb_spec a ">") as [->|H3].
  { cbn [replaceAll Ascii.eqb Bool.eqb andb]. rewrite ?replaceAll_app. reflexivity. }
  destruct (Ascii.eqb_spec a "034") as [->|H4].
  { cbn [replaceAll Ascii.eqb Bool.eqb andb]. rewrite ?replaceAll_app. reflexivity. }
  destruct (Ascii.eqb_spec a "'") as [->|H5].
  { cbn [replaceAll Ascii.eqb Bool.eqb andb]. rewrite ?replaceAll_app. reflexivity. }
  apply Ascii.eqb_neq in H1, H2, H3, H4, H5.
  cbn [replaceAll]. rewrite H1. cbn [replaceAll]. rewrite H2. cbn [replaceAll]. rewrite H3.
  cbn [replaceAll]. rewrite H4. cbn [replaceAll]. rewrite H5. reflexivity.
Qed.

Lemma escapeHtml_escaped s : escapeHtml s = escaped s.
Proof.
  induction s as [|a s IH]; [reflexivity|]. rewrite escapeHtml_cons, IH. reflexivity.
Qed.

Lemma escaped_app a b : escaped (a +:+ b) = escaped a +:+ escaped b.
Proof.
  induction a as [|x a IH]; [reflexivity|].
  rewrite app_cons. cbn [escaped]. rewrite IH, app_assoc_str. reflexivity.
Qed.

Lemma entity_no_markup a c : markup c = true -> hasChar c (entity a) = false.
Proof.
  unfold markup. rewrite !orb_true_iff, !Ascii.eqb_eq. intros Hc.
  assert (Hlit : forall e, e = "&amp;" \/ e = "&lt;" \/ e = "&gt;" \/ e = "&quot;" \/ e = "&#039;" ->
            hasChar c e = false).
  { intros e He. destruct Hc as [[[-> | ->] | ->] | ->];
      destruct He as [-> | [-> | [-> | [-> | ->]]]]; reflexivity. }
  unfold entity.
  destruct (Ascii.eqb_spec a "&"); [apply Hlit; tauto|].
  destruct (Ascii.eqb_spec a "<"); [apply Hlit; tauto|].
  destruct (Ascii.eqb_spec a ">"); [apply Hlit; tauto|].
  destruct (Ascii.eqb_spec a "034"); [apply Hlit; tauto|].
  destruct (Ascii.eqb_spec a "'"); [apply Hlit; tauto|].
  cbn. rewrite orb_false_r. apply Ascii.eqb_neq.
  destruct Hc as [[[-> | ->] | ->] | ->]; assumption.
Qed.

Lemma entity_inj x y A B : entity x +:+ A = entity y +:+ B -> x = y /\ A = B.
Proof.
  unfold entity.
  destruct (Ascii.eqb_spec x "&") as [->|X1]; [|destruct (Ascii.eqb_spec x "<") as [->|X2];
    [|destruct (Ascii.eqb_spec x ">") as [->|X3]; [|destruct (Ascii.eqb_spec x "034") as [->|X4];
      [|destruct (Ascii.eqb_spec x "'") as [->|X5]]]]].
  all: destruct (Ascii.eqb_spec y "&") as [->|Y1]; [|destruct (Ascii.eqb_spec y "<") as [->|Y2];
    [|destruct (Ascii.eqb_spec y ">") as [->|Y3]; [|destruct (Ascii.eqb_spec y "034") as [->|Y4];
      [|destruct (Ascii.eqb_spec y "'") as [->|Y5]]]]].
  all: cbn; intros H; try discriminate H.
  all: try (injection H as H; subst; auto; fail).
  all: try (injection H as H0 H; subst; exfalso; auto; fail).
Qed.

Lemma escaped_inj a b : escaped a = escaped b -> a = b.
Proof.
  revert b. induction a as [|x a IH]; intros [|y b] H; cbn in H.
  - reflexivity.
  - exfalso. unfold entity in H. repeat destruct (Ascii.eqb _ _); discriminate.
  - exfalso. unfold entity in H. repeat destruct (Ascii.eqb _ _); discriminate.
  - apply entity_inj in H as [-> H]. f_equal. apply IH, H.
Qed.

Lemma escaped_no_markup c s : markup c = true -> hasChar c (escaped s) = false.
Proof.
  intros Hc. induction s as [|a s IH]; [reflexivity|].
  cbn [escaped]. rewrite hasChar_app, IH, (entity_no_markup a c Hc). reflexivity.
Qed.

Lemma escaped_plain s :
  (forall c, hasChar c s = true -> markup c = false /\ c <> "&"%char) -> escaped s = s.
Proof.
  induction s as [|a s IH]; intros H; [reflexivity|].
  cbn [escaped]. rewrite IH.
  2: { intros c Hc. apply H. cbn. rewrite Hc. apply orb_true_r. }
  destruct (H a) as [Hm Ha]; [cbn; rewrite Ascii.eqb_refl; reflexivity|].
  unfold markup in Hm. rewrite !orb_false_iff in Hm. destruct Hm as [[[H1 H2] H3] H4].
  apply Ascii.eqb_neq in Ha. unfold entity. rewrite Ha, H1, H2, H3, H4. reflexivity.
Qed.

(** X1.  escapeHtml replaces each ampersand, angle bracket and quote by its
    entity and keeps every other character, one character at a time: the
    ampersands of the entities it writes are not escaped a second time.  It
    distributes over concatenation, its result holds no angle bracket and no
    quote, and a text without any of the five characters is returned as it
    is. *)
Theorem escapeHtml_charwise (s t : string) :
  escapeHtml s = escaped s /\
  escapeHtml (s +:+ t) = escapeHtml s +:+ escapeHtml t /\
  (forall c, markup c = true -> hasChar c (escapeHtml s) = false) /\
  ((forall c, hasChar c s = true -> markup c = false /\ c <> "&"%char) -> escapeHtml s = s).
Proof.
  split; [apply escapeHtml_escaped|]. split; [|split].
  - rewrite !escapeHtml_escaped. apply escaped_app.
  - intros c Hc. rewrite escapeHtml_escaped. apply escaped_no_markup, Hc.
  - intros H. rewrite escapeHtml_escaped. apply escaped_plain, H.
Qed.

(** X2.  escapeHtml loses nothing: two texts with the same escaped form are
    the same text. *)
Theorem escapeHtml_injective (s t : string) : escapeHtml s = escapeHtml t -> s = t.
Proof. rewrite !escapeHtml_escaped. apply escaped_inj. Qed.

(** ** The feature collection, the catalog and the reference *)

Section Pure.
Context {host : Host}.

Lemma rowsToFeatureCollection_app a b :
  rowsToFeatureCollection (a ++ b) = rowsToFeatureCollection a ++ rowsToFeatureCollection b.
Proof. apply flat_map_app. Qed.

Lemma rowsToFeatureCollection_length rs :
  length (rowsToFeatureCollection rs) <= length rs.
Proof.
  induction rs as [|r rs IH]; [reflexivity|].
  change (r :: rs) with ([r] ++ rs).
  rewrite rowsToFeatureCollection_app, !length_app.
  assert (length (rowsToFeatureCollection [r]) <= 1); [|cbn [length] in *; lia].
  cbn. destruct r as [r|]; [|cbn; lia].
  destruct (negb _); [cbn; lia|].
  destruct (match prop r "geojson" with Js.Str s => JSON_parse s | _ => _ end); cbn; lia.
Qed.

(** X3.  rowsToFeatureCollection yields at most one feature per row.
    Every feature comes from a row that is not null and
    whose geojson column is truthy; its geometry is that column, parsed when
    it is a string; its properties are the other columns of the row, the
    geojson column never among them.  Null rows, rows without geojson and
    rows whose geojson text does not parse give no feature. *)
Theorem rowsToFeatureCollection_features (rs : list (option Row)) :
  length (rowsToFeatureCollection rs) <= length rs /\
  (forall f, f ∈ rowsToFeatureCollection rs ->
     properties f !! "geojson" = None /\
     exists r, Some r ∈ rs /\ Js.truthy (prop r "geojson") = true /\
       properties f = delete "geojson" r /\
       (forall k, k <> "geojson" -> properties f !! k = r !! k) /\
       match prop r "geojson" with
       | Js.Str t => JSON_parse t = Some (geometry f)
       | v => geometry f = v
       end) /\
  (forall r, Some r ∈ rs -> Js.truthy (prop r "geojson") = true ->
     match prop r "geojson" with
     | Js.Str t =>
         forall g, JSON_parse t = Some g ->
           mkFeature g (delete "geojson" r) ∈ rowsToFeatureCollection rs
     | v => mkFeature v (delete "geojson" r) ∈ rowsToFeatureCollection rs
     end).
Proof.
  split; [apply rowsToFeatureCollection_length|]. split.
  - intros f. unfold rowsToFeatureCollection. rewrite list_elem_of_In, in_flat_map.
    intros ([r|] & Hr & Hf); [|destruct Hf].
    destruct (Js.truthy (prop r "geojson")) eqn:Ht; cbn [negb] in Hf; [|destruct Hf].
    assert (Hgeo : match prop r "geojson" with
                   | Js.Str t => JSON_parse t = Some (geometry f)
                   | v => geometry f = v
                   end /\ properties f = delete "geojson" r).
    { destruct (prop r "geojson") as [| |b|n|t|j] eqn:Hp; cbn in Hf.
      5: destruct (JSON_parse t) eqn:Hj; cbn in Hf.
      all: try (destruct Hf as [<-|[]]; cbn; auto; fail).
      destruct Hf. }
    destruct Hgeo as [Hg Hpr]. split; [rewrite Hpr; apply lookup_delete_eq|].
    exists r. split; [apply list_elem_of_In, Hr|]. split; [exact Ht|].
    split; [exact Hpr|]. split; [|exact Hg].
    intros k Hk. rewrite Hpr. apply lookup_delete_ne. congruence.
  - intros r Hr Ht.
    assert (Hin : forall f, f ∈ rowsToFeatureCollection [Some r] ->
              f ∈ rowsToFeatureCollection rs).
    { intros f Hf. apply list_elem_of_In, in_split in Hr as (a & b & ->).
      change (a ++ Some r :: b) with (a ++ [Some r] ++ b).
      rewrite !rowsToFeatureCollection_app, !elem_of_app. auto. }
    unfold rowsToFeatureCollection in Hin at 1. cbn [flat_map] in Hin.
    rewrite Ht in Hin. cbn [negb] in Hin.
    destruct (prop r "geojson") as [| |b|n|t|j]; try (apply Hin; left; fail).
    intros g Hg. apply Hin. rewrite Hg. left.
Qed.

(** X4.  Every layer loadLayerCatalog builds comes from a table flagged
    has_geom of a listed schema; its full name is schema, dot, name; its
    count is null; and its geometry column is never empty: it is the first
    entry of geom_cols, else geom_col, else the text geom. *)
Theorem catalogLayers_layer (c : Body) (l : Layer) :
  l ∈ catalogLayers c ->
  geomCount l = None /\
  full l = schema l +:+ "." +:+ name l /\
  geomCol l <> "" /\
  exists schema0 t,
    schema0 ∈ schemasOf c /\ t ∈ tablesOf c schema0 /\ t_has_geom t = true /\
    name l = t_name t /\ geomCol l = geomColOf t /\
    schema l = match t_schema t with
               | Some sch => if String.eqb sch "" then schema0 else sch
               | None => schema0
               end.
Proof.
  unfold catalogLayers. rewrite list_elem_of_In, in_flat_map.
  intros (schema0 & Hs & Hin). apply in_map_iff in Hin as (t & <- & Ht).
  apply filter_In in Ht as [Ht Hg].
  split; [reflexivity|]. split; [reflexivity|]. split.
  { cbn. unfold geomColOf, nonEmptyStr.
    destruct (t_geom_cols t) as [[|c0 ?]|]; try destruct (String.eqb_spec c0 "");
      destruct (t_geom_col t) as [c1|]; try destruct (String.eqb_spec c1 ""); cbn;
      first [assumption|discriminate]. }
  exists schema0, t. rewrite !list_elem_of_In. repeat split; try assumption.
  cbn. unfold nonEmptyStr. destruct (t_schema t) as [sch|]; [|reflexivity].
  destruct (String.eqb sch ""); reflexivity.
Qed.

Lemma usableSrid_4326 : usableSrid srid4326.
Proof. split; reflexivity. Qed.

Lemma safeSrid_usable x : usableSrid (safeSrid x).
Proof.
  unfold safeSrid. destruct (Js.isFinite x) eqn:Hf; cbn; [|apply usableSrid_4326].
  destruct (Js.gt x (Js.of_Z 0)) eqn:Hg; [|apply usableSrid_4326]. split; assumption.
Qed.

(** X5.  A call of getLayerSrid that misses the cache and is answered sends
    one query and returns and caches a finite positive number: the srid of
    the first row when it converts to such a number, and 4326 otherwise (no
    row, a null or missing srid, text that is no number, zero, a negative
    number). *)
Theorem getLayerSrid_usable (layer : Layer) (s : State) (b : Body) (rest : list Reply) :
  sridCache s !! full layer = None ->
  let x := ToNumber (match firstRow b with
                     | Some r => prop r "srid"
                     | None => Js.Undefined
                     end) in
  exists v,
    run (Resolved b :: rest) (getLayerSrid layer) s =
      (set_sridCache (<[full layer := v]> (sridCache s))
         (emit (Fetch (PostQuery QSrid (sridSQL layer))) s), Done v, rest) /\
    usableSrid v /\
    (usableSrid x -> v = x) /\
    (~ usableSrid x -> v = srid4326) /\
    (firstRow b = None -> v = srid4326).
Proof.
  intros Hc x. exists (safeSrid x). split; [|split; [|split; [|split]]].
  - remember (run (Resolved b :: rest) (getLayerSrid layer) s) as res eqn:Hres.
    unfold getLayerSrid in Hres. run_in Hres. rewrite Hc in Hres. run_in Hres.
    exact Hres.
  - apply safeSrid_usable.
  - intros [Hf Hg]. unfold safeSrid. rewrite Hf, Hg. reflexivity.
  - intros Hn. unfold safeSrid.
    destruct (Js.isFinite x) eqn:Hf; [|reflexivity].
    destruct (Js.gt x (Js.of_Z 0)) eqn:Hg; [|reflexivity].
    exfalso. apply Hn. split; assumption.
  - intros Hr. subst x. rewrite Hr. reflexivity.
Qed.

End Pure.

(** ** Moving a layer *)

Section Moves.
Context {host : Host}.

Lemma movedOrder_Some o id dir o' :
  movedOrder o id dir = Some o' ->
  exists i j, indexOf o id = Z.of_nat i /\ (Z.of_nat i + dir)%Z = Z.of_nat j /\
    i < length o /\ j < length o /\ o !! i = Some id /\
    o' = <[j := id]> (<[i := o !!! j]> o).
Proof.
  unfold movedOrder.
  destruct (Z.ltb_spec (indexOf o id) 0) as [|Hge]; [discriminate|].
  destruct (Z.ltb_spec (indexOf o id + dir) 0) as [|Hj0]; [discriminate|].
  destruct (Z.leb_spec (Z.of_nat (length o)) (indexOf o id + dir)) as [|Hj1]; [discriminate|].
  cbn. intros [= <-].
  pose proof (indexOf_spec o id) as (Hlook & Hr & _).
  exists (Z.to_nat (indexOf o id)), (Z.to_nat (indexOf o id + dir)).
  assert (Hi : Z.to_nat (indexOf o id) < length o) by lia.
  destruct (o !! Z.to_nat (indexOf o id)) as [y|] eqn:Hy; [|lia].
  specialize (Hlook Hge). subst y.
  rewrite (list_lookup_total_correct _ _ _ Hy).
  repeat split; lia.
Qed.

Lemma movedOrder_Permutation o id dir o' : movedOrder o id dir = Some o' -> o' ≡ₚ o.
Proof.
  intros Hm. destruct (movedOrder_Some _ _ _ _ Hm) as (i & j & _ & _ & Hi & Hj & Hid & ->).
  apply Permutation_insert_swap; [exact Hid|].
  apply list_lookup_lookup_total_lt, Hj.
Qed.

Lemma indexOf_unique o i x : NoDup o -> o !! i = Some x -> indexOf o x = Z.of_nat i.
Proof.
  intros Hnd Hi. rewrite <- (take_drop_middle _ _ _ Hi) in Hnd |- *.
  apply NoDup_app in Hnd as (_ & Hdisj & _).
  rewrite indexOf_app.
  - rewrite length_take. apply lookup_lt_Some in Hi. lia.
  - intros Hin. apply (Hdisj _ Hin). left.
Qed.

Lemma movedOrder_back o id dir o' :
  NoDup o -> movedOrder o id dir = Some o' -> movedOrder o' id (- dir) = Some o.
Proof.
  intros Hnd Hm. pose proof (movedOrder_Permutation _ _ _ _ Hm) as Hperm.
  destruct (movedOrder_Some _ _ _ _ Hm) as (i & j & Hidx & Hij & Hi & Hj & Hid & ->).
  set (o' := <[j := id]> (<[i := o !!! j]> o)) in *.
  assert (Hlen : length o' = length o) by (subst o'; rewrite !length_insert; reflexivity).
  assert (Hj' : o' !! j = Some id).
  { subst o'. apply list_lookup_insert_eq. rewrite length_insert. exact Hj. }
  assert (Hnd' : NoDup o') by (rewrite Hperm; exact Hnd).
  unfold movedOrder. rewrite (indexOf_unique o' j id Hnd' Hj').
  replace (Z.of_nat j + - dir)%Z with (Z.of_nat i) by lia.
  destruct (Z.ltb_spec (Z.of_nat j) 0); [lia|].
  destruct (Z.ltb_spec (Z.of_nat i) 0); [lia|].
  destruct (Z.leb_spec (Z.of_nat (length o')) (Z.of_nat i)); [lia|].
  cbn [orb]. rewrite !Nat2Z.id. f_equal.
  rewrite (list_lookup_total_correct _ _ _ Hj').
  destruct (decide (i = j)) as [->|Hne].
  - subst o'. rewrite !list_insert_insert_eq. apply list_insert_id, Hid.
  - assert (Hoi : o' !!! i = o !!! j).
    { apply list_lookup_total_correct. subst o'.
      rewrite list_lookup_insert_ne by auto.
      apply list_lookup_insert_eq. exact Hi. }
    rewrite Hoi. subst o'.
    rewrite list_insert_insert_eq.
    rewrite (list_insert_insert_ne _ i j) by auto.
    rewrite list_insert_insert_eq.
    rewrite (list_insert_id o i id Hid).
    apply list_insert_id, list_lookup_lookup_total_lt, Hj.
Qed.

Lemma run_renderLayerList replies ft s :
  run replies (renderLayerList ft) s = (rendered ft s, Done tt, replies).
Proof. unfold renderLayerList. rewrite run_modify. reflexivity. Qed.

(** X6.  moveLayer never loses, adds or duplicates an identifier: the new
    order is a rearrangement of the old one.  It always returns, it leaves
    the catalog, the active layer, the visible and loaded sets and the cache
    as they were, and when the identifier is absent or the move would leave
    the list it does nothing at all: no call to the map, no new rendering. *)
Theorem moveLayer_rearranges (id : string) (dir : Z) (s : State) (replies : list Reply) :
  let res := run replies (moveLayer id dir) s in
  let s' := finalState res in
  outcome res = Done tt /\ res.2 = replies /\
  order s' ≡ₚ order s /\ untouched (set_order (order s) s') s /\
  match movedOrder (order s) id dir with
  | None => s' = s
  | Some o' => order s' = o' /\ trace s' = MapApplyOrder o' :: trace s
  end.
Proof.
  start_run res Hres. unfold moveLayer in Hres. run_in Hres.
  destruct (movedOrder (order s) id dir) as [o'|] eqn:Hm; run_in Hres.
  - rewrite run_renderLayerList in Hres. finish Hres. unfold untouched. cbn.
    repeat split; try reflexivity. eapply movedOrder_Permutation, Hm.
  - finish Hres. repeat split; reflexivity.
Qed.

(** X7.  On a duplicate-free order a move is undone by the opposite move:
    Up then Down, or Down then Up, restores the order. *)
Theorem moveLayer_undone (id : string) (dir : Z) (s : State) :
  NoDup (order s) ->
  let s1 := finalState (run [] (moveLayer id dir) s) in
  let s2 := finalState (run [] (moveLayer id (- dir)) s1) in
  order s1 <> order s -> order s2 = order s.
Proof.
  intros Hnd s1 s2 Hch. subst s1 s2.
  pose proof (moveLayer_rearranges id dir s []) as H. cbn zeta in H.
  destruct H as (_ & _ & _ & _ & H).
  destruct (movedOrder (order s) id dir) as [o'|] eqn:Hm.
  - destruct H as [Ho _].
    pose proof (moveLayer_rearranges id (- dir)
                  (finalState (run [] (moveLayer id dir) s)) []) as H2.
    cbn zeta in H2. destruct H2 as (_ & _ & _ & _ & H2).
    rewrite Ho in H2. rewrite (movedOrder_back _ _ _ _ Hnd Hm) in H2.
    apply H2.
  - rewrite H in Hch. contradiction.
Qed.

End Moves.

(** ** What the loaders and the handlers change *)

Section Handlers.
Context {host : Host}.

#[local] Opaque buildViewportSQL sridSQL extentSQL rowsToFeatureCollection.

Lemma getLayerSrid_effects replies layer s :
  let res := run replies (getLayerSrid layer) s in
  let s' := finalState res in
  sridCache s ⊆ sridCache s' /\ loaded s' = loaded s /\
  alertsOf (trace s') = alertsOf (trace s) /\ sameCounters s s' /\
  (forall k v, sridCache s' !! k = Some v -> sridCache s !! k = Some v \/ usableSrid v) /\
  match outcome res with
  | Done v => sridCache s' !! full layer = Some v
  | _ => sridCache s' = sridCache s
  end.
Proof.
  start_run res Hres. unfold getLayerSrid in Hres. run_in Hres.
  destruct (sridCache s !! full layer) eqn:Hc; run_in Hres.
  { finish Hres. unfold sameCounters. repeat split; auto. }
  destruct replies as [|[b|m] rest]; run_in Hres; finish Hres; unfold sameCounters;
    repeat split; auto.
  - apply insert_subseteq, Hc.
  - intros k v. rewrite lookup_insert_Some.
    intros [[_ <-]|[_ H]]; [right; apply safeSrid_usable|left; exact H].
  - apply lookup_insert_eq.
Qed.

Lemma loadLayerInViewport_effects replies layer b s :
  let res := run replies (loadLayerInViewport layer b) s in
  let s' := finalState res in
  sridCache s ⊆ sridCache s' /\
  alertsOf (trace s') = alertsOf (trace s) /\
  match outcome res with
  | Done fc =>
      loaded s' = {[full layer]} ∪ loaded s /\
      (exists t,
         trace s' =
           MapApplyOrder (order s)
             :: MapSetLayerVisible (full layer) (bool_decide (full layer ∈ visible s))
             :: MapSetFeatures (full layer) fc :: t) /\
      (if b then featureCount s' = length fc /\ activeLayerLabel s' = full layer /\
                 srcBadge s' = "viewport"
       else sameCounters s s')
  | _ => loaded s' = loaded s /\ sameCounters s s'
  end.
Proof.
  start_run res Hres. unfold loadLayerInViewport in Hres. run_in Hres.
  rewrite run_bind in Hres.
  pose proof (getLayerSrid_effects replies layer s) as H. cbn zeta in H.
  pose proof (getLayerSrid_run replies layer s) as H'. cbn zeta in H'.
  destruct (run replies (getLayerSrid layer) s) as [[s1 o1] rest1].
  unfold finalState, outcome in H, H'. cbn [fst snd] in H, H'.
  destruct H as (Hsub & Hl & Hal & (Hc1 & Hc2 & Hc3) & _ & _).
  destruct H' as (_ & (_ & _ & Hv & Ho & _) & _).
  unfold sameCounters.
  destruct o1 as [srid|m|q k]; run_in Hres.
  2,3: finish Hres; repeat split; auto.
  destruct rest1 as [|[d|m] rest2]; run_in Hres.
  - finish Hres. repeat split; auto.
  - destruct b; run_in Hres; finish Hres.
    all: split; [exact Hsub|]; split; [exact Hal|].
    all: split; [rewrite Hl; reflexivity|].
    all: split; [rewrite Hv, Ho; eexists; reflexivity|].
    all: repeat split; auto.
  - finish Hres. repeat split; auto.
Qed.

(** X8.  loadLayerInViewport marks a layer loaded exactly when it returns:
    then the map has been given the features, told to show the layer if and
    only if it is in the visible set, and re-stacked, in that order, and the
    counters show the layer and its number of features when asked to.  A
    load that throws or is still waiting leaves the loaded set and the
    counters alone.  In every case the catalog, the active layer, the visible
    set, the order and the rows are untouched, no alert is raised, and the
    cache only grows. *)
Theorem loadLayerInViewport_marks_loaded (replies : list Reply) (layer : Layer)
    (b : bool) (s : State) :
  let res := run replies (loadLayerInViewport layer b) s in
  let s' := finalState res in
  sameRegistry s s' /\ sridCache s ⊆ sridCache s' /\
  alertsOf (trace s') = alertsOf (trace s) /\
  match outcome res with
  | Done fc =>
      loaded s' = {[full layer]} ∪ loaded s /\
      (exists t,
         trace s' =
           MapApplyOrder (order s)
             :: MapSetLayerVisible (full layer) (bool_decide (full layer ∈ visible s))
             :: MapSetFeatures (full layer) fc :: t) /\
      (if b then featureCount s' = length fc /\ activeLayerLabel s' = full layer /\
                 srcBadge s' = "viewport"
       else sameCounters s s')
  | _ => loaded s' = loaded s /\ sameCounters s s'
  end.
Proof.
  cbn zeta. split; [apply (loadLayerInViewport_run replies layer b s)|].
  apply (loadLayerInViewport_effects replies layer b s).
Qed.

Lemma runActiveViewportLoad_effects replies s :
  let res := run replies runActiveViewportLoad s in
  let s' := finalState res in
  alertsOf (trace s') = alertsOf (trace s) /\
  ((active s = None \/ exists a, active s = Some a /\ full a ∉ visible s) ->
   res = (s, Done None, replies)).
Proof.
  start_run res Hres. unfold runActiveViewportLoad in Hres. run_in Hres.
  destruct (active s) as [a|] eqn:Hact; run_in Hres.
  2: { finish Hres. split; [reflexivity|]. intros _. reflexivity. }
  destruct (bool_decide (full a ∈ visible s)) eqn:Hv; run_in Hres.
  2: { finish Hres. split; [reflexivity|]. intros _. reflexivity. }
  apply bool_decide_eq_true in Hv.
  rewrite run_bind in Hres.
  pose proof (loadLayerInViewport_effects replies a true s) as H. cbn zeta in H.
  destruct (run replies (loadLayerInViewport a true) s) as [[s1 o1] rest1].
  unfold finalState, outcome in H. cbn [fst snd] in H. destruct H as (_ & Hal & _).
  assert (Hno : (Some a = None \/ exists a0, Some a = Some a0 /\ full a0 ∉ visible s) -> False).
  { intros [?|(a0 & [= <-] & Hn)]; [discriminate|contradiction]. }
  destruct o1 as [fc|m|q k]; run_in Hres; finish Hres.
  all: split; [exact Hal|]; intros Hx; exfalso; apply Hno; exact Hx.
Qed.

(** X9.  The Reload button and the map-move listener reload the active
    layer and never let an error escape.  When there is no active layer, or
    the active layer is not visible, both do nothing: no request, no change.
    A failure of the reload raises one alert with the message for the
    button, and nothing at all for the map move. *)
Theorem reload_handlers (replies : list Reply) (s : State) :
  let r1 := run replies btnReload s in
  let r2 := run replies onMoveEnd s in
  (forall m, outcome r1 <> Threw m) /\ (forall m, outcome r2 <> Threw m) /\
  alertsOf (trace (finalState r2)) = alertsOf (trace s) /\
  match outcome (run replies runActiveViewportLoad s) with
  | Threw m => alertsOf (trace (finalState r1)) = messageOf m :: alertsOf (trace s)
  | _ => alertsOf (trace (finalState r1)) = alertsOf (trace s)
  end /\
  ((active s = None \/ exists a, active s = Some a /\ full a ∉ visible s) ->
   r1 = (s, Done tt, replies) /\ r2 = (s, Done tt, replies)).
Proof.
  cbn zeta. unfold btnReload, onMoveEnd. rewrite !run_try_catch, !run_bind.
  pose proof (runActiveViewportLoad_effects replies s) as H. cbn zeta in H.
  destruct (run replies runActiveViewportLoad s) as [[s1 o1] rest1].
  unfold finalState, outcome in *. cbn [fst snd] in H. destruct H as (Hal & Hidle).
  destruct o1 as [fc|m|q k]; rewrite ?run_Ret, ?run_Throw; unfold alert;
    rewrite ?run_modify; cbn [fst snd trace emit alertsOf].
  all: split; [discriminate|]; split; [discriminate|]; split; [exact Hal|].
  all: split; [first [exact Hal|rewrite Hal; reflexivity]|].
  all: intros Hx; specialize (Hidle Hx); try discriminate.
  injection Hidle as -> _ ->. split; reflexivity.
Qed.


(** X11.  A click on the row of a layer known to be empty makes the layer
    active, renders the list, shows zero features and stops: no request is
    sent, nothing reaches the map, and the visible and loaded sets, the order
    and the cache are as before. *)
Theorem rowClick_empty (r : RowEl) (s : State) (replies : list Reply) :
  r_emptyGeom r = true ->
  let res := run replies (rowClick r) s in
  let s' := finalState res in
  outcome res = Done tt /\ res.2 = replies /\
  active s' = Some (r_layer r) /\
  untouched (set_active (active s) s') s /\ trace s' = trace s /\
  featureCount s' = 0 /\ activeLayerLabel s' = full (r_layer r) /\
  rowEls s' = rowEls (rendered (layerSearch s) (set_active (Some (r_layer r)) s)).
Proof.
  intros He. start_run res Hres. unfold rowClick in Hres. run_in Hres.
  rewrite He in Hres. run_in Hres.
  finish Hres. unfold untouched. cbn. repeat split.
Qed.

(** X12.  The change handler of a checkbox.  Unticking removes the layer
    from the visible set and hides it on the map, without a request.
    Ticking a layer that is loaded adds it to the visible set, shows it and
    re-stacks the map, again without a request: a loaded layer is not
    queried anew.  Ticking a layer that is not loaded starts a load, and
    when the load returns the layer is visible and loaded and no alert was
    raised. *)
Theorem cbChange_cases (r : RowEl) (s : State) (replies : list Reply) :
  let id := full (r_layer r) in
  let res := run replies (cbChange r) s in
  let s' := finalState res in
  if cbChecked (el r) s then
    if bool_decide (id ∈ loaded s) then
      res = (emit (MapApplyOrder (order s)) (emit (MapSetLayerVisible id true)
               (set_visible ({[id]} ∪ visible s) s)), Done tt, replies)
    else
      match outcome (run replies (loadLayerInViewport (r_layer r) (r_isActive r))
                       (set_visible ({[id]} ∪ visible s) s)) with
      | Done _ =>
          outcome res = Done tt /\ visible s' = {[id]} ∪ visible s /\
          loaded s' = {[id]} ∪ loaded s /\ alertsOf (trace s') = alertsOf (trace s)
      | Threw m =>
          outcome res = Done tt /\ visible s' = visible s ∖ {[id]} /\
          loaded s' = loaded s /\ alertsOf (trace s') = messageOf m :: alertsOf (trace s)
      | Waiting _ _ =>
          visible s' = {[id]} ∪ visible s /\ loaded s' = loaded s
      end
  else
    res = (emit (MapSetLayerVisible id false) (set_visible (visible s ∖ {[id]}) s),
           Done tt, replies).
Proof.
  cbn zeta. unfold cbChange.
  remember (run replies _ s) as res eqn:Hres. rewrite Hres. clear Hres res.
  remember (run replies _ s) as res eqn:Hres in |- *.
  run_in Hres.
  destruct (cbChecked (el r) s); run_in Hres; [|exact Hres].
  state_cbn in Hres.
  destruct (bool_decide (full (r_layer r) ∈ loaded s)) eqn:Hl; rewrite ?Hl in Hres;
    cbn [negb] in Hres; run_in Hres; [exact Hres|].
  rewrite run_try_catch, run_bind in Hres.
  pose proof (loadLayerInViewport_effects replies (r_layer r) (r_isActive r)
                (set_visible ({[full (r_layer r)]} ∪ visible s) s)) as H.
  pose proof (loadLayerInViewport_run replies (r_layer r) (r_isActive r)
                (set_visible ({[full (r_layer r)]} ∪ visible s) s)) as H'.
  cbn zeta in H, H'.
  destruct (run replies (loadLayerInViewport (r_layer r) (r_isActive r))
              (set_visible ({[full (r_layer r)]} ∪ visible s) s)) as [[s1 o1] rest1].
  unfold finalState, outcome, sameRegistry in *. cbn [fst snd] in *.
  state_cbn in H. state_cbn in H'.
  destruct H as (_ & Hal & H). destruct H' as ((_ & _ & Hv & _) & _).
  destruct o1 as [fc|m|q k]; rewrite ?run_Ret, ?run_Throw in Hres; run_in Hres;
    subst res; cbn [fst snd].
  - destruct H as (Hld & _). repeat split; assumption.
  - destruct H as (Hld & _). unfold setChecked. state_cbn. cbn [alertsOf].
    rewrite Hv, Hal, Hld. repeat split. apply difference_union_singleton.
  - destruct H as (Hld & _). split; assumption.
Qed.


(** X14.  When the counts query fails, init goes on with the catalog as it
    is: every layer keeps a null count, so the first layer is active and
    visible, the order is the catalog order, the handlers are bound, and the
    load of the first layer has started (init waits for its reference). *)
Theorem init_counts_rejected (v : BBox) (c : Body) (m : string) (l0 : Layer)
    (ls : list Layer) :
  catalogLayers c = l0 :: ls ->
  let res := run [Resolved c; Rejected m] init (initialState v) in
  let s := finalState res in
  layers s = l0 :: ls /\ Forall (fun l => geomCount l = None) (layers s) /\
  active s = Some l0 /\ visible s = {[full l0]} /\ loaded s = ∅ /\
  order s = List.map full (l0 :: ls) /\ bound s = true /\
  alertsOf (trace s) = [] /\
  exists k, outcome res = Waiting (PostQuery QSrid (sridSQL l0)) k.
Proof.
  intros Hc. start_run res Hres.
  assert (Hnull : Forall (fun l => geomCount l = None) (l0 :: ls)).
  { rewrite <- Hc. apply Forall_forall. intros l Hl. apply (catalog_count c), Hl. }
  assert (Hd : hasData l0 = true).
  { unfold hasData. rewrite (Forall_inv Hnull). reflexivity. }
  unfold init, loadLayerCatalog, initialState in Hres. run_in Hres.
  rewrite Hc in Hres. run_in Hres.
  rewrite run_bind, hydrateGeomCounts_rejected in Hres by discriminate.
  unfold initHydrated, pickActive, ensureOrderInitialized, loadLayerInViewport,
    getLayerSrid in Hres.
  cbn [List.find] in Hres. rewrite Hd in Hres.
  repeat (progress (run_in Hres; state_cbn in Hres; rewrite ?Hd, ?lookup_empty in Hres)).
  finish Hres. cbn.
  repeat split; try assumption; try reflexivity.
  - apply (right_id_L ∅ (∪)).
  - eexists. reflexivity.
Qed.

Lemma Inert_step t w ev : Inert t w -> Inert t (step w ev).
Proof.
  intros (Hp & Hb & Hr & Hrest).
  destruct ev as [i r|i|i|i|i|text|text| | | | |v]; cbn -[launch];
    rewrite ?Hp, ?Hb, ?Hr; cbn; repeat split; try tauto.
Qed.

Lemma Inert_steps t w evs : Inert t w -> Inert t (steps w evs).
Proof.
  revert w. induction evs as [|ev evs IH]; intros w Hw; cbn; [exact Hw|].
  apply IH, Inert_step, Hw.
Qed.

(** X15.  When the catalog request fails, or the catalog lists no table with
    geometry, start-up stops there: init sends no other request, renders no
    row and binds no handler.  Whatever the user or the services do next,
    the registry stays empty, no request is sent and nothing reaches the
    map. *)
Theorem init_without_layers (v : BBox) (r : Reply) (evs : list Event) :
  match r with
  | Rejected _ => True
  | Resolved c => catalogLayers c = []
  end ->
  Inert [Fetch GetCatalog; MapInit] (steps (boot v) (Answer 0 r :: evs)).
Proof.
  intros Hr. cbn [steps fold_left]. apply Inert_steps.
  unfold boot, init, loadLayerCatalog, Inert. cbn -[catalogLayers].
  destruct r as [c|m]; cbn -[catalogLayers].
  - rewrite Hr. cbn. repeat split.
  - repeat split.
Qed.

End Handlers.

(** ** The rendering surface *)

Section SurfaceFacts.

Lemma surfaceOk_empty : surfaceOk emptySurface.
Proof.
  split; cbn.
  - intros id e H. rewrite lookup_empty in H. discriminate.
  - intros id. split.
    + intros H. apply elem_of_empty in H. contradiction.
    + intros (e & H & _). rewrite lookup_empty in H. discriminate.
Qed.

(** Writing an entry that keeps its pane, and drawing it as its flag says. *)
Lemma surfaceOk_update m k e e' :
  surfaceOk m -> m_layers m !! k = Some e -> e_paneId e' = e_paneId e ->
  surfaceOk (mkSurface (<[k := e']> (m_layers m))
               (if e_visible e' then {[k]} ∪ m_shown m else m_shown m ∖ {[k]})
               (m_panes m) (m_zIndex m)).
Proof.
  intros [Hp Hs] Hk He. split; cbn.
  - intros id x. rewrite lookup_insert_Some. intros [[_ <-]|[_ Hx]].
    + rewrite He. apply (Hp _ _ Hk).
    + apply (Hp _ _ Hx).
  - intros id. destruct (decide (k = id)) as [->|Hne].
    + rewrite lookup_insert_eq. destruct (e_visible e') eqn:Hv.
      * split; [intros _; eauto|]. intros _. apply elem_of_union_l, elem_of_singleton.
        reflexivity.
      * split.
        -- intros H. apply elem_of_difference in H as [_ H].
           exfalso. apply H, elem_of_singleton. reflexivity.
        -- intros (x & [= <-] & Hx). congruence.
    + rewrite lookup_insert_ne by exact Hne. rewrite <- Hs.
      destruct (e_visible e').
      * rewrite elem_of_union, elem_of_singleton. split; [|auto].
        intros [->|H]; [contradiction|exact H].
      * rewrite elem_of_difference, elem_of_singleton. split; [tauto|].
        intros H. split; [exact H|]. congruence.
Qed.

Lemma ensureLayer_ok layerId nm m :
  surfaceOk m ->
  surfaceOk (ensureLayer layerId nm m).2 /\
  m_layers (ensureLayer layerId nm m).2 !! layerKey layerId = Some (ensureLayer layerId nm m).1 /\
  match m_layers m !! layerKey layerId with
  | Some e => ensureLayer layerId nm m = (e, m)
  | None =>
      e_visible (ensureLayer layerId nm m).1 = true /\
      e_features (ensureLayer layerId nm m).1 = [] /\
      e_paneId (ensureLayer layerId nm m).1 = safePaneId (layerKey layerId)
  end.
Proof.
  intros Hok. unfold ensureLayer.
  destruct (m_layers m !! layerKey layerId) as [e|] eqn:Hk; cbn.
  { auto. }
  split; [|split; [apply lookup_insert_eq|auto]].
  destruct Hok as [Hp Hs]. split; cbn.
  - intros id x. rewrite lookup_insert_Some. intros [[_ <-]|[_ Hx]]; cbn.
    + apply elem_of_union_l, elem_of_singleton. reflexivity.
    + apply elem_of_union_r, (Hp _ _ Hx).
  - intros id. rewrite elem_of_union, elem_of_singleton.
    destruct (decide (layerKey layerId = id)) as [->|Hne].
    + rewrite lookup_insert_eq. split; [eauto|auto].
    + rewrite lookup_insert_ne by exact Hne. rewrite <- Hs. split; [|auto].
      intros [->|H]; [contradiction|exact H].
Qed.

Lemma layerKey_idem id : layerKey (layerKey id) = layerKey id.
Proof.
  unfold layerKey. destruct (String.eqb_spec id "") as [->|Hne]; [reflexivity|].
  apply String.eqb_neq in Hne. rewrite Hne. reflexivity.
Qed.

Lemma featuresKey_key id nm : layerKey (featuresKey id nm) = featuresKey id nm.
Proof.
  unfold featuresKey, layerKey.
  destruct (String.eqb id "") eqn:H1; cbn; [|rewrite H1; reflexivity].
  destruct (String.eqb nm "") eqn:H2; cbn; [reflexivity|rewrite H2; reflexivity].
Qed.

Lemma setFeatures_ok fc id nm m : surfaceOk m -> surfaceOk (setFeatures fc id nm m).
Proof.
  intros Hok. unfold setFeatures.
  set (k := featuresKey id nm).
  destruct (ensureLayer_ok k (if String.eqb nm "" then k else nm) m Hok) as (Hok1 & Hk & _).
  destruct (ensureLayer k _ m) as [e m1]. cbn [fst snd] in *.
  subst k. rewrite featuresKey_key in *.
  apply (surfaceOk_update m1 _ e (mkEntry _ _ (e_visible e) _) Hok1 Hk). reflexivity.
Qed.

Lemma setLayerVisible_ok id on m : surfaceOk m -> surfaceOk (setLayerVisible id on m).
Proof.
  intros Hok. unfold setLayerVisible.
  destruct (m_layers m !! layerKey id) as [e|] eqn:Hk; [|exact Hok].
  apply (surfaceOk_update m _ e (mkEntry _ _ on _) Hok Hk). reflexivity.
Qed.

Lemma orderFrom_same i ids m :
  m_layers (orderFrom i ids m) = m_layers m /\ m_shown (orderFrom i ids m) = m_shown m /\
  m_panes (orderFrom i ids m) = m_panes m.
Proof.
  revert i m. induction ids as [|id ids IH]; intros i m; cbn [orderFrom]; [auto|].
  destruct (IH (S i) (orderOne i id m)) as (-> & -> & ->).
  unfold orderOne. destruct (m_layers m !! id); [|auto].
  destruct (bool_decide _); auto.
Qed.

Lemma applyOrder_ok ids m : surfaceOk m -> surfaceOk (applyOrder ids m).
Proof.
  unfold applyOrder, surfaceOk.
  destruct (orderFrom_same 0 ids m) as (-> & -> & ->). auto.
Qed.

Lemma clear_ok id m : surfaceOk m -> surfaceOk (clear id m).
Proof.
  intros [Hp Hs]. unfold clear. destruct (String.eqb id "").
  - split; cbn.
    + intros k e H. rewrite lookup_empty in H. discriminate.
    + intros k. rewrite elem_of_difference, elem_of_dom. split.
      * intros [Hk Hn]. exfalso. apply Hn. apply Hs in Hk as (e & He & _). eauto.
      * intros (e & H & _). rewrite lookup_empty in H. discriminate.
  - destruct (m_layers m !! id) as [e|] eqn:Hk; [|split; assumption].
    split; cbn.
    + intros k x. rewrite lookup_delete_Some. intros [_ Hx]. apply (Hp _ _ Hx).
    + intros k. rewrite elem_of_difference, elem_of_singleton, Hs. split.
      * intros [(x & Hx & Hv) Hne]. exists x. split; [|exact Hv].
        apply lookup_delete_Some. split; [congruence|exact Hx].
      * intros (x & Hx & Hv). apply lookup_delete_Some in Hx as [Hne Hx].
        split; [eauto|congruence].
Qed.

Lemma call_ok m c : surfaceOk m -> surfaceOk (call m c).
Proof.
  destruct c; cbn [call];
    auto using setFeatures_ok, setLayerVisible_ok, applyOrder_ok, clear_ok.
Qed.

Lemma perform_ok e g :
  (forall m, g = Some m -> surfaceOk m) -> forall m, perform e g = Some m -> surfaceOk m.
Proof.
  intros Hg m. destruct e; cbn [perform]; unfold gcInit, gcCall;
    destruct g as [m0|]; intros [= <-];
    auto using surfaceOk_empty, setFeatures_ok, setLayerVisible_ok, applyOrder_ok, clear_ok.
Qed.

(** X16.  Whatever calls GCMapCore receives, a layer is drawn on the map
    exactly when it is registered and its entry is flagged visible, and
    every registered layer has its pane.  The same holds of the surface a log
    of the page leaves. *)
Theorem surface_consistent (calls : list Call) (t : list Effect) :
  surfaceOk (fold_left call calls emptySurface) /\
  (forall m, surfaceOf t = Some m -> surfaceOk m).
Proof.
  split.
  - assert (H : forall m, surfaceOk m -> surfaceOk (fold_left call calls m)).
    { induction calls as [|c calls IH]; intros m Hm; cbn; [exact Hm|].
      apply IH, call_ok, Hm. }
    apply H, surfaceOk_empty.
  - induction t as [|e t IH]; cbn [surfaceOf fold_right]; [discriminate|].
    apply perform_ok, IH.
Qed.


Lemma orderFrom_untouched p n ids m :
  (forall j b eb, ids !! j = Some b -> m_layers m !! b = Some eb -> e_paneId eb <> p) ->
  m_zIndex (orderFrom n ids m) !! p = m_zIndex m !! p.
Proof.
  revert n m. induction ids as [|a ids IH]; intros n m H; cbn [orderFrom]; [reflexivity|].
  assert (Hl : m_layers (orderOne n a m) = m_layers m).
  { unfold orderOne. destruct (m_layers m !! a); [|reflexivity].
    destruct (bool_decide _); reflexivity. }
  rewrite IH.
  - unfold orderOne. destruct (m_layers m !! a) as [e|] eqn:Ha; [|reflexivity].
    destruct (bool_decide _); [|reflexivity]. cbn.
    apply lookup_insert_ne. apply (H 0 a e); [reflexivity|exact Ha].
  - intros j b eb Hj. rewrite Hl. apply (H (S j)). exact Hj.
Qed.

Lemma orderFrom_stacks n ids m :
  surfaceOk m ->
  (forall i j a b ea eb, ids !! i = Some a -> ids !! j = Some b ->
     m_layers m !! a = Some ea -> m_layers m !! b = Some eb ->
     e_paneId ea = e_paneId eb -> i = j) ->
  forall i a e, ids !! i = Some a -> m_layers m !! a = Some e ->
    m_zIndex (orderFrom n ids m) !! e_paneId e = Some (400 + (n + i)).
Proof.
  revert n m. induction ids as [|a0 ids IH]; intros n m Hok Hd i a e Hi Ha; [discriminate|].
  cbn [orderFrom].
  assert (Hl : m_layers (orderOne n a0 m) = m_layers m /\
               m_shown (orderOne n a0 m) = m_shown m /\
               m_panes (orderOne n a0 m) = m_panes m).
  { unfold orderOne. destruct (m_layers m !! a0); [|auto].
    destruct (bool_decide _); auto. }
  destruct Hl as (Hl & Hsh & Hpn).
  destruct i as [|i].
  - injection Hi as <-. rewrite orderFrom_untouched.
    + unfold orderOne. rewrite Ha.
      rewrite bool_decide_eq_true_2 by (apply (proj1 Hok _ _ Ha)).
      cbn. rewrite lookup_insert_eq. f_equal. lia.
    + intros j b eb Hj. rewrite Hl. intros Hb Heq.
      specialize (Hd (S j) 0 b a0 eb e Hj eq_refl Hb Ha Heq). discriminate.
  - replace (n + S i) with (S n + i) by lia. eapply (IH (S n) (orderOne n a0 m)) with (a := a).
    + unfold surfaceOk. rewrite Hl, Hsh, Hpn. exact Hok.
    + intros i1 j1 a1 b1 ea eb H1 H2. rewrite Hl. intros H3 H4 H5.
      specialize (Hd (S i1) (S j1) a1 b1 ea eb H1 H2 H3 H4 H5). lia.
    + exact Hi.
    + rewrite Hl. exact Ha.
Qed.

(** X18.  applyOrder stacks the registered layers as the list says: when no
    two listed layers share a pane, the pane of the layer at index [i] gets
    z-index 400 + [i], so a layer later in the list is drawn above an earlier
    one; identifiers without a layer are skipped. *)
Theorem applyOrder_stacks (m : Surface) (ids : list string) :
  surfaceOk m ->
  (forall i j a b ea eb, ids !! i = Some a -> ids !! j = Some b ->
     m_layers m !! a = Some ea -> m_layers m !! b = Some eb ->
     e_paneId ea = e_paneId eb -> i = j) ->
  (forall i a e, ids !! i = Some a -> m_layers m !! a = Some e ->
     m_zIndex (applyOrder ids m) !! e_paneId e = Some (400 + i)) /\
  (forall i j a b ea eb za zb, i < j ->
     ids !! i = Some a -> ids !! j = Some b ->
     m_layers m !! a = Some ea -> m_layers m !! b = Some eb ->
     m_zIndex (applyOrder ids m) !! e_paneId ea = Some za ->
     m_zIndex (applyOrder ids m) !! e_paneId eb = Some zb -> za < zb).
Proof.
  intros Hok Hd.
  assert (H : forall i a e, ids !! i = Some a -> m_layers m !! a = Some e ->
            m_zIndex (applyOrder ids m) !! e_paneId e = Some (400 + i)).
  { intros i a e Hi Ha. apply (orderFrom_stacks 0 ids m Hok Hd i a e Hi Ha). }
  split; [exact H|].
  intros i j a b ea eb za zb Hij Hi Hj Ha Hb.
  rewrite (H i a ea Hi Ha), (H j b eb Hj Hb). intros [= <-] [= <-]. lia.
Qed.

Lemma dashed_app a b : dashed (a +:+ b) = dashed a +:+ dashed b.
Proof.
  induction a as [|x a IH]; [reflexivity|].
  rewrite app_cons. cbn [dashed]. rewrite IH. reflexivity.
Qed.

Lemma dashed_chars s c : hasChar c (dashed s) = true -> paneChar c = true.
Proof.
  induction s as [|a s IH]; [discriminate|]. cbn [dashed hasChar].
  rewrite orb_true_iff. intros [H|H]; [|apply IH, H].
  apply Ascii.eqb_eq in H. subst c. destruct (paneChar a) eqn:Ha; [exact Ha|reflexivity].
Qed.

Lemma dashed_fixed s : (forall c, hasChar c s = true -> paneChar c = true) -> dashed s = s.
Proof.
  induction s as [|a s IH]; intros H; [reflexivity|]. cbn [dashed].
  rewrite (H a) by (cbn; rewrite Ascii.eqb_refl; reflexivity).
  rewrite IH; [reflexivity|]. intros c Hc. apply H. cbn. rewrite Hc. apply orb_true_r.
Qed.

(** X19.  safePaneId writes gc- in front of the identifier with every
    character that is no ASCII letter, digit, underscore or dash turned into
    a dash: the result holds only such characters, and an identifier made of
    them is kept as it is.  It is not one-to-one: identifiers that differ by
    a dot against a dash get the same pane. *)
Theorem safePaneId_safe (id a b : string) :
  safePaneId id = "gc-" +:+ dashed id /\
  (forall c, hasChar c (safePaneId id) = true -> paneChar c = true) /\
  ((forall c, hasChar c id = true -> paneChar c = true) -> safePaneId id = "gc-" +:+ id) /\
  safePaneId (a +:+ "." +:+ b) = safePaneId (a +:+ "-" +:+ b).
Proof.
  split; [reflexivity|]. split; [|split].
  - intros c. unfold safePaneId. rewrite hasChar_app, orb_true_iff.
    intros [H|H]; [|apply (dashed_chars id), H].
    cbn [hasChar] in H. rewrite !orb_true_iff in H.
    destruct H as [H|[H|[H|H]]]; try discriminate;
      apply Ascii.eqb_eq in H; subst c; reflexivity.
  - intros H. unfold safePaneId. rewrite dashed_fixed by exact H. reflexivity.
  - unfold safePaneId. rewrite !dashed_app. reflexivity.
Qed.

End SurfaceFacts.

Section Clamp.
Context {host : Host}.


End Clamp.

(** ** Invariants of the loaded set, the cache and the log

    A property [P] of the three that every write of the code respects holds
    in every state the page reaches, suspended handlers included. *)

Section Tracked.
Context {host : Host}.
Context (P : gset string -> gmap string Js.num -> list Effect -> Prop).

Hypothesis P_init : forall l c t, P l c t -> P l c (MapInit :: t).
Hypothesis P_fetch : forall q l c t, P l c t -> P l c (Fetch q :: t).
Hypothesis P_alert : forall m l c t, P l c t -> P l c (Alert m :: t).
Hypothesis P_fit : forall e l c t, P l c t -> P l c (MapFitBounds e :: t).
Hypothesis P_order : forall ids l c t, P l c t -> P l c (MapApplyOrder ids :: t).
Hypothesis P_show : forall id b l c t, P l c t -> P l c (MapSetLayerVisible id b :: t).
Hypothesis P_srid : forall k y l c t, P l c t -> P l (<[k := safeSrid y]> c) t.
Hypothesis P_load : forall id fc l c t, P l c t -> P ({[id]} ∪ l) c (MapSetFeatures id fc :: t).
Hypothesis P_clear : forall l c t, P l c t -> P ∅ ∅ (MapClear :: t).

Let I : State -> Prop := tracked P.

Ltac psolve := unfold I, tracked in *; cbn in *; eauto 12.

Lemma tracked_frame s s' :
  loaded s' = loaded s -> sridCache s' = sridCache s -> trace s' = trace s -> I s -> I s'.
Proof. unfold I, tracked. intros -> -> ->. auto. Qed.

Lemma T_getLayerSrid layer s : I s -> keeps I (getLayerSrid layer) s.
Proof.
  intros Hs. unfold keeps, getLayerSrid. cbn.
  destruct (sridCache s !! full layer) eqn:Hc; cbn; [exact Hs|].
  split; [psolve|]. intros [b|m] s' Hs'; cbn; psolve.
Qed.

Lemma T_getLayerExtent4326 layer s : I s -> keeps I (getLayerExtent4326 layer) s.
Proof.
  intros Hs. unfold getLayerExtent4326.
  eapply keeps_bind; [apply T_getLayerSrid; assumption| |auto].
  intros srid s' Hs'. cbn. split; [psolve|]. intros [b|m] s'' Hs''; cbn; auto.
Qed.

Lemma T_loadLayerInViewport layer b s : I s -> keeps I (loadLayerInViewport layer b) s.
Proof.
  intros Hs. unfold keeps, loadLayerInViewport. wp_cbn.
  eapply keeps_bind; [apply T_getLayerSrid; assumption| |auto].
  intros srid s' Hs'. cbn. split; [psolve|]. intros [d|m] s'' Hs''; cbn; auto.
  destruct b; psolve.
Qed.

Lemma T_runActiveViewportLoad s : I s -> keeps I runActiveViewportLoad s.
Proof.
  intros Hs. unfold keeps, runActiveViewportLoad. wp_cbn.
  destruct (active s) as [a|]; wp_cbn; auto.
  destruct (bool_decide _); wp_cbn; auto.
  eapply keeps_bind; [apply T_loadLayerInViewport; assumption|cbn; auto|auto].
Qed.

Lemma T_fitBounds4326 ext s : I s -> keeps I (fitBounds4326 ext) s.
Proof.
  intros Hs. unfold keeps, fitBounds4326. cbn.
  destruct (_ || _); psolve.
Qed.

Lemma T_fitAndRetry {A} layer (reload : Prog A) s :
  (forall s', I s' -> keeps I reload s') -> I s -> keeps I (fitAndRetry layer reload) s.
Proof.
  intros Hr Hs. unfold keeps, fitAndRetry.
  eapply keeps_bind; [apply T_getLayerExtent4326; assumption| |auto].
  intros [r|] s' Hs'; wp_cbn; auto.
  destruct (negb _); wp_cbn; auto.
  eapply keeps_bind; [apply T_fitBounds4326; assumption| |auto].
  intros _ s'' Hs''. eapply keeps_bind; [apply Hr; assumption|cbn; auto|auto].
Qed.

Lemma T_renderLayerList ft s : I s -> keeps I (renderLayerList ft) s.
Proof. intros Hs. unfold keeps, renderLayerList. cbn. exact Hs. Qed.

Lemma T_moveLayer id dir s : I s -> keeps I (moveLayer id dir) s.
Proof.
  intros Hs. unfold keeps, moveLayer. wp_cbn.
  destruct (movedOrder _ _ _); wp_cbn; auto.
  apply T_renderLayerList. psolve.
Qed.

Lemma T_reload (h : string -> Prog unit) s :
  (forall m s', I s' -> keeps I (h m) s') ->
  I s -> keeps I (try_catch (runActiveViewportLoad ;; Ret tt) h) s.
Proof.
  intros Hh Hs. eapply keeps_try_catch; [|auto|exact Hh].
  eapply keeps_bind; [apply T_runActiveViewportLoad; assumption|cbn; auto|auto].
Qed.

Lemma T_btnReload s : I s -> keeps I btnReload s.
Proof. apply T_reload. intros m s' Hs'. cbn. psolve. Qed.

Lemma T_onMoveEnd s : I s -> keeps I onMoveEnd s.
Proof. apply T_reload. intros m s' Hs'. exact Hs'. Qed.

Lemma T_btnClear s : I s -> keeps I btnClear s.
Proof. intros Hs. unfold keeps, btnClear. cbn. psolve. Qed.

Lemma T_btnRunSql s : I s -> keeps I btnRunSql s.
Proof.
  intros Hs. unfold keeps, btnRunSql. cbn.
  destruct (String.eqb _ _); cbn; auto.
  split; [psolve|]. intros [d|m] s' Hs'; cbn; [|psolve].
  destruct (rowsToFeatureCollection _); cbn; [psolve|].
  destruct (bool_decide _); psolve.
Qed.

Lemma T_cbChange r s : I s -> keeps I (cbChange r) s.
Proof.
  intros Hs. unfold keeps, cbChange. wp_cbn.
  destruct (cbChecked _ _); wp_cbn; [|psolve].
  destruct (negb _); wp_cbn; [|psolve].
  eapply keeps_try_catch; [|auto|intros m s' Hs'; cbn; psolve].
  eapply keeps_bind; [apply T_loadLayerInViewport; psolve|cbn; auto|auto].
Qed.

Lemma T_rowClick r s : I s -> keeps I (rowClick r) s.
Proof.
  intros Hs. unfold keeps, rowClick. wp_cbn.
  eapply keeps_bind; [apply T_renderLayerList; psolve| |auto].
  intros _ s1 Hs1. destruct (r_emptyGeom r); wp_cbn; [psolve|].
  eapply keeps_try_catch; [|auto|intros m s' Hs'; cbn; psolve].
  unfold keeps. wp_cbn. destruct (negb _); wp_cbn.
  - eapply keeps_bind; [apply T_loadLayerInViewport; psolve| |auto].
    intros _ s2 Hs2. wp_cbn. destruct (Nat.eqb _ _); wp_cbn; auto.
    apply T_fitAndRetry; auto. intros. apply T_loadLayerInViewport; auto.
  - eapply keeps_bind; [apply T_runActiveViewportLoad; psolve| |auto].
    intros [[|? ?]|] s2 Hs2; wp_cbn; auto;
      apply T_fitAndRetry; auto; intros; apply T_runActiveViewportLoad; auto.
Qed.

Lemma T_initHydrated ls s : I s -> keeps I (initHydrated ls) s.
Proof.
  intros Hs. unfold keeps, initHydrated. wp_cbn.
  eapply (keeps_bind I ensureOrderInitialized).
  { unfold keeps, ensureOrderInitialized. cbn. destruct (order _); psolve. }
  2: auto.
  intros _ s1 Hs1. wp_cbn.
  destruct (pickActive ls) as [a|]; wp_cbn.
  2: { eapply keeps_bind; [apply T_renderLayerList; psolve|cbn; auto|auto]. }
  eapply (keeps_bind I (if hasData a then _ else _)).
  { destruct (hasData a); cbn; psolve. }
  2: auto.
  intros _ s2 Hs2.
  eapply keeps_bind; [apply T_renderLayerList; psolve| |auto].
  intros _ s3 Hs3. wp_cbn. destruct (hasData a); wp_cbn; [|psolve].
  eapply keeps_bind; [apply T_loadLayerInViewport; psolve| |auto].
  intros [|f fc] s4 Hs4; wp_cbn; [|exact Hs4].
  eapply keeps_try_catch; [|auto|intros; exact H].
  apply T_fitAndRetry; auto. intros. apply T_loadLayerInViewport; auto.
Qed.

Lemma T_init s : I s -> keeps I init s.
Proof.
  intros Hs. unfold keeps, init, loadLayerCatalog. cbn -[initHydrated hydrateGeomCounts].
  split; [psolve|]. intros [c|m] s1 Hs1; cbn -[initHydrated hydrateGeomCounts]; [|exact Hs1].
  destruct (catalogLayers c) as [|l0 ls]; cbn -[initHydrated hydrateGeomCounts]; [psolve|].
  apply wp_bind. cbn -[initHydrated]. split; [psolve|].
  intros [d|m] s2 Hs2; cbn -[initHydrated]; apply T_initHydrated; exact Hs2.
Qed.

Lemma T_step w ev : world_ok I w -> world_ok I (step w ev).
Proof.
  intros Hw. pose proof Hw as [Hs Hp].
  destruct ev as [i r|i|i|i|i|text|text| | | | |v]; cbn -[launch].
  - destruct (pending w !! i) as [t|] eqn:Ht; [|assumption].
    apply launch_ok.
    + split; [assumption|]. cbn. apply (Forall_delete _ _ _ Hp).
    + cbn. rewrite Forall_lookup in Hp. apply (Hp _ _ Ht); assumption.
  - destruct (rowEls (state w) !! i) as [r|] eqn:Hr; [|assumption].
    destruct (cb_disabled r) eqn:Hd; [assumption|].
    apply launch_ok; [split; cbn; auto|]. apply T_cbChange. exact Hs.
  - destruct (rowEls (state w) !! i) as [r|] eqn:Hr; [|assumption].
    apply launch_ok; [assumption|]. apply T_rowClick; auto.
  - destruct (rowEls (state w) !! i) as [r|] eqn:Hr; [|assumption].
    apply launch_ok; [assumption|]. apply T_moveLayer; auto.
  - destruct (rowEls (state w) !! i) as [r|] eqn:Hr; [|assumption].
    apply launch_ok; [assumption|]. apply T_moveLayer; auto.
  - destruct (bound (state w)).
    + apply launch_ok; [split; cbn; auto|]. apply T_renderLayerList. exact Hs.
    + split; cbn; auto.
  - split; cbn; auto.
  - destruct (bound (state w)); [|assumption].
    apply launch_ok; [assumption|]. apply T_btnReload; auto.
  - destruct (bound (state w)); [|assumption].
    apply launch_ok; [assumption|]. apply T_btnClear; auto.
  - destruct (bound (state w)); [|assumption].
    apply launch_ok; [assumption|]. apply T_btnRunSql; auto.
  - destruct (bound (state w)); [|assumption].
    apply launch_ok; [assumption|]. apply T_btnReload; auto.
  - destruct (bound (state w)).
    + apply launch_ok; [split; cbn; auto|]. apply T_onMoveEnd. exact Hs.
    + split; cbn; auto.
Qed.

Lemma T_reachable v evs : P ∅ ∅ [] -> world_ok I (steps (boot v) evs).
Proof.
  intros H0.
  assert (Hb : world_ok I (boot v)).
  { apply launch_ok; [split; [exact H0|constructor]|]. apply T_init. exact H0. }
  revert Hb. generalize (boot v). induction evs as [|ev evs IH]; intros w Hw; cbn; [exact Hw|].
  apply IH, T_step, Hw.
Qed.

End Tracked.

Section Reachable.
Context {host : Host}.

Lemma featuresKey_same id : featuresKey id id = layerKey id.
Proof. unfold featuresKey, layerKey. destruct (String.eqb id ""); reflexivity. Qed.

Lemma setFeatures_keys fc id nm m :
  dom (m_layers (setFeatures fc id nm m)) = {[featuresKey id nm]} ∪ dom (m_layers m).
Proof.
  unfold setFeatures, ensureLayer. rewrite !featuresKey_key.
  destruct (m_layers m !! featuresKey id nm) as [e|]; cbn [m_layers].
  - apply dom_insert_L.
  - rewrite !dom_insert_L. apply set_eq. intros x. rewrite !elem_of_union. tauto.
Qed.

Lemma setLayerVisible_keys id on m :
  dom (m_layers (setLayerVisible id on m)) = dom (m_layers m).
Proof.
  unfold setLayerVisible. destruct (m_layers m !! layerKey id) as [e|] eqn:Hk; [|reflexivity].
  cbn [m_layers]. rewrite dom_insert_L. apply set_eq. intros x.
  rewrite elem_of_union, elem_of_singleton. split; [|auto].
  intros [->|H]; [|exact H]. apply elem_of_dom. eauto.
Qed.

Lemma emptySurface_keys : dom (m_layers emptySurface) = (∅ : gset string).
Proof. apply dom_empty_L. Qed.

Lemma surfaceKeys_cons e t :
  surfaceKeys (e :: t) =
  match e with
  | MapSetFeatures id _ => {[layerKey id]} ∪ surfaceKeys t
  | MapClear => ∅
  | _ => surfaceKeys t
  end.
Proof.
  unfold surfaceKeys, surfaceOf. cbn [fold_right].
  destruct (fold_right perform None t) as [m|]; destruct e; cbn [perform gcInit gcCall];
    rewrite ?emptySurface_keys; try reflexivity.
  - rewrite setFeatures_keys, featuresKey_same. reflexivity.
  - apply setLayerVisible_keys.
  - unfold applyOrder. destruct (orderFrom_same 0 ids m) as (-> & _). reflexivity.
  - rewrite setFeatures_keys, featuresKey_same, emptySurface_keys. reflexivity.
Qed.

Lemma keysAreLoaded_same e l c t :
  surfaceKeys (e :: t) = surfaceKeys t -> keysAreLoaded l c t -> keysAreLoaded l c (e :: t).
Proof. unfold keysAreLoaded. intros ->. auto. Qed.

Lemma keysAreLoaded_reachable v evs :
  world_ok (tracked keysAreLoaded) (steps (boot v) evs).
Proof.
  apply T_reachable.
  1-6: intros; apply keysAreLoaded_same; [rewrite surfaceKeys_cons; reflexivity|assumption].
  - intros k y l c t H. exact H.
  - intros id fc l c t H k. rewrite surfaceKeys_cons, elem_of_union, elem_of_singleton, (H k).
    split.
    + intros [->|(x & Hx & <-)]; [exists id|exists x]; split; auto;
        [apply elem_of_union_l, elem_of_singleton; reflexivity|apply elem_of_union_r, Hx].
    + intros (x & Hx & <-). apply elem_of_union in Hx as [Hx|Hx].
      * apply elem_of_singleton in Hx. subst. auto.
      * right. eauto.
  - intros l c t _ k. rewrite surfaceKeys_cons. split.
    + intros H. apply elem_of_empty in H. contradiction.
    + intros (x & Hx & _). apply elem_of_empty in Hx. contradiction.
  - intros k. unfold surfaceKeys. cbn. split.
    + intros H. apply elem_of_empty in H. contradiction.
    + intros (x & Hx & _). apply elem_of_empty in Hx. contradiction.
Qed.

Lemma cacheUsable_reachable v evs :
  world_ok (tracked cacheUsable) (steps (boot v) evs).
Proof.
  apply T_reachable; try (intros; assumption).
  - intros k y l c t H k' v'. rewrite lookup_insert_Some.
    intros [[_ <-]|[_ Hk]]; [apply safeSrid_usable|apply (H _ _ Hk)].
  - intros l c t _ k x H. rewrite lookup_empty in H. discriminate.
  - intros k x H. rewrite lookup_empty in H. discriminate.
Qed.


(** X22.  In every state the page reaches, every reference in the cache is
    a finite positive number. *)
Theorem cache_is_usable (v : BBox) (evs : list Event) (k : string) (x : Js.num) :
  sridCache (state (steps (boot v) evs)) !! k = Some x -> usableSrid x.
Proof. apply (proj1 (cacheUsable_reachable v evs)). Qed.

End Reachable.

(** ** The registry of a page that is set up *)

Section SettledFacts.
Context {host : Host} (L : list Layer).

Let I : State -> Prop := Settled L.

Lemma Settled_frame s s' :
  layers s' = layers s -> bound s' = bound s -> order s' = order s ->
  visible s' = visible s -> loaded s' = loaded s -> active s' = active s ->
  rowEls s' = rowEls s -> I s -> I s'.
Proof. unfold I, Settled. intros -> -> -> -> -> -> ->. auto. Qed.

Lemma ordersCatalog_in o l : ordersCatalog L o -> l ∈ L -> full l ∈ o.
Proof.
  intros Ho Hl.
  assert (Hf : full l ∈ List.map full L) by (apply list_elem_of_fmap; eauto).
  destruct Ho as [Ho|Ho]; rewrite Ho; [exact Hf|].
  apply elem_of_app. left. exact Hf.
Qed.

Lemma Settled_in s l : I s -> l ∈ L -> full l ∈ order s.
Proof. intros (_ & _ & Ho & _) Hl. eapply ordersCatalog_in; eauto. Qed.

Lemma Settled_loaded id s :
  id ∈ order s -> I s -> I (set_loaded ({[id]} ∪ loaded s) s).
Proof.
  intros Hid (Hl & Hb & Ho & Hv & Hld & Ha & Hr).
  repeat split; auto. cbn. intros x [->%elem_of_singleton|Hx]%elem_of_union; auto.
Qed.

Lemma Settled_show id s :
  id ∈ order s -> I s -> I (set_visible ({[id]} ∪ visible s) s).
Proof.
  intros Hid (Hl & Hb & Ho & Hv & Hld & Ha & Hr).
  repeat split; auto. cbn. intros x [->%elem_of_singleton|Hx]%elem_of_union; auto.
Qed.

Lemma Settled_hide id s : I s -> I (set_visible (visible s ∖ {[id]}) s).
Proof.
  intros (Hl & Hb & Ho & Hv & Hld & Ha & Hr).
  repeat split; auto. cbn. intros x [Hx _]%elem_of_difference. auto.
Qed.

Lemma Settled_active a s : a ∈ L -> I s -> I (set_active (Some a) s).
Proof.
  intros Hin (Hl & Hb & Ho & Hv & Hld & Ha & Hr).
  repeat split; auto. cbn. eauto.
Qed.

Lemma Settled_checked e b s : I s -> I (setChecked e b s).
Proof.
  intros (Hl & Hb & Ho & Hv & Hld & Ha & Hr).
  repeat split; auto. cbn. intros r (r0 & -> & Hr0)%list_elem_of_fmap.
  destruct (Nat.eqb _ _); cbn; auto.
Qed.

Lemma Settled_rendered ft s : I s -> I (rendered ft s).
Proof.
  intros (Hl & Hb & Ho & Hv & Hld & Ha & Hr).
  repeat split; auto. unfold rendered. cbn.
  intros r (i & l & -> & Hi)%elem_of_lookup_imap. cbn.
  apply list_elem_of_lookup_2, list_elem_of_In, filter_In in Hi as [Hi _].
  rewrite <- Hl. apply list_elem_of_In, Hi.
Qed.

Lemma Settled_reordered o s : o ≡ₚ order s -> I s -> I (set_order o s).
Proof.
  intros Hp (Hl & Hb & Ho & Hv & Hld & Ha & Hr).
  repeat split; auto; cbn.
  - destruct Ho as [Ho|Ho]; [left|right]; rewrite Hp; exact Ho.
  - intros x Hx. rewrite Hp. auto.
  - intros x Hx. rewrite Hp. auto.
Qed.

Lemma Settled_cleared s : I s -> I (set_visible ∅ (set_loaded ∅ s)).
Proof.
  intros (Hl & Hb & Ho & Hv & Hld & Ha & Hr).
  repeat split; auto; cbn; intros x Hx; apply elem_of_empty in Hx; contradiction.
Qed.

(** The synthetic layer enters the order with the sets. *)
Lemma Settled_drawn s :
  I s ->
  I (let s1 := set_loaded ({[advId]} ∪ loaded s) (set_visible ({[advId]} ∪ visible s) s) in
     if bool_decide (advId ∈ order s1) then s1 else set_order (order s1 ++ [advId]) s1).
Proof.
  intros Hs. cbn zeta. cbn [order set_loaded set_visible].
  destruct (bool_decide (advId ∈ order s)) eqn:Hadv.
  - apply bool_decide_eq_true in Hadv.
    apply (Settled_loaded advId (set_visible _ s)); [exact Hadv|].
    apply Settled_show; assumption.
  - apply bool_decide_eq_false in Hadv.
    destruct Hs as (Hl & Hb & Ho & Hv & Hld & Ha & Hr).
    repeat split; auto; cbn.
    + destruct Ho as [Ho|Ho]; [right; rewrite Ho; reflexivity|].
      exfalso. apply Hadv. rewrite Ho. apply elem_of_app. right. left.
    + intros x [->%elem_of_singleton|Hx]%elem_of_union; apply elem_of_app;
        [right; left|left; auto].
    + intros x [->%elem_of_singleton|Hx]%elem_of_union; apply elem_of_app;
        [right; left|left; auto].
Qed.

Ltac ssolve :=
  first [ eassumption
        | (eapply Settled_frame; [..|eassumption]; reflexivity) ].

Lemma S_getLayerSrid layer s : I s -> keeps I (getLayerSrid layer) s.
Proof.
  intros Hs. unfold keeps, getLayerSrid. cbn.
  destruct (sridCache s !! full layer) eqn:Hc; cbn; [exact Hs|].
  split; [ssolve|]. intros [b|m] s' Hs'; cbn; ssolve.
Qed.

Lemma S_getLayerExtent4326 layer s : I s -> keeps I (getLayerExtent4326 layer) s.
Proof.
  intros Hs. unfold getLayerExtent4326.
  eapply keeps_bind; [apply S_getLayerSrid; assumption| |auto].
  intros srid s' Hs'. cbn. split; [ssolve|]. intros [b|m] s'' Hs''; cbn; auto.
Qed.

Lemma S_loadLayerInViewport layer b s :
  layer ∈ L -> I s -> keeps I (loadLayerInViewport layer b) s.
Proof.
  intros Hin Hs. unfold keeps, loadLayerInViewport. wp_cbn.
  eapply keeps_bind; [apply S_getLayerSrid; assumption| |auto].
  intros srid s' Hs'. cbn. split; [ssolve|]. intros [d|m] s'' Hs''; cbn; auto.
  pose proof (Settled_loaded (full layer) s'' (Settled_in _ _ Hs'' Hin) Hs'') as H1.
  destruct b; cbn; (eapply Settled_frame; [..|exact H1]; reflexivity).
Qed.

Lemma S_runActiveViewportLoad s : I s -> keeps I runActiveViewportLoad s.
Proof.
  intros Hs. unfold keeps, runActiveViewportLoad. wp_cbn.
  pose proof Hs as (_ & _ & _ & _ & _ & (a & Ha & Hin) & _). rewrite Ha. wp_cbn.
  destruct (bool_decide _); wp_cbn; auto.
  eapply keeps_bind; [apply S_loadLayerInViewport; assumption|cbn; auto|auto].
Qed.

Lemma S_fitBounds4326 ext s : I s -> keeps I (fitBounds4326 ext) s.
Proof.
  intros Hs. unfold keeps, fitBounds4326. cbn.
  destruct (_ || _); cbn; ssolve.
Qed.

Lemma S_fitAndRetry {A} layer (reload : Prog A) s :
  (forall s', I s' -> keeps I reload s') -> I s -> keeps I (fitAndRetry layer reload) s.
Proof.
  intros Hr Hs. unfold keeps, fitAndRetry.
  eapply keeps_bind; [apply S_getLayerExtent4326; assumption| |auto].
  intros [r|] s' Hs'; wp_cbn; auto.
  destruct (negb _); wp_cbn; auto.
  eapply keeps_bind; [apply S_fitBounds4326; assumption| |auto].
  intros _ s'' Hs''. eapply keeps_bind; [apply Hr; assumption|cbn; auto|auto].
Qed.

Lemma S_renderLayerList ft s : I s -> keeps I (renderLayerList ft) s.
Proof. intros Hs. apply (Settled_rendered ft s Hs). Qed.

Lemma S_moveLayer id dir s : I s -> keeps I (moveLayer id dir) s.
Proof.
  intros Hs. unfold keeps, moveLayer. wp_cbn.
  destruct (movedOrder _ _ _) as [o'|] eqn:Hm; wp_cbn; auto.
  apply S_renderLayerList.
  apply movedOrder_Permutation in Hm.
  pose proof (Settled_reordered o' s Hm Hs) as H1.
  (eapply Settled_frame; [..|exact H1]; reflexivity).
Qed.

Lemma S_reload (h : string -> Prog unit) s :
  (forall m s', I s' -> keeps I (h m) s') ->
  I s -> keeps I (try_catch (runActiveViewportLoad ;; Ret tt) h) s.
Proof.
  intros Hh Hs. eapply keeps_try_catch; [|auto|exact Hh].
  eapply keeps_bind; [apply S_runActiveViewportLoad; assumption|cbn; auto|auto].
Qed.

Lemma S_btnReload s : I s -> keeps I btnReload s.
Proof. apply S_reload. intros m s' Hs'. cbn. ssolve. Qed.

Lemma S_onMoveEnd s : I s -> keeps I onMoveEnd s.
Proof. apply S_reload. intros m s' Hs'. exact Hs'. Qed.

Lemma S_btnClear s : I s -> keeps I btnClear s.
Proof.
  intros Hs. unfold keeps, btnClear.
  repeat first [apply keeps_modify | apply keeps_get].
  apply S_renderLayerList.
  pose proof (Settled_cleared s Hs) as H1.
  (eapply Settled_frame; [..|exact H1]; reflexivity).
Qed.

Lemma S_btnRunSql s : I s -> keeps I btnRunSql s.
Proof.
  intros Hs. unfold keeps, btnRunSql. cbn.
  destruct (String.eqb _ _); cbn; auto.
  split; [ssolve|]. intros [d|m] s' Hs'; cbn; [|ssolve].
  destruct (rowsToFeatureCollection _); cbn; [ssolve|].
  pose proof (Settled_drawn s' Hs') as H1. cbn zeta in H1.
  cbn [order set_loaded set_visible] in H1.
  destruct (bool_decide _); cbn; (eapply Settled_frame; [..|exact H1]; reflexivity).
Qed.

Lemma S_cbChange r s : r_layer r ∈ L -> I s -> keeps I (cbChange r) s.
Proof.
  intros Hin Hs. unfold keeps, cbChange. wp_cbn.
  pose proof (Settled_in _ _ Hs Hin) as Hid.
  pose proof (Settled_show _ _ Hid Hs) as H1.
  pose proof (Settled_hide (full (r_layer r)) _ Hs) as H2.
  destruct (cbChecked _ _); wp_cbn.
  2: { (eapply Settled_frame; [..|exact H2]; reflexivity). }
  destruct (negb _); wp_cbn.
  2: { (eapply Settled_frame; [..|exact H1]; reflexivity). }
  eapply keeps_try_catch; [|auto|].
  - eapply keeps_bind; [apply S_loadLayerInViewport; assumption|cbn; auto|auto].
  - intros m s' Hs'. cbn.
    pose proof (Settled_checked (el r) false _ (Settled_hide (full (r_layer r)) _ Hs')) as H3.
    (eapply Settled_frame; [..|exact H3]; reflexivity).
Qed.

Lemma S_rowClick r s : r_layer r ∈ L -> I s -> keeps I (rowClick r) s.
Proof.
  intros Hin Hs. unfold keeps, rowClick. wp_cbn.
  eapply keeps_bind; [apply S_renderLayerList, Settled_active; assumption| |auto].
  intros _ s1 Hs1. destruct (r_emptyGeom r); wp_cbn; [ssolve|].
  pose proof (Settled_show _ _ (Settled_in _ _ Hs1 Hin) Hs1) as H1.
  eapply keeps_try_catch; [|auto|intros m s' Hs'; cbn; ssolve].
  unfold keeps. wp_cbn. destruct (negb _); wp_cbn.
  - eapply keeps_bind; [apply S_loadLayerInViewport; assumption| |auto].
    intros _ s2 Hs2. wp_cbn. destruct (Nat.eqb _ _); wp_cbn; auto.
    apply S_fitAndRetry; auto. intros. apply S_loadLayerInViewport; auto.
  - eapply keeps_bind; [apply S_runActiveViewportLoad|..]; [ssolve| |auto].
    intros [[|? ?]|] s2 Hs2; wp_cbn; auto;
      apply S_fitAndRetry; auto; intros; apply S_runActiveViewportLoad; auto.
Qed.

Lemma S_step w ev : world_ok I w -> world_ok I (step w ev).
Proof.
  intros Hw. pose proof Hw as [Hs Hp].
  pose proof Hs as (_ & _ & _ & _ & _ & _ & Hrows).
  destruct ev as [i r|i|i|i|i|text|text| | | | |v]; cbn -[launch].
  - destruct (pending w !! i) as [t|] eqn:Ht; [|assumption].
    apply launch_ok.
    + split; [assumption|]. cbn. apply (Forall_delete _ _ _ Hp).
    + cbn. rewrite Forall_lookup in Hp. apply (Hp _ _ Ht); assumption.
  - destruct (rowEls (state w) !! i) as [r|] eqn:Hr; [|assumption].
    destruct (cb_disabled r) eqn:Hd; [assumption|].
    apply list_elem_of_lookup_2 in Hr.
    apply launch_ok; [split; cbn; auto; apply Settled_checked, Hs|].
    apply S_cbChange; [auto|]. cbn. apply Settled_checked, Hs.
  - destruct (rowEls (state w) !! i) as [r|] eqn:Hr; [|assumption].
    apply list_elem_of_lookup_2 in Hr.
    apply launch_ok; [assumption|]. apply S_rowClick; auto.
  - destruct (rowEls (state w) !! i) as [r|] eqn:Hr; [|assumption].
    apply launch_ok; [assumption|]. apply S_moveLayer; auto.
  - destruct (rowEls (state w) !! i) as [r|] eqn:Hr; [|assumption].
    apply launch_ok; [assumption|]. apply S_moveLayer; auto.
  - assert (H1 : I (set_layerSearch text (state w))) by ssolve.
    destruct (bound (state w)).
    + apply launch_ok; [split; cbn; auto|]. apply S_renderLayerList. exact H1.
    + split; cbn; auto.
  - split; cbn; auto.
  - destruct (bound (state w)); [|assumption].
    apply launch_ok; [assumption|]. apply S_btnReload; auto.
  - destruct (bound (state w)); [|assumption].
    apply launch_ok; [assumption|]. apply S_btnClear; auto.
  - destruct (bound (state w)); [|assumption].
    apply launch_ok; [assumption|]. apply S_btnRunSql; auto.
  - destruct (bound (state w)); [|assumption].
    apply launch_ok; [assumption|]. apply S_btnReload; auto.
  - assert (H1 : I (set_viewport v (state w))) by ssolve.
    destruct (bound (state w)).
    + apply launch_ok; [split; cbn; auto|]. apply S_onMoveEnd. exact H1.
    + split; cbn; auto.
Qed.

Lemma S_steps w evs : world_ok I w -> world_ok I (steps w evs).
Proof.
  revert w. induction evs as [|ev evs IH]; intros w Hw; cbn; [exact Hw|].
  apply IH, S_step, Hw.
Qed.

End SettledFacts.

(** ** The phases of the page *)

Section PhaseFacts.
Context {host : Host}.

Lemma Named_catalog c : Named (catalogLayers c).
Proof.
  intros l Hl. apply catalog_full_dot in Hl.
  split; intros E; rewrite E in Hl; discriminate Hl.
Qed.

Lemma Named_hydrated row L : Named L -> Named (hydrated row L).
Proof.
  intros HL l (l0 & -> & Hl0)%list_elem_of_fmap. apply (HL l0 Hl0).
Qed.

Lemma Fresh_frame s s' :
  rowEls s' = rowEls s -> bound s' = bound s -> visible s' = visible s ->
  loaded s' = loaded s -> order s' = order s -> active s' = active s ->
  Fresh s -> Fresh s'.
Proof. unfold Fresh. intros -> -> -> -> -> ->. auto. Qed.

Lemma pickActive_some ls : ls <> [] -> exists a, pickActive ls = Some a /\ a ∈ ls.
Proof.
  intros Hne. destruct (pickActive ls) as [a|] eqn:Ha.
  - exists a. split; [reflexivity|]. eapply pickActive_in; eauto.
  - exfalso. unfold pickActive in Ha. destruct (List.find hasData ls); [discriminate|].
    destruct ls; [contradiction|discriminate].
Qed.

Lemma rows_of_layers (f : nat -> Layer -> RowEl) (P : Layer -> bool) ls r :
  (forall i l, r_layer (f i l) = l) -> r ∈ imap f (List.filter P ls) -> r_layer r ∈ ls.
Proof.
  intros Hf (i & l & -> & Hi)%elem_of_lookup_imap. rewrite Hf.
  apply list_elem_of_lookup_2, list_elem_of_In, filter_In in Hi as [Hi _].
  apply list_elem_of_In, Hi.
Qed.

(** From [ensureOrderInitialized] to [bindUI] the code does not wait: the
    first state another handler can see is set up. *)
Lemma initHydrated_settles ls s :
  ls <> [] -> Fresh s -> keeps (Settled ls) (initHydrated ls) s.
Proof.
  intros Hne (Hr & Hb & Hv & Hl & Ho & Ha).
  destruct (pickActive_some ls Hne) as (a & Hpick & Hin).
  unfold keeps, initHydrated. wp_cbn. unfold ensureOrderInitialized. wp_cbn.
  rewrite Ho. wp_cbn. rewrite Hpick. wp_cbn.
  assert (Hfa : full a ∈ List.map full ls) by (apply list_elem_of_fmap; eauto).
  destruct (hasData a) eqn:Hd; wp_cbn; unfold renderLayerList; wp_cbn.
  - eapply keeps_bind; [apply S_loadLayerInViewport; [exact Hin|]| |auto].
    + split; [reflexivity|]. split; [reflexivity|]. split; [left; reflexivity|].
      cbn. rewrite Hv, Hl. repeat split.
      * intros x [->%elem_of_singleton|Hx]%elem_of_union; [exact Hfa|].
        apply elem_of_empty in Hx. contradiction.
      * intros x Hx. apply elem_of_empty in Hx. contradiction.
      * eauto.
      * intros r Hr'. eapply rows_of_layers; [|exact Hr']. reflexivity.
    + intros [|f fc] s4 Hs4; wp_cbn; [|exact Hs4].
      eapply keeps_try_catch; [|auto|intros; assumption].
      apply S_fitAndRetry; auto. intros. apply S_loadLayerInViewport; auto.
  - split; [reflexivity|]. split; [reflexivity|]. split; [left; reflexivity|].
    cbn. rewrite Hv, Hl. repeat split.
    + intros x Hx. apply elem_of_empty in Hx. contradiction.
    + intros x Hx. apply elem_of_empty in Hx. contradiction.
    + eauto.
    + intros r Hr'. eapply rows_of_layers; [|exact Hr']. reflexivity.
Qed.

Lemma Ready_launch_initHydrated L s :
  L <> [] -> Named L -> Fresh s -> Ready (launch (initHydrated L) (mkWorld s [])).
Proof.
  intros Hne HL Hf. exists L. split; [exact Hne|]. split; [exact HL|].
  pose proof (initHydrated_settles L s Hne Hf) as Hk.
  apply wp_exec in Hk. unfold launch. cbn [state pending].
  destruct (exec (initHydrated L) s) as [s' [a|m|q k]]; split; cbn; auto.
  - tauto.
  - constructor; [|constructor]. intros r s'' Hs''. apply Hk. exact Hs''.
Qed.

Lemma boot_cataloging v : Cataloging (boot v).
Proof.
  split; [repeat split|].
  eexists. split; [reflexivity|].
  intros [c|m] s Hf; cbn -[initHydrated catalogLayers].
  2: { left. split; [|reflexivity]. exact Hf. }
  destruct (catalogLayers c) as [|l0 ls] eqn:Hc; cbn -[initHydrated catalogLayers].
  { left. split; [|reflexivity]. eapply Fresh_frame; [..|exact Hf]; reflexivity. }
  right. left. split.
  { eapply Fresh_frame; [..|exact Hf]; reflexivity. }
  eexists. split; [reflexivity|].
  intros [d|m] s' Hf'; cbn -[initHydrated launch]; right.
  - set (row := match firstRow d with Some r => r | None => ∅ end).
    change (Ready (launch (initHydrated (hydrated row (l0 :: ls))) (mkWorld s' []))).
    apply Ready_launch_initHydrated; [discriminate| |exact Hf'].
    rewrite <- Hc. apply Named_hydrated, Named_catalog.
  - apply Ready_launch_initHydrated; [discriminate| |exact Hf'].
    rewrite <- Hc. apply Named_catalog.
Qed.

Lemma Fresh_step w ev :
  Fresh (state w) ->
  (exists i r t, ev = Answer i r /\ pending w !! i = Some t) \/
  (Fresh (state (step w ev)) /\ pending (step w ev) = pending w).
Proof.
  intros Hf. pose proof Hf as (Hr & Hb & _).
  destruct ev as [i r|i|i|i|i|text|text| | | | |v]; cbn -[launch].
  - destruct (pending w !! i) as [t|] eqn:Ht; [left; eauto|right; auto].
  - rewrite Hr. right; auto.
  - rewrite Hr. right; auto.
  - rewrite Hr. right; auto.
  - rewrite Hr. right; auto.
  - rewrite Hb. right. split; [|reflexivity]. eapply Fresh_frame; [..|exact Hf]; reflexivity.
  - right. split; [|reflexivity]. eapply Fresh_frame; [..|exact Hf]; reflexivity.
  - rewrite Hb. right; auto.
  - rewrite Hb. right; auto.
  - rewrite Hb. right; auto.
  - rewrite Hb. right; auto.
  - rewrite Hb. right. split; [|reflexivity]. eapply Fresh_frame; [..|exact Hf]; reflexivity.
Qed.

Lemma Starting_step next w ev :
  Starting next w -> Starting next (step w ev) \/ next (step w ev).
Proof.
  intros (Hf & t & Hp & Hnext).
  destruct (Fresh_step w ev Hf) as [(i & r & t' & -> & Hi)|[Hf' Hp']].
  - right. cbn -[launch]. rewrite Hi. rewrite Hp in Hi |- *.
    destruct i as [|i]; [|discriminate]. injection Hi as <-.
    apply Hnext, Hf.
  - left. split; [exact Hf'|]. exists t. rewrite Hp'. auto.
Qed.

Lemma Quiet_step w ev : Quiet w -> Quiet (step w ev).
Proof.
  intros [Hf Hp].
  destruct (Fresh_step w ev Hf) as [(i & r & t' & -> & Hi)|[Hf' Hp']].
  - rewrite Hp in Hi. discriminate.
  - split; [exact Hf'|]. rewrite Hp'. exact Hp.
Qed.

Lemma Ready_steps w evs : Ready w -> Ready (steps w evs).
Proof.
  intros (L & Hne & HL & Hw). exists L. split; [exact Hne|]. split; [exact HL|].
  apply S_steps, Hw.
Qed.

Lemma Phase_step w ev : Phase w -> Phase (step w ev).
Proof.
  intros [H|[H|[H|H]]].
  - left. apply Quiet_step, H.
  - destruct (Starting_step _ w ev H) as [H'|[H'|[H'|H']]]; unfold Phase; auto.
  - destruct (Starting_step _ w ev H) as [H'|[H'|H']]; unfold Phase; auto.
  - right. right. right. apply (Ready_steps w [ev]), H.
Qed.

Lemma Phase_reachable v evs : Phase (steps (boot v) evs).
Proof.
  assert (Hb : Phase (boot v)) by (right; left; apply boot_cataloging).
  revert Hb. generalize (boot v). induction evs as [|ev evs IH]; intros w Hw; cbn; [exact Hw|].
  apply IH, Phase_step, Hw.
Qed.

(** The handlers are bound exactly when the page is set up. *)
Lemma Phase_bound w :
  Phase w -> if bound (state w) then Ready w else Fresh (state w).
Proof.
  intros [[H _]|[[H _]|[[H _]|H]]].
  1-3: pose proof H as (_ & Hb & _); rewrite Hb; exact H.
  pose proof H as (L & _ & _ & (_ & Hb & _) & _). rewrite Hb. exact H.
Qed.

Lemma ordersCatalog_NoDup L o :
  Named L -> ordersCatalog L o -> (NoDup o <-> NoDup (List.map full L)).
Proof.
  intros HL [Ho|Ho]; rewrite Ho; [reflexivity|].
  rewrite NoDup_app. split; [intros (H & _); exact H|].
  intros H. split; [exact H|]. split; [|apply NoDup_singleton].
  intros x (l & -> & Hl)%list_elem_of_fmap E%list_elem_of_singleton.
  apply (proj2 (HL l Hl)), E.
Qed.

Lemma ordersCatalog_elem L o id :
  ordersCatalog L o -> id ∈ o -> id = advId \/ exists l, l ∈ L /\ full l = id.
Proof.
  intros [Ho|Ho]; rewrite Ho.
  - intros (l & -> & Hl)%list_elem_of_fmap. eauto.
  - intros [(l & -> & Hl)%list_elem_of_fmap| ->%list_elem_of_singleton]%elem_of_app; eauto.
Qed.

(** X23.  Once the handlers are bound the stacking order lists the catalog:
    it is a rearrangement of the full names of the layers, in which the
    synthetic layer advanced-sql appears once more after an ad-hoc query has
    drawn.  So every layer of the catalog has its place in the order, every
    entry of the order is a layer of the catalog or the synthetic layer, and
    the order is free of duplicates exactly when the names of the catalog
    are. *)
Theorem order_lists_catalog (v : BBox) (evs : list Event) :
  let s := state (steps (boot v) evs) in
  bound s = true ->
  ordersCatalog (layers s) (order s) /\
  (forall l, l ∈ layers s -> full l ∈ order s) /\
  (forall id, id ∈ order s -> id = advId \/ exists l, l ∈ layers s /\ full l = id) /\
  (NoDup (order s) <-> NoDup (List.map full (layers s))).
Proof.
  cbn zeta. intros Hb.
  pose proof (Phase_bound _ (Phase_reachable v evs)) as H. rewrite Hb in H.
  destruct H as (L & _ & HL & (Hl & _ & Ho & _) & _). rewrite Hl.
  split; [exact Ho|]. split; [|split].
  - intros l. apply ordersCatalog_in, Ho.
  - intros id. apply ordersCatalog_elem, Ho.
  - apply ordersCatalog_NoDup; assumption.
Qed.

(** X24.  In every state the page reaches, every identifier in the visible
    set or in the loaded set is in the stacking order, and so is every layer
    the map holds: applyOrder, which skips the identifiers it is not given,
    leaves no layer of the map without its place. *)
Theorem drawn_layers_are_ordered (v : BBox) (evs : list Event) (id : string) :
  let s := state (steps (boot v) evs) in
  (id ∈ visible s -> id ∈ order s) /\
  (id ∈ loaded s -> id ∈ order s) /\
  (id ∈ surfaceKeys (trace s) -> id ∈ order s).
Proof.
  cbn zeta.
  pose proof (Phase_bound _ (Phase_reachable v evs)) as H.
  pose proof (proj1 (keysAreLoaded_reachable v evs) id) as Hk.
  destruct (bound _).
  - destruct H as (L & _ & HL & (Hl & _ & Ho & Hv & Hld & _) & _).
    split; [apply Hv|]. split; [apply Hld|].
    intros (x & Hx & <-)%Hk. specialize (Hld x Hx).
    destruct (ordersCatalog_elem _ _ _ Ho Hld) as [->|(l & Hin & <-)]; [exact Hld|].
    unfold layerKey. destruct (String.eqb_spec (full l) ""); [|exact Hld].
    exfalso. apply (proj1 (HL l Hin)). assumption.
  - destruct H as (_ & _ & Hv & Hld & _). rewrite Hv, Hld.
    split; [intros Hx; apply elem_of_empty in Hx; contradiction|].
    split; [intros Hx; apply elem_of_empty in Hx; contradiction|].
    intros (x & Hx & _)%Hk. rewrite Hld in Hx. apply elem_of_empty in Hx. contradiction.
Qed.

(** X25.  Until init has bound the handlers the page shows and holds
    nothing: no row, nothing visible, loaded or ordered, no active layer.
    From then on the catalog is fixed: whatever happens next the list of
    layers, counts included, stays as hydration left it (the counts are never
    fetched again) and the handlers stay bound; there is always an active
    layer, it is a layer of the catalog, and so is the layer of every
    rendered row. *)
Theorem catalog_is_fixed (v : BBox) (evs evs' : list Event) :
  let s := state (steps (boot v) evs) in
  let s' := state (steps (steps (boot v) evs) evs') in
  if bound s then
    layers s <> [] /\ layers s' = layers s /\ bound s' = true /\
    (exists a, active s = Some a /\ a ∈ layers s) /\
    (forall r, r ∈ rowEls s -> r_layer r ∈ layers s)
  else Fresh s.
Proof.
  cbn zeta.
  pose proof (Phase_bound _ (Phase_reachable v evs)) as H.
  destruct (bound _); [|exact H].
  destruct H as (L & Hne & _ & Hw).
  pose proof Hw as ((Hl & _ & _ & _ & _ & Ha & Hr) & _).
  pose proof (S_steps L _ evs' Hw) as ((Hl' & Hb' & _) & _).
  rewrite Hl. auto.
Qed.

End PhaseFacts.

(** ** [debounce] *)

Section Debounce.
Context {A : Type} (ms : nat).

Lemma oneTimer_tick (d : Debounced A) e : oneTimer ms d -> oneTimer ms (tick ms d e).
Proof.
  intros Hd. unfold oneTimer, tick, debounced, runTimers in *.
  destruct e as [a|dt|]; cbn [d_timers d_t d_now d_next d_ran].
  - right. exists (mkTimer (d_next d) (d_now d + ms) a).
    split; [|split; [reflexivity|cbn; lia]].
    destruct Hd as [->|(x & -> & -> & _)]; cbn.
    + destruct (d_t d); reflexivity.
    + rewrite Nat.eqb_refl. reflexivity.
  - destruct Hd as [Hd|(x & Hx & Ht & Hdue)]; [left; exact Hd|].
    right. exists x. repeat split; auto. lia.
  - destruct Hd as [->|(x & Hx & Ht & Hdue)]; [left; reflexivity|].
    rewrite Hx. cbn. destruct (Nat.leb (tm_due x) (d_now d)); cbn; [left; reflexivity|].
    right. exists x. auto.
Qed.

Lemma oneTimer_run evs (d : Debounced A) : oneTimer ms d -> oneTimer ms (fold_left (tick ms) evs d).
Proof.
  revert d. induction evs as [|e evs IH]; intros d Hd; cbn; [exact Hd|].
  apply IH, oneTimer_tick, Hd.
Qed.

Lemma ran_comes evs (d : Debounced A) :
  oneTimer ms d -> d_ran (fold_left (tick ms) evs d) = rev (comes ms d evs) ++ d_ran d.
Proof.
  revert d. induction evs as [|e evs IH]; intros d Hd.
  { cbn. unfold comes. destruct Hd as [->|(x & -> & _)]; reflexivity. }
  cbn [fold_left]. rewrite (IH _ (oneTimer_tick d e Hd)).
  destruct e as [a|dt|].
  - assert (Ht : d_timers (tick ms d (Called a)) = [mkTimer (d_next d) (d_now d + ms) a]).
    { destruct Hd as [E|(x & E & Ex & _)]; cbn; rewrite E; [destruct (d_t d); reflexivity|].
      rewrite Ex. cbn. rewrite Nat.eqb_refl. reflexivity. }
    unfold comes at 1. rewrite Ht. cbn [tm_due tm_args tick debounced d_now d_ran].
    replace (d_now d + ms - (d_now d + ms)) with 0 by lia.
    f_equal. f_equal. unfold comes.
    destruct Hd as [->|(x & -> & _)]; cbn; destruct (fires ms 0 evs); reflexivity.
  - unfold comes. cbn [tick d_timers d_now d_ran].
    destruct Hd as [->|(x & -> & _ & Hdue)]; [reflexivity|].
    cbn [fires]. replace (d_now d + dt + ms - tm_due x) with (d_now d + ms - tm_due x + dt) by lia.
    reflexivity.
  - unfold comes. cbn [tick runTimers d_timers d_now d_ran].
    destruct Hd as [->|(x & -> & _ & Hdue)]; [reflexivity|].
    cbn [List.filter fires survivors].
    destruct (Nat.leb_spec (tm_due x) (d_now d)) as [Hle|Hgt]; cbn [negb List.map rev app].
    + replace (Nat.leb ms (d_now d + ms - tm_due x)) with true
        by (symmetry; apply Nat.leb_le; lia).
      cbn [orb app rev]. rewrite <- app_assoc. reflexivity.
    + replace (Nat.leb ms (d_now d + ms - tm_due x)) with false
        by (symmetry; apply Nat.leb_gt; lia).
      reflexivity.
Qed.

Lemma survivors_called (evs : list (Tick A)) : sublist (survivors ms evs) (calledWith evs).
Proof.
  induction evs as [|[a|dt|] evs IH]; cbn; auto.
  destruct (fires ms 0 evs); [apply sublist_skip|apply sublist_cons]; exact IH.
Qed.

Lemma survivors_burst (calls : list (A * nat)) (rest : list (Tick A)) :
  Forall (fun p => p.2 < ms) calls ->
  match rest with Called _ :: _ => True | _ => False end ->
  survivors ms (burst calls ++ rest) = survivors ms rest.
Proof.
  intros Hall Hrest. induction Hall as [|p calls Hp Hall IH]; [reflexivity|].
  cbn [burst flat_map app survivors fires]. fold (burst calls).
  replace (Nat.leb ms (0 + p.2)) with false by (symmetry; apply Nat.leb_gt; lia).
  cbn [orb].
  assert (Hf : fires ms (0 + p.2) (burst calls ++ rest) = false).
  { destruct calls as [|q calls]; cbn; [|reflexivity].
    destruct rest as [|[a|dt|] rest]; try contradiction. reflexivity. }
  rewrite Hf. exact IH.
Qed.

(** X26.  The function debounce returns runs [fn] for exactly those calls
    that are followed, before the next call, by a turn of the event loop at
    least [ms] after the call: once for each, in the order of the calls and
    with the arguments of that call.  A call that is followed by another one
    earlier than that never reaches [fn].  At any time at most one timer is
    set, and [fn] has run no more often than the function was called. *)
Theorem debounce_trailing (evs : list (Tick A)) :
  let d := fold_left (tick ms) evs fresh_debounce in
  d_ran d = rev (survivors ms evs) /\
  sublist (rev (d_ran d)) (calledWith evs) /\
  length (d_timers d) <= 1 /\
  length (d_ran d) <= length (calledWith evs).
Proof.
  cbn zeta.
  assert (H0 : oneTimer ms (@fresh_debounce A)) by (left; reflexivity).
  pose proof (ran_comes evs fresh_debounce H0) as Hr.
  unfold comes in Hr. cbn in Hr. rewrite app_nil_r in Hr.
  split; [exact Hr|]. rewrite Hr, rev_involutive.
  split; [apply survivors_called|]. split.
  - destruct (oneTimer_run evs _ H0) as [->|(x & -> & _)]; cbn; lia.
  - rewrite length_rev. apply sublist_length, survivors_called.
Qed.

(** X27.  Of a burst of calls, each made less than [ms] after the one
    before, only the last one reaches [fn], whatever turns the event loop
    takes in between: when the page then stays quiet for [ms], [fn] has run
    once, with the arguments of the last call. *)
Theorem debounce_burst (calls : list (A * nat)) (last : A) (wait : nat) :
  Forall (fun p => p.2 < ms) calls ->
  ms <= wait ->
  d_ran (fold_left (tick ms) (burst calls ++ [Called last; Elapsed wait; Turn])
           fresh_debounce) = [last].
Proof.
  intros Hall Hwait.
  assert (H0 : oneTimer ms (@fresh_debounce A)) by (left; reflexivity).
  rewrite (ran_comes _ fresh_debounce H0). unfold comes. cbn [fresh_debounce d_timers d_ran].
  rewrite app_nil_r, survivors_burst; [|exact Hall|exact I].
  cbn [survivors fires]. replace (Nat.leb ms (0 + wait)) with true
    by (symmetry; apply Nat.leb_le; lia).
  reflexivity.
Qed.

End Debounce.

(** ** Quoted aliases *)

Lemma doubleQuotes_app a b : doubleQuotes (a +:+ b) = doubleQuotes a +:+ doubleQuotes b.
Proof.
  induction a as [|c a IH]; [reflexivity|].
  rewrite app_cons. cbn [doubleQuotes]. rewrite IH.
  destruct (Ascii.eqb c _); reflexivity.
Qed.

Lemma doubleQuotes_paired s : quotesPaired (doubleQuotes s) = true.
Proof.
  induction s as [|c s IH]; [reflexivity|]. cbn.
  destruct (Ascii.eqb c "034") eqn:E; cbn; rewrite E; [exact IH|exact IH].
Qed.

Lemma doubleQuotes_inj a b : doubleQuotes a = doubleQuotes b -> a = b.
Proof.
  revert b. induction a as [|c a IH]; intros [|e b]; cbn.
  - reflexivity.
  - destruct (Ascii.eqb e _); discriminate.
  - destruct (Ascii.eqb c _); discriminate.
  - destruct (Ascii.eqb c "034") eqn:Ec, (Ascii.eqb e "034") eqn:Ee;
      intros E; inversion E; subst; try congruence; f_equal; auto.
Qed.

(** X28.  The alias that hydrateGeomCounts writes between double quotes is
    the full name with every double quote doubled: in it the quotes come in
    pairs, so none of them ends the quoted alias; two layers get the same
    alias only when they have the same full name; a name without a double
    quote is its own alias; and the alias of a concatenation is the
    concatenation of the aliases. *)
Theorem alias_quoting (a b : string) :
  quotesPaired (doubleQuotes a) = true /\
  (doubleQuotes a = doubleQuotes b <-> a = b) /\
  (hasChar "034" a = false -> doubleQuotes a = a) /\
  doubleQuotes (a +:+ b) = doubleQuotes a +:+ doubleQuotes b.
Proof.
  split; [apply doubleQuotes_paired|].
  split; [split; [apply doubleQuotes_inj|intros ->; reflexivity]|].
  split; [|apply doubleQuotes_app].
  induction a as [|c a IH]; [reflexivity|]. cbn.
  destruct (Ascii.eqb c "034"); [discriminate|]. intros H. rewrite (IH H). reflexivity.
Qed.

(** ** Further properties on sample data *)

Section MoreExamples.
Import Example.
#[local] Existing Instance Example.host.

Lemma escapeHtml_injective_witness :
  escapeHtml "a<b" = escapeHtml "a<b" /\ "a<b" = "a<b".
Proof.
  assert (H : escapeHtml "a<b" = escapeHtml "a<b") by reflexivity.
  split; [exact H|]. exact (escapeHtml_injective "a<b" "a<b" H).
Defined.

Lemma catalogLayers_layer_witness :
  fieldsLayer None ∈ catalogLayers catalog /\
  geomCount (fieldsLayer None) = None /\
  full (fieldsLayer None) = schema (fieldsLayer None) +:+ "." +:+ name (fieldsLayer None).
Proof.
  assert (H : fieldsLayer None ∈ catalogLayers catalog) by (vm_compute; left).
  split; [exact H|].
  destruct (catalogLayers_layer catalog (fieldsLayer None) H) as (H1 & H2 & _).
  split; [exact H1|exact H2].
Defined.

Lemma getLayerSrid_usable_witness :
  sridCache cachedState !! full (roadsLayer None) = None /\
  exists v,
    outcome (run [Resolved sridRow3857] (getLayerSrid (roadsLayer None)) cachedState) = Done v /\
    usableSrid v.
Proof.
  assert (H : sridCache cachedState !! full (roadsLayer None) = None) by reflexivity.
  split; [exact H|].
  destruct (getLayerSrid_usable (roadsLayer None) cachedState sridRow3857 [] H)
    as (v & Hrun & Hu & _).
  exists v. rewrite Hrun. split; [reflexivity|exact Hu].
Defined.

Lemma moveLayer_undone_witness :
  let s := state started in
  let s1 := finalState (run [] (moveLayer "public.roads" (-1)) s) in
  let s2 := finalState (run [] (moveLayer "public.roads" (- -1)) s1) in
  NoDup (order s) /\ order s1 = ["public.roads"; "public.fields"] /\ order s2 = order s.
Proof.
  cbv zeta.
  assert (H : NoDup (order (state started))).
  { change (NoDup ["public.fields"; "public.roads"]). repeat constructor; not_in_list. }
  assert (H1 : order (finalState (run [] (moveLayer "public.roads" (-1)) (state started))) =
               ["public.roads"; "public.fields"]) by (vm_compute; reflexivity).
  split; [exact H|]. split; [exact H1|].
  apply (moveLayer_undone "public.roads" (-1) (state started) H).
  rewrite H1. intros E. vm_compute in E. discriminate E.
Defined.

Lemma rowClick_empty_witness :
  let res := run [] (rowClick emptyRow) (state started) in
  r_emptyGeom emptyRow = true /\
  active (finalState res) = Some (fieldsLayer (Some (Js.of_Z 0))) /\
  trace (finalState res) = trace (state started) /\
  featureCount (finalState res) = 0.
Proof.
  cbv zeta. assert (H : r_emptyGeom emptyRow = true) by reflexivity.
  split; [exact H|].
  destruct (rowClick_empty emptyRow (state started) [] H) as (_ & _ & Ha & _ & Ht & Hf & _).
  split; [exact Ha|]. split; [exact Ht|exact Hf].
Defined.

Lemma init_counts_rejected_witness :
  let s := finalState (run [Resolved catalog; Rejected "busy"] init (initialState v0)) in
  catalogLayers catalog = [fieldsLayer None; roadsLayer None] /\
  active s = Some (fieldsLayer None) /\ visible s = {["public.fields"]} /\
  bound s = true.
Proof.
  cbv zeta.
  assert (H : catalogLayers catalog = fieldsLayer None :: [roadsLayer None])
    by (vm_compute; reflexivity).
  split; [exact H|].
  destruct (init_counts_rejected v0 catalog "busy" _ _ H) as (_ & _ & Ha & Hv & _ & _ & Hb & _).
  split; [exact Ha|]. split; [exact Hv|exact Hb].
Defined.

Lemma init_without_layers_witness :
  Inert [Fetch GetCatalog; MapInit]
    (steps (boot v0) [Answer 0 (Rejected "down"); ClickReload; ClickRow 0; MapMoved v0]).
Proof.
  exact (init_without_layers v0 (Rejected "down") [ClickReload; ClickRow 0; MapMoved v0] I).
Defined.


Lemma twoLayers_ok : surfaceOk twoLayers.
Proof. apply setFeatures_ok, setFeatures_ok, surfaceOk_empty. Qed.

Lemma twoLayers_panes i j a b ea eb :
  ["public.fields"; "public.roads"] !! i = Some a ->
  ["public.fields"; "public.roads"] !! j = Some b ->
  m_layers twoLayers !! a = Some ea -> m_layers twoLayers !! b = Some eb ->
  e_paneId ea = e_paneId eb -> i = j.
Proof.
  intros Hi Hj Ha Hb.
  destruct i as [|[|i]]; [| |discriminate Hi]; destruct j as [|[|j]]; try reflexivity;
    try discriminate Hj.
  all: injection Hi as <-; injection Hj as <-; vm_compute in Ha, Hb.
  all: injection Ha as <-; injection Hb as <-; intros E; vm_compute in E; discriminate E.
Qed.

Lemma applyOrder_stacks_witness :
  surfaceOk twoLayers /\
  m_zIndex (applyOrder ["public.fields"; "public.roads"] twoLayers)
    !! safePaneId "public.roads" = Some 401.
Proof.
  split; [exact twoLayers_ok|].
  assert (He : m_layers twoLayers !! "public.roads" =
               Some (mkEntry (safePaneId "public.roads") [] true "public.roads"))
    by (vm_compute; reflexivity).
  exact (proj1 (applyOrder_stacks twoLayers ["public.fields"; "public.roads"]
                  twoLayers_ok twoLayers_panes) 1 "public.roads" _ eq_refl He).
Defined.

Lemma cache_is_usable_witness :
  sridCache (state (steps (boot v0) startedEvents)) !! "public.fields" = Some (Js.of_Z 4326) /\
  usableSrid (Js.of_Z 4326).
Proof.
  assert (H : sridCache (state (steps (boot v0) startedEvents)) !! "public.fields" =
              Some (Js.of_Z 4326)) by (vm_compute; reflexivity).
  split; [exact H|]. exact (cache_is_usable v0 startedEvents "public.fields" _ H).
Defined.

Lemma order_lists_catalog_witness :
  bound (state (steps (boot v0) startedEvents)) = true /\
  ordersCatalog (layers (state (steps (boot v0) startedEvents)))
    (order (state (steps (boot v0) startedEvents))).
Proof.
  assert (H : bound (state (steps (boot v0) startedEvents)) = true)
    by (vm_compute; reflexivity).
  split; [exact H|]. exact (proj1 (order_lists_catalog v0 startedEvents H)).
Defined.

Lemma debounce_burst_witness :
  Forall (fun p : nat * nat => p.2 < 350) [(1, 100); (2, 349)] /\ 350 <= 350 /\
  d_ran (fold_left (tick 350)
           (burst [(1, 100); (2, 349)] ++ [Called 3; Elapsed 350; Turn])
           fresh_debounce) = [3].
Proof.
  assert (H : Forall (fun p : nat * nat => p.2 < 350) [(1, 100); (2, 349)])
    by (repeat (constructor; [cbn; lia|]); constructor).
  split; [exact H|]. split; [lia|].
  exact (debounce_burst 350 [(1, 100); (2, 349)] 3 350 H (le_n 350)).
Defined.

End MoreExamples.
